(** * The auto-update library manager of launcher

    A shallow embedding of the update library manager
    ([updateLibraryManager], the second half of
    [pkg/packagekit/wix/wix.go]) and of the Windows permission check
    ([pkg/autoupdate/helpers_windows.go]), with the properties of the
    specification stated and settled against that code.  The wix
    packaging tool and the conversion of query results to protobuf, which
    the same file holds, follow with properties of their own.

    Conventions of the embedding:
    - Go strings are byte strings; they are Rocq [string]s.
    - A directory entry is addressed by its base name; the update library
      of a binary and the staging directory are finite maps from names to
      their contents.  Names are opaque keys (single path components).
    - Every function that touches the disk is a computation in the monad
      [M], which threads the disk and collects the events (system calls,
      lock operations) in the order in which the Go code performs them.
      A [defer] is written out at the exits it covers.
    - What the host decides (the mirror's answer, a failing system call,
      what an archive unpacks to) is read from a [Host] record, so that a
      theorem quantified over hosts covers every failure pattern.
    - Log lines are not part of the model: no branch of the code depends
      on them. *)

From Stdlib Require Import ZArith Ascii String Strings.Byte Sorted Permutation.
From stdpp Require Import base option list gmap strings sorting.

Local Open Scope Z_scope.
Local Open Scope nat_scope.

(** ** Go basics *)

#[global] Instance byte_eq_dec : EqDecision byte := Byte.byte_eq_dec.

(** A Go [error]: nil, an error made from a message, or an error wrapping
    another one ([fmt.Errorf("...: %w", err)]). *)
Inductive error : Type :=
  | nil
  | errors_New (msg : string)
  | fmt_Errorf (msg : string) (err : error).

Definition is_nil (e : error) : bool :=
  match e with nil => true | _ => false end.

(** The outcome of a Go call: it returns a value, or it panics. *)
Inductive outcome (A : Type) : Type :=
  | Returns (a : A)
  | Panics (why : string).
Arguments Returns {A} a.
Arguments Panics {A} why.

(** ** Go's [strings] package *)

Module strings.

(** [len(s) >= len(prefix) && s[:len(prefix)] == prefix] *)
Definition HasPrefix (s prefix : string) : bool :=
  (String.length prefix <=? String.length s)
  && String.eqb (String.substring 0 (String.length prefix) s) prefix.

(** [len(s) >= len(suffix) && s[len(s)-len(suffix):] == suffix] *)
Definition HasSuffix (s suffix : string) : bool :=
  (String.length suffix <=? String.length s)
  && String.eqb
       (String.substring (String.length s - String.length suffix)
          (String.length suffix) s) suffix.

(** [TrimPrefix] returns [s] without the leading [prefix]; [s] itself
    when it does not start with [prefix]. *)
Definition TrimPrefix (s prefix : string) : string :=
  if HasPrefix s prefix
  then String.substring (String.length prefix)
         (String.length s - String.length prefix) s
  else s.

(** [TrimSuffix] returns [s] without the trailing [suffix]; [s] itself
    when it does not end with [suffix]. *)
Definition TrimSuffix (s suffix : string) : string :=
  if HasSuffix s suffix
  then String.substring 0 (String.length s - String.length suffix) s
  else s.

End strings.

(** ** Binaries under update *)

(** Modelled from the spec: the type [autoupdatableBinary] and its two
    constants are declared in a file of the package that is not part of the
    sources at hand; the spec gives the closed set [{launcher, osqueryd}],
    and the Go type is a string type whose values are these two names. *)
Inductive autoupdatableBinary : Type :=
  | binaryLauncher
  | binaryOsqueryd.

Definition binary_string (b : autoupdatableBinary) : string :=
  match b with
  | binaryLauncher => "launcher"
  | binaryOsqueryd => "osqueryd"
  end.

Definition binaries : list autoupdatableBinary :=
  [binaryLauncher; binaryOsqueryd].

#[global] Instance autoupdatableBinary_eq_dec : EqDecision autoupdatableBinary.
Proof. solve_decision. Defined.

(** [versionFromTarget] extracts the version of an update from its file
    name: the target has the form [launcher-0.13.6.tar.gz]; the prefix
    [fmt.Sprintf("%s-", binary)] and the extension are trimmed. *)
Definition versionFromTarget (binary : autoupdatableBinary)
    (targetFilename : string) : string :=
  let prefixToTrim := binary_string binary +:+ "-" in
  strings.TrimSuffix (strings.TrimPrefix targetFilename prefixToTrim) ".tar.gz".

(** The canonical target file name of a version, [{binary}-{version}.tar.gz]. *)
Definition targetFor (binary : autoupdatableBinary) (v : string) : string :=
  binary_string binary +:+ "-" +:+ v +:+ ".tar.gz".

(** ** Semantic versions and sorting *)

(** The interface of the semantic-version library the manager uses
    ([semver.NewVersion], [Version.Original], [Version.LessThan]) and of
    [sort.Sort] on a [semver.Collection].  Both are outside the repository;
    the manager is verified against their contracts: parsing keeps the
    original text, precedence is a strict weak order, and sorting permutes
    its input into ascending precedence (no stability is promised, as
    [sort.Sort] promises none). *)
Class Semver : Type := {
  Version : Type;
  NewVersion : string → option Version;
  Original : Version → string;
  LessThan : Version → Version → bool;
  Original_NewVersion :
    ∀ s v, NewVersion s = Some v → Original v = s;
  LessThan_irrefl : ∀ v, LessThan v v = false;
  LessThan_trans :
    ∀ u v w, LessThan u v = true → LessThan v w = true → LessThan u w = true;
  LessThan_incomparable_trans :
    ∀ u v w, LessThan v u = false → LessThan w v = false → LessThan w u = false;
}.

(** [not_newer u v]: [u] does not take precedence over [v]. *)
Definition not_newer `{Semver} (u v : Version) : Prop := LessThan v u = false.

Class Sorter `{Semver} : Type := {
  sort_Sort : list Version → list Version;
  sort_Sort_perm : ∀ l, sort_Sort l ≡ₚ l;
  sort_Sort_sorted : ∀ l, Sorted not_newer (sort_Sort l);
}.

(** ** The disk *)

(** What a version directory holds at [executableLocation]: nothing, an
    executable whose [--version] run fails, or one whose run exits with 0. *)
Inductive Executable : Type :=
  | ExeMissing
  | ExeBroken
  | ExeRunnable.

#[global] Instance Executable_eq_dec : EqDecision Executable.
Proof. solve_decision. Defined.

(** An entry of the staging directory: a downloaded archive, or a
    directory into which an archive is unpacked. *)
Inductive Staged : Type :=
  | StagedFile (content : list byte)
  | StagedDir (exe : Executable).

(** The part of the file system the manager works on: the update library
    of each binary ([<base>/launcher/*], [<base>/osqueryd/*]) and the
    staging directory, which both binaries share. *)
Record Disk : Type := mkDisk {
  launcher_updates : gmap string Executable;
  osqueryd_updates : gmap string Executable;
  staging : gmap string Staged;
}.

(** The entries under [updatesDirectory(binary, baseDir)]. *)
Definition updatesDirectory (binary : autoupdatableBinary) (d : Disk)
    : gmap string Executable :=
  match binary with
  | binaryLauncher => launcher_updates d
  | binaryOsqueryd => osqueryd_updates d
  end.

Definition set_updates (binary : autoupdatableBinary)
    (m : gmap string Executable) (d : Disk) : Disk :=
  match binary with
  | binaryLauncher => mkDisk m (osqueryd_updates d) (staging d)
  | binaryOsqueryd => mkDisk (launcher_updates d) m (staging d)
  end.

Definition set_staging (m : gmap string Staged) (d : Disk) : Disk :=
  mkDisk (launcher_updates d) (osqueryd_updates d) m.

(** Where a path of the manager points: into the library of a binary or
    into the staging directory. *)
Inductive Location : Type :=
  | InLibrary (binary : autoupdatableBinary) (version : string)
  | InStaging (name : string).

(** The directories the manager globs. *)
Inductive Directory : Type :=
  | UpdatesDir (binary : autoupdatableBinary)
  | StagingDir.

(** The executable found at [executableLocation(dir, binary)] for the
    directory at [loc]; a plain file has none. *)
Definition executableLocation (loc : Location) (d : Disk) : Executable :=
  match loc with
  | InLibrary b v => default ExeMissing (updatesDirectory b d !! v)
  | InStaging n =>
      match staging d !! n with
      | Some (StagedDir e) => e
      | _ => ExeMissing
      end
  end.

(** ** Target metadata (go-tuf) *)

(** [data.TargetFileMeta]: the declared length (an [int64]) and the
    digests by name of hash algorithm. *)
Record TargetFileMeta : Type := mkMeta {
  Length : Z;
  Hashes : gmap string (list byte);
}.

(** [HashAlgorithms]: the names under which digests are declared. *)
Definition HashAlgorithms (m : TargetFileMeta) : list string :=
  (map_to_list (Hashes m)).*1.

(** A byte stream: the bytes it delivers, and whether it ends with a read
    error instead of the end of the file. *)
Record Stream : Type := mkStream {
  delivered : list byte;
  read_err : bool;
}.

(** [io.LimitReader(r, n)]: stops with the end of the file after [n]
    bytes, without asking [r] for more; nothing is read for [n <= 0]. *)
Definition io_LimitReader (r : Stream) (n : Z) : Stream :=
  if bool_decide (Z.of_nat (length (delivered r)) < n)%Z
  then r
  else mkStream (take (Z.to_nat n) (delivered r)) false.

(** ** The host *)

(** Everything the code asks of its environment.  A field [*_err] says
    whether that call fails on the host for a reason the disk of the model
    does not show (permissions, a full disk, a malformed pattern). *)
Record Host : Type := mkHost {
  (** [mirrorClient.Get] for a binary and target: no answer (an error) or
      the body of the response.  The status code is not looked at. *)
  mirror_Get : autoupdatableBinary → string → option Stream;
  (** The hash functions: [None] for a name go-tuf does not know. *)
  hash_New : string → option (list byte → list byte);
  (** [fsutil.UntarBundle]: the executable an archive unpacks to at
      [executableLocation], or [None] for an archive it cannot unpack. *)
  untar : list byte → option Executable;
  Glob_err : Directory → bool;
  RemoveAll_err : Location → bool;
  Create_err : string → bool;
  Copy_err : string → bool;
  Close_err : string → bool;
  MkdirAll_err : string → bool;
  Chmod_err : string → bool;
  Rename_err : autoupdatableBinary → string → bool;
}.

(** ** Events *)

(** What a call does, in order: the lock operations, the download, the
    bytes pulled through the tee (into the file buffer and the hashers),
    the outcome of the comparison with the metadata, and the system calls
    with their outcome ([true]: no error). *)
Inductive Event : Type :=
  | EvLock (binary : autoupdatableBinary)
  | EvUnlock (binary : autoupdatableBinary)
  | EvGet (binary : autoupdatableBinary) (targetFilename : string)
      (answer : option Stream)
  | EvTee (fed : list byte)
  | EvVerify (targetFilename : string) (ok : bool)
  | EvCreate (name : string) (ok : bool)
  | EvCopy (name : string) (content : list byte) (ok : bool)
  | EvMkdirAll (name : string) (ok : bool)
  | EvUntar (name : string) (ok : bool)
  | EvChmod (name : string) (ok : bool)
  | EvCheckExecutable (loc : Location) (ok : bool)
  | EvRename (binary : autoupdatableBinary) (version : string) (ok : bool)
  | EvGlob (dir : Directory) (ok : bool)
  | EvRemoveAll (loc : Location) (ok : bool).

(** ** The monad of the manager *)

(** A computation takes the disk and returns its result, the disk it
    leaves and the events it performed. *)
Definition M (A : Type) : Type := Disk → A * Disk * list Event.

#[global] Instance M_ret : MRet M := λ A a d, (a, d, []).

#[global] Instance M_bind : MBind M := λ A B f m d,
  let '(a, d1, t1) := m d in
  let '(b, d2, t2) := f a d1 in
  (b, d2, t1 ++ t2).

Definition get_disk : M Disk := λ d, (d, d, []).
Definition put_disk (d' : Disk) : M unit := λ _, (tt, d', []).
Definition emit (e : Event) : M unit := λ d, (tt, d, [e]).

(** [for _, x := range l { f x }] *)
Fixpoint for_range {A : Type} (l : list A) (f : A → M unit) : M unit :=
  match l with
  | [] => mret tt
  | x :: l' => f x ;; for_range l' f
  end.

(** Projections of a run. *)
Definition result_of {A} (r : A * Disk * list Event) : A := r.1.1.
Definition disk_of {A} (r : A * Disk * list Event) : Disk := r.1.2.
Definition events_of {A} (r : A * Disk * list Event) : list Event := r.2.

(** ** System calls on the disk *)

Section syscalls.

Context (h : Host).

(** [filepath.Glob(filepath.Join(dir, "*"))]: the names of all entries of
    the directory; an error only for a malformed pattern. *)
Definition filepath_Glob (dir : Directory) : M (option (list string)) :=
  if Glob_err h dir then emit (EvGlob dir false) ;; mret None
  else
    d ← get_disk;
    emit (EvGlob dir true) ;;
    mret (Some match dir with
               | UpdatesDir b => (map_to_list (updatesDirectory b d)).*1
               | StagingDir => (map_to_list (staging d)).*1
               end).

(** [os.RemoveAll(path)]: removes the entry and all it contains; no
    error when there is nothing at [path]. *)
Definition os_RemoveAll (loc : Location) : M error :=
  if RemoveAll_err h loc
  then emit (EvRemoveAll loc false) ;; mret (errors_New "remove")
  else
    d ← get_disk;
    put_disk match loc with
             | InLibrary b v => set_updates b (delete v (updatesDirectory b d)) d
             | InStaging n => set_staging (delete n (staging d)) d
             end ;;
    emit (EvRemoveAll loc true) ;;
    mret nil.

(** [os.Create(path)] in the staging directory: an empty file, replacing
    a file of that name; an error when a directory is in the way. *)
Definition os_Create (name : string) : M error :=
  d ← get_disk;
  match staging d !! name with
  | Some (StagedDir _) =>
      emit (EvCreate name false) ;; mret (errors_New "is a directory")
  | _ =>
      if Create_err h name
      then emit (EvCreate name false) ;; mret (errors_New "create")
      else
        put_disk (set_staging (<[name := StagedFile []]> (staging d)) d) ;;
        emit (EvCreate name true) ;;
        mret nil
  end.

(** [io.Copy(out, &fileBuffer)] into the file just created.  A failed
    copy leaves the file as it was created. *)
Definition io_Copy (name : string) (fileBuffer : list byte) : M error :=
  if Copy_err h name
  then emit (EvCopy name fileBuffer false) ;; mret (errors_New "write")
  else
    d ← get_disk;
    put_disk (set_staging (<[name := StagedFile fileBuffer]> (staging d)) d) ;;
    emit (EvCopy name fileBuffer true) ;;
    mret nil.

Definition file_Close (name : string) : M error :=
  mret (if Close_err h name then errors_New "close" else nil).

(** [os.MkdirAll(path, 0755)] in the staging directory: nothing to do
    when the directory exists, an error when a file is in the way. *)
Definition os_MkdirAll (name : string) : M error :=
  d ← get_disk;
  match staging d !! name with
  | Some (StagedFile _) =>
      emit (EvMkdirAll name false) ;; mret (errors_New "not a directory")
  | Some (StagedDir _) =>
      if MkdirAll_err h name
      then emit (EvMkdirAll name false) ;; mret (errors_New "mkdir")
      else emit (EvMkdirAll name true) ;; mret nil
  | None =>
      if MkdirAll_err h name
      then emit (EvMkdirAll name false) ;; mret (errors_New "mkdir")
      else
        put_disk (set_staging (<[name := StagedDir ExeMissing]> (staging d)) d) ;;
        emit (EvMkdirAll name true) ;;
        mret nil
  end.

(** [fsutil.UntarBundle(destination, source)]: reads the archive staged
    under [source] and unpacks it into the staged directory [name]; what
    the archive does not carry stays as it is in the directory. *)
Definition fsutil_UntarBundle (name source : string) : M error :=
  d ← get_disk;
  match staging d !! source with
  | Some (StagedFile archive) =>
      match untar h archive with
      | Some unpacked =>
          let exe :=
            match unpacked with
            | ExeMissing => executableLocation (InStaging name) d
            | _ => unpacked
            end in
          put_disk (set_staging (<[name := StagedDir exe]> (staging d)) d) ;;
          emit (EvUntar name true) ;;
          mret nil
      | None => emit (EvUntar name false) ;; mret (errors_New "untar")
      end
  | _ => emit (EvUntar name false) ;; mret (errors_New "open archive")
  end.

(** [os.Chmod(executableLocation(dir, binary), 0755)]: an error when
    there is no such file. *)
Definition os_Chmod (name : string) : M error :=
  d ← get_disk;
  if bool_decide (executableLocation (InStaging name) d = ExeMissing)
     || Chmod_err h name
  then emit (EvChmod name false) ;; mret (errors_New "chmod")
  else emit (EvChmod name true) ;; mret nil.

(** [os.Rename(stagedVersionedDirectory, newUpdateDirectory)]: on
    success the staged directory is the version directory of the
    library, in one step. *)
Definition os_Rename (name : string) (binary : autoupdatableBinary)
    (version : string) : M error :=
  d ← get_disk;
  match staging d !! name with
  | Some (StagedDir exe) =>
      if Rename_err h binary version
      then emit (EvRename binary version false) ;; mret (errors_New "rename")
      else
        put_disk (set_updates binary
                    (<[version := exe]> (updatesDirectory binary d))
                    (set_staging (delete name (staging d)) d)) ;;
        emit (EvRename binary version true) ;;
        mret nil
  | _ => emit (EvRename binary version false) ;; mret (errors_New "rename")
  end.

End syscalls.

(** Modelled from the spec: [autoupdate.CheckExecutable(ctx, path,
    "--version")] is not part of the sources at hand (only its Windows
    permission helper is).  The spec describes it as the liveness probe:
    the invocation of [<executable> --version], which succeeds when the
    executable is there and exits with 0. *)
Definition CheckExecutable (loc : Location) : M error :=
  d ← get_disk;
  match executableLocation loc d with
  | ExeRunnable => emit (EvCheckExecutable loc true) ;; mret nil
  | _ => emit (EvCheckExecutable loc false) ;; mret (errors_New "exec")
  end.

(** Modelled from the spec: the lock registry ([libraryLock]) is not part
    of the sources at hand.  The spec gives one exclusive lock per binary,
    acquired once by each guarded operation and released on all its exits;
    the locks of the two binaries are independent. *)
Definition Lock (binary : autoupdatableBinary) : M unit := emit (EvLock binary).
Definition Unlock (binary : autoupdatableBinary) : M unit := emit (EvUnlock binary).

(** The binaries whose lock is held after a sequence of events. *)
Fixpoint locks_held (held : list autoupdatableBinary) (t : list Event)
    : list autoupdatableBinary :=
  match t with
  | [] => held
  | EvLock b :: t' => locks_held (b :: held) t'
  | EvUnlock b :: t' => locks_held (filter (λ b', b' ≠ b) held) t'
  | _ :: t' => locks_held held t'
  end.

(** ** Verification against the metadata (go-tuf's [util]) *)

Section tufutil.

Context (h : Host).

(** Modelled from the spec: [tufutil.GenerateTargetFileMeta(r, algs...)]
    belongs to go-tuf.  Following the spec (4.3, steps 3 and 4) it pulls
    the whole stream through one hasher for each algorithm and yields the
    actual metadata: the number of bytes and their digests.  It fails,
    before reading, on an algorithm it does not know, and on a read
    error.  The second component is what the read pulled through the
    tee, that is, what reached the file buffer. *)
Definition GenerateTargetFileMeta (r : Stream) (algs : list string)
    : option TargetFileMeta * list byte :=
  match mapM (λ a, (λ f, (a, f)) <$> hash_New h a) algs with
  | None => (None, [])
  | Some hashers =>
      if read_err r then (None, delivered r)
      else
        (Some (mkMeta (Z.of_nat (length (delivered r)))
                 (list_to_map ((λ '(a, f), (a, f (delivered r))) <$> hashers))),
         delivered r)
  end.

(** Modelled from the spec: [tufutil.TargetFileMetaEqual(actual,
    expected)] belongs to go-tuf.  Following the spec (4.3, step 5) the
    lengths must be equal and, for every algorithm of the expected
    metadata, the digests must be equal byte for byte; go-tuf further
    rejects metadata that share no algorithm. *)
Definition TargetFileMetaEqual (actual expected : TargetFileMeta) : error :=
  if bool_decide (Length actual ≠ Length expected)
  then errors_New "wrong length"
  else
    let common :=
      filter (λ p, is_Some (Hashes actual !! p.1)) (map_to_list (Hashes expected)) in
    if bool_decide (Exists (λ p, Hashes actual !! p.1 ≠ Some p.2) common)
    then errors_New "wrong hash"
    else if bool_decide (common = [])
    then errors_New "no common hash"
    else nil.

End tufutil.

(** ** The update library manager *)

Section updateLibraryManager.

Context `{Sorter} (h : Host).

(** [pathToTargetVersionExecutable] returns the place of the executable
    of the version the target names, along with that version. *)
Definition pathToTargetVersionExecutable (binary : autoupdatableBinary)
    (targetFilename : string) : Location * string :=
  let targetVersion := versionFromTarget binary targetFilename in
  (InLibrary binary targetVersion, targetVersion).

(** [Available] determines if the given target is already available in
    the update library. *)
Definition Available (binary : autoupdatableBinary) (targetFilename : string)
    : M bool :=
  let '(executablePath, _) :=
    pathToTargetVersionExecutable binary targetFilename in
  err ← CheckExecutable executablePath;
  mret (is_nil err).

(** [removeUpdate] removes a version from the library of the binary. *)
Definition removeUpdate (binary : autoupdatableBinary) (binaryVersion : string)
    : M unit :=
  _ ← os_RemoveAll h (InLibrary binary binaryVersion);
  mret tt.

(** [tidyStagedUpdates] removes all old archives from the staged updates
    directory.  The argument [binary] is not used by the body. *)
Definition tidyStagedUpdates (binary : autoupdatableBinary) : M unit :=
  matches ← filepath_Glob h StagingDir;
  match matches with
  | None => mret tt
  | Some matches =>
      for_range matches (λ name, _ ← os_RemoveAll h (InStaging name); mret tt)
  end.

(** [stageAndVerifyUpdate] downloads the update and verifies it against
    the given local metadata.  It returns the staged path and an error. *)
Definition stageAndVerifyUpdate (binary : autoupdatableBinary)
    (targetFilename : string) (localTargetMetadata : TargetFileMeta)
    : M (string * error) :=
  let stagedUpdatePath := targetFilename in
  let resp := mirror_Get h binary targetFilename in
  emit (EvGet binary targetFilename resp) ;;
  match resp with
  | None =>
      mret (stagedUpdatePath,
            fmt_Errorf "could not make request to download target"
              (errors_New "get"))
  | Some body =>
      (* read at most localMeta.Length bytes *)
      let stream := io_LimitReader body (Length localTargetMetadata) in
      let '(actualTargetMeta, fileBuffer) :=
        GenerateTargetFileMeta h stream (HashAlgorithms localTargetMetadata) in
      emit (EvTee fileBuffer) ;;
      match actualTargetMeta with
      | None =>
          mret (stagedUpdatePath,
                fmt_Errorf "could not write downloaded target to file and compute its metadata"
                  (errors_New "generate"))
      | Some actualTargetMeta =>
          let err := TargetFileMetaEqual actualTargetMeta localTargetMetadata in
          emit (EvVerify targetFilename (is_nil err)) ;;
          if negb (is_nil err) then
            mret (stagedUpdatePath, fmt_Errorf "verification failed for target" err)
          else
            (* everything looks good: create the file and write it to disk *)
            err ← os_Create h stagedUpdatePath;
            if negb (is_nil err) then
              mret ("", fmt_Errorf "could not create file" err)
            else
              err ← io_Copy h stagedUpdatePath fileBuffer;
              if negb (is_nil err) then
                _ ← file_Close h stagedUpdatePath;
                mret (stagedUpdatePath,
                      fmt_Errorf "could not write downloaded target to file" err)
              else
                err ← file_Close h stagedUpdatePath;
                if negb (is_nil err) then
                  mret (stagedUpdatePath,
                        fmt_Errorf "could not close downloaded target file after writing" err)
                else mret (stagedUpdatePath, nil)
      end
  end.

(** [moveVerifiedUpdate] untars the update, makes sure that it is a
    valid, working update, and moves it to its versioned place in the
    library.  The deferred removal of the staged directory covers every
    exit after [MkdirAll]. *)
Definition moveVerifiedUpdate (binary : autoupdatableBinary)
    (targetFilename : string) (stagedUpdate : string) : M error :=
  let targetVersion := versionFromTarget binary targetFilename in
  let stagedVersionedDirectory := targetVersion in
  err ← os_MkdirAll h stagedVersionedDirectory;
  if negb (is_nil err) then
    mret (fmt_Errorf "could not create directory for untarring and validating new update" err)
  else
    ret ← (err ← fsutil_UntarBundle h stagedVersionedDirectory stagedUpdate;
           if negb (is_nil err) then
             mret (fmt_Errorf "could not untar update" err)
           else
             (* make sure that the binary is executable *)
             err ← os_Chmod h stagedVersionedDirectory;
             if negb (is_nil err) then
               mret (fmt_Errorf "could not set +x permissions on executable" err)
             else
               (* validate the executable *)
               err ← CheckExecutable (InStaging stagedVersionedDirectory);
               if negb (is_nil err) then
                 mret (fmt_Errorf "could not verify executable" err)
               else
                 (* all good: shelve it in the library under its version *)
                 err ← os_Rename h stagedVersionedDirectory binary targetVersion;
                 if negb (is_nil err) then
                   mret (fmt_Errorf "could not move staged target" err)
                 else mret nil);
    _ ← os_RemoveAll h (InStaging stagedVersionedDirectory);
    mret ret.

(** [AddToLibrary] adds the given target to the library of the binary,
    downloading and verifying it if it is not already there.  The purge
    of the staging directory is deferred after the two early returns, the
    unlock before them. *)
Definition AddToLibrary (binary : autoupdatableBinary) (currentVersion : string)
    (targetFilename : string) (targetMetadata : TargetFileMeta) : M error :=
  Lock binary ;;
  ret ← (if String.eqb currentVersion (versionFromTarget binary targetFilename)
         then mret nil
         else
           available ← Available binary targetFilename;
           if (available : bool) then mret nil
           else
             ret ← ('(stagedUpdatePath, err) ←
                      stageAndVerifyUpdate binary targetFilename targetMetadata;
                    if negb (is_nil err) then
                      mret (fmt_Errorf "could not stage update" err)
                    else
                      err ← moveVerifiedUpdate binary targetFilename stagedUpdatePath;
                      if negb (is_nil err) then
                        mret (fmt_Errorf "could not move verified update" err)
                      else mret nil);
             tidyStagedUpdates binary ;;
             mret ret);
  Unlock binary ;;
  mret ret.

(** The classification loop of [sortedVersionsInLibrary]: a name that
    does not parse, or whose executable fails the probe, is invalid. *)
Fixpoint classifyVersions (binary : autoupdatableBinary)
    (rawVersionsInLibrary : list string) : M (list Version * list string) :=
  match rawVersionsInLibrary with
  | [] => mret ([], [])
  | rawVersion :: rest =>
      match NewVersion rawVersion with
      | None =>
          '(versionsInLibrary, invalidVersions) ← classifyVersions binary rest;
          mret (versionsInLibrary, rawVersion :: invalidVersions)
      | Some v =>
          err ← CheckExecutable (InLibrary binary rawVersion);
          '(versionsInLibrary, invalidVersions) ← classifyVersions binary rest;
          if negb (is_nil err)
          then mret (versionsInLibrary, rawVersion :: invalidVersions)
          else mret (v :: versionsInLibrary, invalidVersions)
      end
  end.

(** [sortedVersionsInLibrary] returns the sorted list of the valid
    versions, the list of the invalid ones, and an error only when unable
    to glob for versions. *)
Definition sortedVersionsInLibrary (binary : autoupdatableBinary)
    : M (list string * list string * error) :=
  rawVersionsInLibrary ← filepath_Glob h (UpdatesDir binary);
  match rawVersionsInLibrary with
  | None =>
      mret ([], [], fmt_Errorf "could not glob for updates in library"
                      (errors_New "bad pattern"))
  | Some rawVersionsInLibrary =>
      '(versionsInLibrary, invalidVersions) ←
        classifyVersions binary rawVersionsInLibrary;
      (* sort the versions (ascending order), then back to strings *)
      mret (Original <$> sort_Sort versionsInLibrary, invalidVersions, nil)
  end.

Definition numberOfVersionsToKeep : nat := 3.

(** The pruning loop of [tidyUpdateLibrary], over the versions from the
    most recent one down ([i] from [len - 1] to [0]). *)
Fixpoint pruneVersions (binary : autoupdatableBinary)
    (currentRunningVersion : string) (nonCurrentlyRunningVersionsKept : nat)
    (newestFirst : list string) : M unit :=
  match newestFirst with
  | [] => mret tt
  | v :: older =>
      (* always keep the current running executable *)
      if String.eqb v currentRunningVersion then
        pruneVersions binary currentRunningVersion
          nonCurrentlyRunningVersionsKept older
      else if numberOfVersionsToKeep - 1 <=? nonCurrentlyRunningVersionsKept then
        removeUpdate binary v ;;
        pruneVersions binary currentRunningVersion
          nonCurrentlyRunningVersionsKept older
      else
        pruneVersions binary currentRunningVersion
          (nonCurrentlyRunningVersionsKept + 1) older
  end.

(** [tidyUpdateLibrary] reviews all updates in the library of the binary
    and removes the versions that are no longer needed.  (Source comment:
    "It will always preserve the current running binary, and then the two
    most recent valid versions. It will remove versions it cannot
    validate.") *)
Definition tidyUpdateLibrary (binary : autoupdatableBinary)
    (currentRunningVersion : string) : M unit :=
  if String.eqb currentRunningVersion "" then mret tt
  else
    '(versionsInLibrary, invalidVersionsInLibrary, err) ←
      sortedVersionsInLibrary binary;
    if negb (is_nil err) then mret tt
    else
      for_range invalidVersionsInLibrary (removeUpdate binary) ;;
      if length versionsInLibrary <=? numberOfVersionsToKeep then mret tt
      else
        pruneVersions binary currentRunningVersion 0 (reverse versionsInLibrary).

(** [TidyLibrary] removes unneeded files from the staged updates and
    updates directories. *)
Definition TidyLibrary (binary : autoupdatableBinary) (currentVersion : string)
    : M unit :=
  Lock binary ;;
  tidyStagedUpdates binary ;;
  tidyUpdateLibrary binary currentVersion ;;
  Unlock binary.

End updateLibraryManager.

(** ** The Windows executable-permission check *)

Module helpers_windows.

(** What [os.Stat] hands back: a [FileInfo] (of which the check only asks
    [IsDir]), or no [FileInfo] together with an error. *)
Record FileInfo : Type := { IsDir : bool }.

Inductive stat_error : Type :=
  | ErrNotExist              (* an error for which [os.IsNotExist] holds *)
  | ErrOther (msg : string). (* any other failure, e.g. access denied *)

(** The pair [(stat, err)] returned by [os.Stat]: the [FileInfo] is nil
    exactly when the error is not. *)
Inductive stat_return : Type :=
  | StatOk (fi : FileInfo)
  | StatErr (e : stat_error).

Definition stat_info (r : stat_return) : option FileInfo :=
  match r with StatOk fi => Some fi | StatErr _ => None end.

Definition stat_err (r : stat_return) : option stat_error :=
  match r with StatOk _ => None | StatErr e => Some e end.

(** [os.IsNotExist(err)]; false on a nil error. *)
Definition os_IsNotExist (err : option stat_error) : bool :=
  match err with Some ErrNotExist => true | _ => false end.

(** [checkExecutablePermissions], with the cases of the [switch] tried in
    the order of the source.  The second case calls the method [IsDir]
    on [stat]: on a nil [FileInfo] that call is a nil dereference. *)
Definition checkExecutablePermissions (os_Stat : string → stat_return)
    (potentialBinary : string) : outcome error :=
  if String.eqb potentialBinary "" then
    Returns (errors_New "empty string isn't executable")
  else
    let r := os_Stat potentialBinary in
    let stat := stat_info r in
    let err := stat_err r in
    if os_IsNotExist err then Returns (errors_New "No such file")
    else
      match stat with
      | None => Panics "invalid memory address or nil pointer dereference"
      | Some fi =>
          if IsDir fi then Returns (errors_New "is a directory")
          else
            match err with
            | Some e => Returns (fmt_Errorf "statting file" (errors_New "stat"))
            | None =>
                if negb (strings.HasSuffix potentialBinary ".exe")
                then Returns (errors_New "not executable")
                else Returns nil
            end
      end.

End helpers_windows.

(** ** Instances for running the model *)

(** The versions [MAJOR.MINOR.PATCH] of decimal numbers, the core of the
    semantic-version grammar, with their precedence.  The examples run the
    manager on versions of this form. *)
Module plain.

Definition digit (c : ascii) : option nat :=
  let n := nat_of_ascii c in
  if (48 <=? n) && (n <=? 57) then Some (n - 48) else None.

Fixpoint number (s : string) (acc : option nat) : option nat :=
  match s with
  | EmptyString => acc
  | String c s' =>
      match digit c with
      | Some k => number s' (Some (10 * default 0 acc + k))
      | None => None
      end
  end.

Fixpoint fields (s : string) (cur : string) : list string :=
  match s with
  | EmptyString => [cur]
  | String c s' =>
      if Ascii.eqb c "."%char then cur :: fields s' ""
      else fields s' (cur +:+ String c "")
  end.

Record version : Type := mkVersion {
  major : nat;
  minor : nat;
  patch : nat;
  original : string;
}.

Definition parse (s : string) : option version :=
  match fields s "" with
  | [a; b; c] =>
      match number a None, number b None, number c None with
      | Some x, Some y, Some z => Some (mkVersion x y z s)
      | _, _, _ => None
      end
  | _ => None
  end.

Definition lessThan (u v : version) : bool :=
  (major u <? major v)
  || ((major u =? major v)
      && ((minor u <? minor v)
          || ((minor u =? minor v) && (patch u <? patch v)))).

End plain.

#[global, refine] Instance plain_semver : Semver := {|
  Version := plain.version;
  NewVersion := plain.parse;
  Original := plain.original;
  LessThan := plain.lessThan;
|}.
Proof.
  - intros s v. unfold plain.parse.
    repeat case_match; try discriminate. by intros [= <-].
  - intros [a b c o]. unfold plain.lessThan; simpl.
    rewrite !Nat.ltb_irrefl, !Nat.eqb_refl. done.
  - intros [a b c o] [a' b' c' o'] [a'' b'' c'' o'']; unfold plain.lessThan; simpl.
    rewrite !orb_true_iff, !andb_true_iff, !orb_true_iff, !andb_true_iff,
      !Nat.ltb_lt, !Nat.eqb_eq. lia.
  - intros [a b c o] [a' b' c' o'] [a'' b'' c'' o'']; unfold plain.lessThan; simpl.
    rewrite !orb_false_iff, !andb_false_iff, !orb_false_iff, !andb_false_iff,
      !Nat.ltb_ge, !Nat.eqb_neq. lia.
Defined.

(** Any sorting algorithm fits the contract of [sort.Sort]; merge sort on
    the precedence is the one the examples run. *)
#[global] Instance not_newer_dec `{Semver} : RelDecision not_newer.
Proof. intros u v. unfold not_newer. apply _. Defined.

#[global, refine] Instance merge_sorter `{Semver} : Sorter := {|
  sort_Sort := merge_sort not_newer;
|}.
Proof.
  - intros l. apply merge_sort_Permutation.
  - intros l.
    assert (Total not_newer) as Htotal.
    { intros u v. unfold not_newer.
      destruct (LessThan v u) eqn:Hvu; [|by left].
      destruct (LessThan u v) eqn:Huv; [|by right].
      pose proof (LessThan_trans _ _ _ Huv Hvu) as Hc.
      by rewrite LessThan_irrefl in Hc. }
    apply (Sorted_merge_sort not_newer).
Defined.

(** ** Vocabulary of the properties *)

#[global] Instance Location_eq_dec : EqDecision Location.
Proof. solve_decision. Defined.

(** The staging directory after removing the entries [names] one by one. *)
Definition remove_names (h : Host) (names : list string) (m : gmap string Staged)
    : gmap string Staged :=
  foldl (λ m n, if RemoveAll_err h (InStaging n) then m else delete n m) m names.

(** What is left of the staging directory after a purge: everything when
    the glob fails, otherwise the entries the host refuses to remove. *)
Definition purge_staging (h : Host) (m : gmap string Staged) : gmap string Staged :=
  if Glob_err h StagingDir then m
  else filter (λ p, RemoveAll_err h (InStaging p.1) = true) m.

(** The events of a purge of the staging directory [m]. *)
Definition purge_events (h : Host) (m : gmap string Staged) : list Event :=
  if Glob_err h StagingDir then [EvGlob StagingDir false]
  else
    EvGlob StagingDir true ::
    ((λ n, EvRemoveAll (InStaging n) (negb (RemoveAll_err h (InStaging n))))
       <$> (map_to_list m).*1).

(** A host on which globbing and removing do not fail. *)
Definition removes_reliably (h : Host) : Prop :=
  (∀ dir, Glob_err h dir = false) ∧ (∀ loc, RemoveAll_err h loc = false).

(** An event that is a lock operation. *)
Definition is_lock_event (e : Event) : Prop :=
  match e with EvLock _ | EvUnlock _ => True | _ => False end.

(** An event of the download: the request to the mirror. *)
Definition is_download (e : Event) : bool :=
  match e with EvGet _ _ _ => true | _ => false end.

Definition downloads (t : list Event) : nat := length (filter is_download t).

(** The part of [AddToLibrary] that the deferred purge covers: staging and
    verifying the download, then moving it into the library. *)
Definition stageThenMove (h : Host) (binary : autoupdatableBinary)
    (targetFilename : string) (targetMetadata : TargetFileMeta) : M error :=
  '(stagedUpdatePath, err) ←
    stageAndVerifyUpdate h binary targetFilename targetMetadata;
  if negb (is_nil err) then
    mret (fmt_Errorf "could not stage update" err)
  else
    err ← moveVerifiedUpdate h binary targetFilename stagedUpdatePath;
    if negb (is_nil err) then
      mret (fmt_Errorf "could not move verified update" err)
    else mret nil.

(** The events of [moveVerifiedUpdate] for a binary and a version. *)
Definition is_move_event (binary : autoupdatableBinary) (v : string) (e : Event)
    : bool :=
  match e with
  | EvMkdirAll n _ | EvUntar n _ | EvChmod n _ => bool_decide (n = v)
  | EvCheckExecutable loc _ | EvRemoveAll loc _ => bool_decide (loc = InStaging v)
  | EvRename b' v' _ => bool_decide (b' = binary ∧ v' = v)
  | _ => false
  end.

(** The content hashes to the metadata: it has the declared length, and
    for every declared digest (there is at least one) the algorithm is
    known and yields that digest on the content. *)
Definition hashes_to (h : Host) (content : list byte) (meta : TargetFileMeta)
    : Prop :=
  Z.of_nat (length content) = Length meta
  ∧ Hashes meta ≠ ∅
  ∧ ∀ alg dg, Hashes meta !! alg = Some dg →
      ∃ f, hash_New h alg = Some f ∧ f content = dg.

(** The verification step of [stageAndVerifyUpdate] on a stream: the
    metadata can be generated and equal the local metadata. *)
Definition verifies (h : Host) (s : Stream) (meta : TargetFileMeta) : bool :=
  match (GenerateTargetFileMeta h s (HashAlgorithms meta)).1 with
  | Some actual => is_nil (TargetFileMetaEqual actual meta)
  | None => false
  end.

(** The bytes of a response that the verification reads: at most the
    declared length. *)
Definition bounded (body : Stream) (meta : TargetFileMeta) : list byte :=
  take (Z.to_nat (Length meta)) (delivered body).

(** An event that puts a version directory into a library. *)
Definition is_install (e : Event) : Prop :=
  match e with EvRename _ _ true => True | _ => False end.

(** The steps of a successful [moveVerifiedUpdate]: the staged directory
    is made, the archive unpacked, the executable made runnable and
    probed, and the directory renamed into the library; the deferred
    removal of the staged directory follows ([removed]: without error). *)
Definition move_events (binary : autoupdatableBinary) (v : string)
    (removed : bool) : list Event :=
  [EvMkdirAll v true; EvUntar v true; EvChmod v true;
   EvCheckExecutable (InStaging v) true; EvRename binary v true;
   EvRemoveAll (InStaging v) removed].

(** The steps of a successful guarded update of [AddToLibrary]: the
    download, the [fed] bytes pulled through the tee, the verification,
    the staged archive written, and the move. *)
Definition install_events (binary : autoupdatableBinary) (targetFilename : string)
    (body : Stream) (fed : list byte) (removed : bool) : list Event :=
  [EvGet binary targetFilename (Some body); EvTee fed;
   EvVerify targetFilename true; EvCreate targetFilename true;
   EvCopy targetFilename fed true]
  ++ move_events binary (versionFromTarget binary targetFilename) removed.

(** The library after removing the versions [names] one by one. *)
Definition remove_versions (h : Host) (binary : autoupdatableBinary)
    (names : list string) (m : gmap string Executable) : gmap string Executable :=
  foldl (λ m n, if RemoveAll_err h (InLibrary binary n) then m else delete n m)
    m names.

Section classification.

Context `{Semver}.

(** A valid entry of a library: its name parses as a version and its
    executable passes the probe. *)
Definition probe_ok (m : gmap string Executable) (n : string) : bool :=
  bool_decide (m !! n = Some ExeRunnable).

Definition valid_version (m : gmap string Executable) (n : string)
    : option Version :=
  if probe_ok m n then NewVersion n else None.

Definition valid_versions (m : gmap string Executable) (names : list string)
    : list Version :=
  omap (valid_version m) names.

Definition invalid_versions (m : gmap string Executable) (names : list string)
    : list string :=
  filter (λ n, valid_version m n = None) names.

(** The versions the pruning loop removes, going from the most recent
    one down, when [kept] versions other than the running one are
    already kept. *)
Fixpoint pruned (currentRunningVersion : string) (kept : nat)
    (newestFirst : list string) : list string :=
  match newestFirst with
  | [] => []
  | v :: older =>
      if String.eqb v currentRunningVersion
      then pruned currentRunningVersion kept older
      else if 2 <=? kept then v :: pruned currentRunningVersion kept older
      else pruned currentRunningVersion (kept + 1) older
  end.

(** [not_newer_name x y]: as versions, [x] does not take precedence
    over [y]. *)
Definition not_newer_name (x y : string) : Prop :=
  ∀ vx vy, NewVersion x = Some vx → NewVersion y = Some vy →
           LessThan vy vx = false.

End classification.

(** ** Claims of the specification that the code does not meet, as stated *)

Section claims.

Context `{Semver}.

(** [newer m n]: both names parse, and [m] takes precedence over [n]. *)
Definition newer (m n : string) : bool :=
  match NewVersion m, NewVersion n with
  | Some vm, Some vn => LessThan vn vm
  | _, _ => false
  end.

(** An entry of the library among its three most recent versions: fewer
    than three entries are newer. *)
Definition among_three_most_recent (L : gmap string Executable) (n : string)
    : bool :=
  bool_decide (is_Some (L !! n))
  && (length (List.filter (λ m, newer m n) (map_to_list L).*1) <? 3).

(** The retention policy in the words of the spec: what is kept of the
    library [L] is the three most recent versions plus the running one. *)
Definition retained_as_specified (L : gmap string Executable)
    (currentRunningVersion : string) (L' : gmap string Executable) : Prop :=
  ∀ n, is_Some (L' !! n) ↔
       is_Some (L !! n)
       ∧ (n = currentRunningVersion ∨ among_three_most_recent L n = true).

End claims.

(** Idempotence in the words of the spec: two calls in succession perform
    exactly one download. *)
Definition exactly_one_download (h : Host) (binary : autoupdatableBinary)
    (currentVersion t : string) (meta : TargetFileMeta) (d : Disk) : Prop :=
  let r1 := AddToLibrary h binary currentVersion t meta d in
  let r2 := AddToLibrary h binary currentVersion t meta (disk_of r1) in
  downloads (events_of r1 ++ events_of r2) = 1.

(** ** Hosts and disks for the examples *)

(** A toy hash: the algorithm ["sha256"] is known, and the digest of a
    content is the content. *)
Definition toy_hash (alg : string) : option (list byte → list byte) :=
  if String.eqb alg "sha256" then Some (λ content, content) else None.

(** A toy archive format: the first byte says what the archive unpacks to. *)
Definition toy_untar (archive : list byte) : option Executable :=
  match archive with
  | [] => None
  | x01 :: _ => Some ExeRunnable
  | x02 :: _ => Some ExeBroken
  | _ => Some ExeMissing
  end.

(** A host on which no system call fails, with a mirror to choose. *)
Definition host_with (mirror : autoupdatableBinary → string → option Stream)
    : Host :=
  mkHost mirror toy_hash toy_untar
    (λ _, false) (λ _, false) (λ _, false) (λ _, false) (λ _, false)
    (λ _, false) (λ _, false) (λ _ _, false).

(** The mirror does not answer. *)
Definition offline : Host := host_with (λ _ _, None).

(** The mirror serves a runnable archive of four bytes. *)
Definition release : list byte := [x01; x02; x03; x04].
Definition serving : Host := host_with (λ _ _, Some (mkStream release false)).

(** Metadata that declares the first two bytes of the release. *)
Definition meta_two : TargetFileMeta :=
  mkMeta 2 {[ "sha256" := [x01; x02] ]}.

(** Metadata whose digest the served bytes do not have. *)
Definition meta_other : TargetFileMeta :=
  mkMeta 2 {[ "sha256" := [x01; x07] ]}.

Definition empty_disk : Disk := mkDisk ∅ ∅ ∅.

(** Five valid versions of launcher. *)
Definition five_versions : Disk :=
  mkDisk
    (list_to_map [("1.0.0", ExeRunnable); ("1.1.0", ExeRunnable);
                  ("1.2.0", ExeRunnable); ("1.3.0", ExeRunnable);
                  ("1.4.0", ExeRunnable)])
    ∅ ∅.

(** The directory of the running version does not pass the probe. *)
Definition running_broken : Disk :=
  mkDisk (list_to_map [("1.0.0", ExeBroken); ("1.1.0", ExeRunnable)]) ∅ ∅.

(** The running version is not a semantic version. *)
Definition running_unparsed : Disk :=
  mkDisk (list_to_map [("nightly", ExeRunnable); ("1.1.0", ExeRunnable)]) ∅ ∅.

(** A valid version, a name that is not a version, and a version whose
    executable does not run. *)
Definition with_invalid_versions : Disk :=
  mkDisk
    (list_to_map [("1.0.0", ExeRunnable); ("not-a-version", ExeRunnable);
                  ("1.1.0", ExeBroken)])
    ∅ ∅.

(** The mirror serves an archive whose executable does not run, with the
    metadata of that archive. *)
Definition corrupt_release : list byte := [x02; x02].
Definition serving_corrupt : Host :=
  host_with (λ _ _, Some (mkStream corrupt_release false)).
Definition meta_corrupt : TargetFileMeta :=
  mkMeta 2 {[ "sha256" := corrupt_release ]}.

(** An archive of osqueryd is left in the staging directory. *)
Definition leftover : Disk :=
  mkDisk ∅ ∅ {[ "osqueryd-5.0.0.tar.gz" := StagedFile [x01] ]}.

(** ** Further vocabulary: what the operations of the manager do *)

(** A computation all of whose events, from whatever disk, satisfy [P]. *)
Definition emits_only {A : Type} (P : Event → Prop) (m : M A) : Prop :=
  ∀ d e, e ∈ events_of (m d) → P e.

(** The steps of tidying for a binary: globbing the staging directory or
    the library of the binary, probing a version of that library, and
    removing a staged entry or a version of that library. *)
Definition is_tidy_event (binary : autoupdatableBinary) (e : Event) : Prop :=
  match e with
  | EvGlob StagingDir _ => True
  | EvGlob (UpdatesDir b) _ => b = binary
  | EvCheckExecutable (InLibrary b _) _ => b = binary
  | EvRemoveAll (InLibrary b _) _ => b = binary
  | EvRemoveAll (InStaging _) _ => True
  | _ => False
  end.

(** A valid entry of a library: the name is a version and the executable
    passes the probe. *)
Definition valid_entry `{Semver} (n : string) (e : Executable) : Prop :=
  e = ExeRunnable ∧ is_Some (NewVersion n).

(** ** Closing the manager *)

Section closing.

Context (h : Host).

(** [os.RemoveAll(ulm.stagingDir)] removes everything it can and returns
    the first error it meets: the entries that the host does not let go
    stay, and with them the directory.  The directory itself is
    [filepath.Join(stagingDir, "")], the location [InStaging ""]. *)
Definition os_RemoveAll_stagingDir : M error :=
  d ← get_disk;
  let remaining :=
    filter (λ p, RemoveAll_err h (InStaging p.1) = true) (staging d) in
  put_disk (set_staging remaining d) ;;
  if bool_decide (remaining = ∅) && negb (RemoveAll_err h (InStaging ""))
  then emit (EvRemoveAll (InStaging "") true) ;; mret nil
  else emit (EvRemoveAll (InStaging "") false) ;; mret (errors_New "remove").

(** [Close] cleans up the temporary staging directory.  The loop takes the
    lock of every binary and defers its release: the deferred calls run
    when [Close] returns, the last one first. *)
Definition Close : M error :=
  for_range binaries Lock ;;
  err ← os_RemoveAll_stagingDir;
  for_range (reverse binaries) Unlock ;;
  if negb (is_nil err)
  then mret (fmt_Errorf "could not remove staging dir" err)
  else mret nil.

End closing.

(** ** The wix packaging tool *)

(** The first half of [pkg/packagekit/wix/wix.go]: the tool that drives
    wix's [heat], [candle] and [light] to build an MSI.

    Everything outside the Go code (the environment, the file system, the
    programs that are run, the methods of a [*Service]) is a [World] that
    is threaded through the calls: a call reads its answer from the
    [Sys] record and may change the world.  A computation collects the
    calls it makes, in order. *)

Module wix.

(** A [*Service].  The type is declared in a file of the package that is
    not part of the sources at hand; the tool only holds the pointers and
    calls the methods [Match] and [Xml] on them. *)
Inductive Service : Type := service_at (addr : nat).

Record extraFile : Type := mkExtraFile {
  Name : string;
  Content : list byte;
}.

(** [wixTool]; the field [execCC], a hook for tests, is always
    [exec.CommandContext] in a tool made by [New]. *)
Record wixTool : Type := mkWixTool {
  wixPath : string;
  packageRoot : string;
  buildDir : string;
  msArch : string;
  services : list Service;
  dockerImage : string;
  skipValidation : bool;
  skipCleanup : bool;
  cleanDirs : list string;
  ui : bool;
  extraFiles : list extraFile;
}.

Definition set_wixPath (v : string) (wo : wixTool) : wixTool :=
  mkWixTool v (packageRoot wo) (buildDir wo) (msArch wo) (services wo)
    (dockerImage wo) (skipValidation wo) (skipCleanup wo) (cleanDirs wo)
    (ui wo) (extraFiles wo).

Definition set_buildDir (v : string) (wo : wixTool) : wixTool :=
  mkWixTool (wixPath wo) (packageRoot wo) v (msArch wo) (services wo)
    (dockerImage wo) (skipValidation wo) (skipCleanup wo) (cleanDirs wo)
    (ui wo) (extraFiles wo).

Definition set_msArch (v : string) (wo : wixTool) : wixTool :=
  mkWixTool (wixPath wo) (packageRoot wo) (buildDir wo) v (services wo)
    (dockerImage wo) (skipValidation wo) (skipCleanup wo) (cleanDirs wo)
    (ui wo) (extraFiles wo).

Definition set_services (v : list Service) (wo : wixTool) : wixTool :=
  mkWixTool (wixPath wo) (packageRoot wo) (buildDir wo) (msArch wo) v
    (dockerImage wo) (skipValidation wo) (skipCleanup wo) (cleanDirs wo)
    (ui wo) (extraFiles wo).

Definition set_dockerImage (v : string) (wo : wixTool) : wixTool :=
  mkWixTool (wixPath wo) (packageRoot wo) (buildDir wo) (msArch wo)
    (services wo) v (skipValidation wo) (skipCleanup wo) (cleanDirs wo)
    (ui wo) (extraFiles wo).

Definition set_skipValidation (v : bool) (wo : wixTool) : wixTool :=
  mkWixTool (wixPath wo) (packageRoot wo) (buildDir wo) (msArch wo)
    (services wo) (dockerImage wo) v (skipCleanup wo) (cleanDirs wo)
    (ui wo) (extraFiles wo).

Definition set_skipCleanup (v : bool) (wo : wixTool) : wixTool :=
  mkWixTool (wixPath wo) (packageRoot wo) (buildDir wo) (msArch wo)
    (services wo) (dockerImage wo) (skipValidation wo) v (cleanDirs wo)
    (ui wo) (extraFiles wo).

Definition set_cleanDirs (v : list string) (wo : wixTool) : wixTool :=
  mkWixTool (wixPath wo) (packageRoot wo) (buildDir wo) (msArch wo)
    (services wo) (dockerImage wo) (skipValidation wo) (skipCleanup wo) v
    (ui wo) (extraFiles wo).

Definition set_ui (v : bool) (wo : wixTool) : wixTool :=
  mkWixTool (wixPath wo) (packageRoot wo) (buildDir wo) (msArch wo)
    (services wo) (dockerImage wo) (skipValidation wo) (skipCleanup wo)
    (cleanDirs wo) v (extraFiles wo).

Definition set_extraFiles (v : list extraFile) (wo : wixTool) : wixTool :=
  mkWixTool (wixPath wo) (packageRoot wo) (buildDir wo) (msArch wo)
    (services wo) (dockerImage wo) (skipValidation wo) (skipCleanup wo)
    (cleanDirs wo) (ui wo) v.

(** [WixOpt], a function on a pointer to the tool: an option changes the
    tool in place. *)
Definition WixOpt : Type := wixTool → wixTool.

Definition As64bit : WixOpt := set_msArch "x64".
Definition As32bit : WixOpt := set_msArch "x86".
Definition SkipValidation : WixOpt := set_skipValidation true.
Definition WithWix (path : string) : WixOpt := set_wixPath path.
Definition WithService (service : Service) : WixOpt :=
  λ wo, set_services (services wo ++ [service]) wo.
Definition WithBuildDir (path : string) : WixOpt := set_buildDir path.
Definition WithDocker (image : string) : WixOpt := set_dockerImage image.
Definition WithUI : WixOpt := set_ui true.
Definition WithFile (name : string) (content : list byte) : WixOpt :=
  λ wo, set_extraFiles (extraFiles wo ++ [mkExtraFile name content]) wo.
Definition SkipCleanup : WixOpt := set_skipCleanup true.

(** The options the package provides.  The fields of [wixTool] are not
    exported, so that code outside the package has no other options. *)
Inductive provided : WixOpt → Prop :=
  | provided_As64bit : provided As64bit
  | provided_As32bit : provided As32bit
  | provided_SkipValidation : provided SkipValidation
  | provided_WithWix path : provided (WithWix path)
  | provided_WithService service : provided (WithService service)
  | provided_WithBuildDir path : provided (WithBuildDir path)
  | provided_WithDocker image : provided (WithDocker image)
  | provided_WithUI : provided WithUI
  | provided_WithFile name content : provided (WithFile name content)
  | provided_SkipCleanup : provided SkipCleanup.

(** The tool as [New] has it once the options are applied, for the
    path that [FindWixInstall] returned. *)
Definition configured (wixInstall packageRoot : string) (wixOpts : list WixOpt)
    : wixTool :=
  foldl (λ wo (opt : WixOpt), opt wo)
    (mkWixTool wixInstall packageRoot "" "" [] "" false false [] false [])
    wixOpts.

(** An [*exec.Cmd] as the tool sets it up: the program, its arguments
    and the working directory. *)
Record Command : Type := mkCommand {
  Path : string;
  Args : list string;
  Dir : string;
}.

(** The calls the tool makes, with what they answered. *)
Inductive Call : Type :=
  | CallGetenv (key : string)
  | CallStat (path : string)
  | CallMkdirTemp (pattern : string) (made : option string)
  | CallWriteFile (path : string) (content : list byte) (ok : bool)
  | CallRemoveAll (path : string)
  | CallRun (cmd : Command) (ok : bool)
  | CallReadFile (path : string) (content : option string)
  | CallCreate (path : string) (ok : bool)
  | CallWriteString (path : string) (s : string)
  | CallClose (path : string)
  | CallMatch (service : Service) (line : string) (isMatch : option bool)
  | CallXml (service : Service) (path : string) (ok : bool).

(** What the world answers.  An [option] is [None] for an error, a
    [bool] says whether the call succeeded. *)
Record Sys (World : Type) : Type := mkSys {
  sys_Getenv : string → World → string;
  sys_Stat : string → World → helpers_windows.stat_return;
  sys_MkdirTemp : string → World → option string * World;
  sys_WriteFile : string → list byte → World → bool * World;
  sys_RemoveAll : string → World → World;
  (** [cmd.Run()]: the standard output, or an error. *)
  sys_Run : Command → World → option string * World;
  sys_ReadFile : string → World → option string;
  sys_Create : string → World → bool * World;
  sys_WriteString : string → string → World → World;
  sys_Close : string → World → World;
  (** [service.Match(line)]: [None] when it returns an error. *)
  sys_Match : Service → string → World → option bool * World;
  (** [service.Xml(w)], writing to the file at [path]. *)
  sys_Xml : Service → string → World → bool * World;
  (** [runtime.GOARCH] *)
  sys_GOARCH : string;
  filepath_Join : string → string → string;
  strings_TrimSpace : string → string;
}.
Arguments sys_Getenv {World} s.
Arguments sys_Stat {World} s.
Arguments sys_MkdirTemp {World} s.
Arguments sys_WriteFile {World} s.
Arguments sys_RemoveAll {World} s.
Arguments sys_Run {World} s.
Arguments sys_ReadFile {World} s.
Arguments sys_Create {World} s.
Arguments sys_WriteString {World} s.
Arguments sys_Close {World} s.
Arguments sys_Match {World} s.
Arguments sys_Xml {World} s.
Arguments sys_GOARCH {World} s.
Arguments filepath_Join {World} s.
Arguments strings_TrimSpace {World} s.

(** A computation takes the world and returns its result, the world it
    leaves and the calls it made. *)
Definition IO (World A : Type) : Type := World → A * World * list Call.

#[global] Instance IO_ret {World} : MRet (IO World) := λ A a w, (a, w, []).

#[global] Instance IO_bind {World} : MBind (IO World) := λ A B f m w,
  let '(a, w1, t1) := m w in
  let '(b, w2, t2) := f a w1 in
  (b, w2, t1 ++ t2).

Definition value_of {World A} (r : A * World * list Call) : A := r.1.1.
Definition world_of {World A} (r : A * World * list Call) : World := r.1.2.
Definition calls_of {World A} (r : A * World * list Call) : list Call := r.2.

(** [strings.Split(s, sep)] for a separator of one byte: the pieces of
    [s] between the separators, [n + 1] pieces for [n] separators. *)
Fixpoint strings_Split (s : string) (sep : ascii) : list string :=
  match s with
  | EmptyString => [EmptyString]
  | String c s' =>
      if Ascii.eqb c sep then EmptyString :: strings_Split s' sep
      else
        match strings_Split s' sep with
        | piece :: pieces => String c piece :: pieces
        | [] => [String c EmptyString]
        end
  end.

(** The line feed, and the Go string ["\n"]. *)
Definition LF : ascii := "010"%char.
Definition newline : string := String LF EmptyString.

(** The lines [ls], each followed by a line feed. *)
Fixpoint unlines (ls : list string) : string :=
  match ls with
  | [] => EmptyString
  | l :: ls' => l +:+ newline +:+ unlines ls'
  end.

(** The text that the calls [t] pass to [WriteString] on the file at
    [path], in order. *)
Fixpoint written (path : string) (t : list Call) : string :=
  match t with
  | [] => EmptyString
  | CallWriteString p s :: t' =>
      if String.eqb p path then s +:+ written path t' else written path t'
  | _ :: t' => written path t'
  end.



(** The commands that the calls [t] run, in order, with their outcome. *)
Fixpoint commands_run (t : list Call) : list (Command * bool) :=
  match t with
  | [] => []
  | CallRun cmd ok :: t' => (cmd, ok) :: commands_run t'
  | _ :: t' => commands_run t'
  end.

(** The directories that the calls [t] remove, in order. *)
Fixpoint removed (t : list Call) : list string :=
  match t with
  | [] => []
  | CallRemoveAll path :: t' => path :: removed t'
  | _ :: t' => removed t'
  end.

(** The files that the calls [t] write with [os.WriteFile], in order. *)
Fixpoint files_written (t : list Call) : list (string * list byte) :=
  match t with
  | [] => []
  | CallWriteFile path content true :: t' => (path, content) :: files_written t'
  | _ :: t' => files_written t'
  end.

Section tool.

Context {World : Type} (sys : Sys World).

Definition os_Getenv (key : string) : IO World string :=
  λ w, (sys_Getenv sys key w, w, [CallGetenv key]).

Definition os_Stat (path : string) : IO World helpers_windows.stat_return :=
  λ w, (sys_Stat sys path w, w, [CallStat path]).

Definition os_MkdirTemp (pattern : string) : IO World (option string) :=
  λ w, let '(made, w') := sys_MkdirTemp sys pattern w in
       (made, w', [CallMkdirTemp pattern made]).

Definition os_WriteFile (path : string) (content : list byte) : IO World bool :=
  λ w, let '(ok, w') := sys_WriteFile sys path content w in
       (ok, w', [CallWriteFile path content ok]).

Definition os_RemoveAll (path : string) : IO World unit :=
  λ w, (tt, sys_RemoveAll sys path w, [CallRemoveAll path]).

Definition cmd_Run (cmd : Command) : IO World (option string) :=
  λ w, let '(out, w') := sys_Run sys cmd w in
       (out, w', [CallRun cmd (bool_decide (is_Some out))]).

Definition os_ReadFile (path : string) : IO World (option string) :=
  λ w, (sys_ReadFile sys path w, w, [CallReadFile path (sys_ReadFile sys path w)]).

Definition os_Create (path : string) : IO World bool :=
  λ w, let '(ok, w') := sys_Create sys path w in (ok, w', [CallCreate path ok]).

Definition File_WriteString (path : string) (s : string) : IO World unit :=
  λ w, (tt, sys_WriteString sys path s w, [CallWriteString path s]).

Definition File_Close (path : string) : IO World unit :=
  λ w, (tt, sys_Close sys path w, [CallClose path]).

Definition Service_Match (service : Service) (line : string) : IO World (option bool) :=
  λ w, let '(isMatch, w') := sys_Match sys service line w in
       (isMatch, w', [CallMatch service line isMatch]).

Definition Service_Xml (service : Service) (path : string) : IO World bool :=
  λ w, let '(ok, w') := sys_Xml sys service path w in
       (ok, w', [CallXml service path ok]).

(** [isDirectory].  The second test calls the method [IsDir] on [dStat]:
    on a nil [FileInfo] that call is a nil dereference. *)
Definition isDirectory (d : string) : IO World (outcome error) :=
  r ← os_Stat d;
  let dStat := helpers_windows.stat_info r in
  let err := helpers_windows.stat_err r in
  if helpers_windows.os_IsNotExist err then
    mret (Returns (fmt_Errorf "missing packageRoot" (errors_New "stat")))
  else
    match dStat with
    | None => mret (Panics "invalid memory address or nil pointer dereference")
    | Some dStat =>
        if negb (helpers_windows.IsDir dStat) then
          mret (Returns (errors_New "packageRoot isn't a directory"))
        else mret (Returns nil)
    end.

(** [FindWixInstall] returns the path wix will be executed from: the
    directory named by the environment, or the one place searched. *)
Definition FindWixInstall : IO World (outcome string) :=
  p ← os_Getenv "WIX";
  if negb (String.eqb (p : string) "") then mret (Returns (p +:+ "\bin"))
  else
    r ← isDirectory "C:\wix311";
    match r with
    | Panics why => mret (Panics why)
    | Returns err =>
        if is_nil err then mret (Returns "C:\wix311") else mret (Returns "")
    end.

(** The loop of [New] over the extra files: it stops at the first file
    that cannot be written. *)
Fixpoint writeExtraFiles (dir : string) (efs : list extraFile) : IO World error :=
  match efs with
  | [] => mret nil
  | ef :: rest =>
      ok ← os_WriteFile (filepath_Join sys dir (Name ef)) (Content ef);
      if (ok : bool) then writeExtraFiles dir rest
      else mret (fmt_Errorf "writing extra file" (errors_New "write"))
  end.

(** [New] takes a [packageRoot] of files and the content of the main wix
    configuration, and returns a tool to build packages with, or nil and
    an error. *)
Definition New (packageRoot : string) (mainWxsContent : list byte)
    (wixOpts : list WixOpt) : IO World (outcome (option wixTool * error)) :=
  found ← FindWixInstall;
  match found with
  | Panics why => mret (Panics why)
  | Returns wixInstall =>
      let wo := mkWixTool wixInstall packageRoot "" "" [] "" false false [] false [] in
      let wo := foldl (λ wo (opt : WixOpt), opt wo) wo wixOpts in
      made ← (if String.eqb (buildDir wo) "" then
                made ← os_MkdirTemp "wix-build-dir";
                match made with
                | None => mret None
                | Some dir =>
                    mret (Some (set_cleanDirs (cleanDirs wo ++ [dir])
                                  (set_buildDir dir wo)))
                end
              else mret (Some wo));
      match made with
      | None =>
          mret (Returns (None, fmt_Errorf "making temp wix-build-dir"
                                 (errors_New "mkdirtemp")))
      | Some wo =>
          let arch :=
            if String.eqb (msArch wo) "" then
              if String.eqb (sys_GOARCH sys) "386" then Some "x86"
              else if String.eqb (sys_GOARCH sys) "amd64" then Some "x64"
              else None
            else Some (msArch wo) in
          match arch with
          | None => mret (Returns (None, errors_New "unknown arch for windows"))
          | Some arch =>
              let wo := set_msArch arch wo in
              err ← writeExtraFiles (buildDir wo) (extraFiles wo);
              if negb (is_nil err) then mret (Returns (None, err))
              else
                let mainWxsPath := filepath_Join sys (buildDir wo) "Installer.wxs" in
                ok ← os_WriteFile mainWxsPath mainWxsContent;
                if (ok : bool) then mret (Returns (Some wo, nil))
                else mret (Returns (None, fmt_Errorf "writing Installer.wxs"
                                            (errors_New "write")))
          end
      end
  end.

(** [for _, d := range l { f d }] *)
Fixpoint for_each {A : Type} (l : list A) (f : A → IO World unit) : IO World unit :=
  match l with
  | [] => mret tt
  | x :: l' => f x ;; for_each l' f
  end.

(** [Cleanup] removes the temporary directories. *)
Definition Cleanup (wo : wixTool) : IO World unit :=
  if skipCleanup wo then mret tt
  else for_each (cleanDirs wo) os_RemoveAll.

(** The command that [execOut] runs for a program and its arguments:
    the program itself, or [docker] running it under [wine] in the
    image, with the package root and the build directory mounted. *)
Definition execOut_command (wo : wixTool) (argv0 : string) (args : list string)
    : Command :=
  let dockerArgs :=
    ["run"; "--entrypoint"; "";
     "-v"; packageRoot wo +:+ ":" +:+ packageRoot wo;
     "-v"; buildDir wo +:+ ":" +:+ buildDir wo;
     "-w"; buildDir wo;
     dockerImage wo;
     "wine";
     argv0] ++ args in
  if negb (String.eqb (dockerImage wo) "")
  then mkCommand "docker" dockerArgs (buildDir wo)
  else mkCommand argv0 args (buildDir wo).

(** [execOut] runs the command in the build directory and returns its
    trimmed output. *)
Definition execOut (wo : wixTool) (argv0 : string) (args : list string)
    : IO World (string * error) :=
  out ← cmd_Run (execOut_command wo argv0 args);
  match out with
  | None => mret ("", fmt_Errorf "run command" (errors_New "exit"))
  | Some stdout => mret (strings_TrimSpace sys stdout, nil)
  end.

(** The loop of [addServices] over the services, for one line. *)
Fixpoint matchServices (heatFile line : string) (svcs : list Service) : IO World error :=
  match svcs with
  | [] => mret nil
  | service :: rest =>
      isMatch ← Service_Match service line;
      match isMatch with
      | None => mret (fmt_Errorf "match error" (errors_New "match"))
      | Some true =>
          ok ← Service_Xml service heatFile;
          if (ok : bool) then matchServices heatFile line rest
          else mret (fmt_Errorf "adding service" (errors_New "xml"))
      | Some false => matchServices heatFile line rest
      end
  end.

(** The loop of [addServices] over the lines. *)
Fixpoint rewriteLines (wo : wixTool) (heatFile : string) (lines : list string)
    : IO World error :=
  match lines with
  | [] => mret nil
  | line :: rest =>
      File_WriteString heatFile line ;;
      File_WriteString heatFile newline ;;
      err ← matchServices heatFile line (services wo);
      if negb (is_nil err) then mret err
      else rewriteLines wo heatFile rest
  end.

(** [addServices] adds the service definitions into the file that
    [heat] generated, after the lines they match.  The deferred [Close]
    covers every exit after the file is opened for writing. *)
Definition addServices (wo : wixTool) : IO World error :=
  if bool_decide (length (services wo) = 0) then mret nil
  else
    let heatFile := filepath_Join sys (buildDir wo) "AppFiles.wxs" in
    heatContent ← os_ReadFile heatFile;
    match heatContent with
    | None => mret (fmt_Errorf "reading AppFiles.wxs" (errors_New "read"))
    | Some heatContent =>
        ok ← os_Create heatFile;
        if negb (ok : bool) then
          mret (fmt_Errorf "opening AppFiles.wxs for writing" (errors_New "create"))
        else
          let lines := strings_Split heatContent LF in
          err ← rewriteLines wo heatFile lines;
          File_Close heatFile ;;
          mret err
    end.

Definition heat_args (wo : wixTool) : list string :=
  ["dir"; packageRoot wo; "-nologo"; "-gg"; "-g1"; "-srd"; "-sfrag"; "-ke";
   "-cg"; "AppFiles"; "-template"; "fragment"; "-dr"; "PROGDIR";
   "-var"; "var.SourceDir"; "-out"; "AppFiles.wxs"].

(** [heat] invokes wix's heat command. *)
Definition heat (wo : wixTool) : IO World error :=
  '(_, err) ← execOut wo (filepath_Join sys (wixPath wo) "heat.exe") (heat_args wo);
  mret err.

Definition candle_args (wo : wixTool) : list string :=
  ["-nologo"; "-arch"; msArch wo; "-dSourceDir=" +:+ packageRoot wo;
   "-ext"; "WixUtilExtension"; "Installer.wxs"; "AppFiles.wxs"].

(** [candle] invokes wix's candle command, the compiler. *)
Definition candle (wo : wixTool) : IO World error :=
  '(_, err) ← execOut wo (filepath_Join sys (wixPath wo) "candle.exe") (candle_args wo);
  mret err.

Definition light_args (wo : wixTool) : list string :=
  let args :=
    ["-nologo"; "-dcl:high"; "-dSourceDir=" +:+ packageRoot wo;
     "-ext"; "WixUtilExtension"; "AppFiles.wixobj"; "Installer.wixobj";
     "-out"; "out.msi"] in
  let args := if ui wo then args ++ ["-ext"; "WixUIExtension"] else args in
  let args := if skipValidation wo then args ++ ["-sval"] else args in
  args.

(** [light] invokes wix's light command, the linker. *)
Definition light (wo : wixTool) : IO World error :=
  '(_, err) ← execOut wo (filepath_Join sys (wixPath wo) "light.exe") (light_args wo);
  mret err.

(** [Package] runs through the wix steps to produce a package, and
    returns the path of the package. *)
Definition Package (wo : wixTool) : IO World (string * error) :=
  err ← heat wo;
  if negb (is_nil err) then mret ("", fmt_Errorf "running heat" err)
  else
    err ← addServices wo;
    if negb (is_nil err) then mret ("", fmt_Errorf "adding services" err)
    else
      err ← candle wo;
      if negb (is_nil err) then mret ("", fmt_Errorf "running candle" err)
      else
        err ← light wo;
        if negb (is_nil err) then mret ("", fmt_Errorf "running light" err)
        else mret (filepath_Join sys (buildDir wo) "out.msi", nil).

(** The commands of the three wix programs, as [Package] has them run. *)
Definition tool_commands (wo : wixTool) : list Command :=
  [execOut_command wo (filepath_Join sys (wixPath wo) "heat.exe") (heat_args wo);
   execOut_command wo (filepath_Join sys (wixPath wo) "candle.exe") (candle_args wo);
   execOut_command wo (filepath_Join sys (wixPath wo) "light.exe") (light_args wo)].

End tool.

End wix.

(** ** Publishing results over gRPC *)

(** The conversion of a collection of query results to and from its
    protobuf form (package [service], in the middle of
    [pkg/packagekit/wix/wix.go]).  A slice is a list, so that a nil slice
    and an empty one are the same; a Go map with string keys is a finite
    map; a pointer to a protobuf message is an [option], [None] for nil. *)

Module service.













Section encoding.

(** The order in which [range] goes through a map is not specified: it
    is some enumeration of the entries, which may differ from one loop to
    the next.  [range_map i j row] is the order taken for row [j] of
    result [i]. *)
Context (range_map : nat → nat → gmap string string → list (string * string)).





End encoding.




End service.

(** ** A world and inputs for the examples of the tool and of the conversion *)

(** A world in which every call succeeds: [WIX] is set, the temporary
    directory is [/tmp/wix-build-dir1], and the machine is an amd64. *)
Definition toy_sys : wix.Sys unit :=
  wix.mkSys unit
    (λ _ _, "C:\wix")
    (λ _ _, helpers_windows.StatErr helpers_windows.ErrNotExist)
    (λ _ w, (Some "/tmp/wix-build-dir1", w))
    (λ _ _ w, (true, w))
    (λ _ w, w)
    (λ _ w, (Some "", w))
    (λ _ _, Some "<Wix/>")
    (λ _ w, (true, w))
    (λ _ _ w, w)
    (λ _ w, w)
    (λ _ _ w, (Some false, w))
    (λ _ _ w, (true, w))
    "amd64"
    (λ dir name, dir +:+ "/" +:+ name)
    (λ s, s).

Definition toy_opts : list wix.WixOpt :=
  [wix.WithUI; wix.SkipValidation; wix.WithFile "extra.txt" [x01]].

(** The tool that [New] makes of these options in that world. *)
Definition toy_tool : wix.wixTool :=
  wix.mkWixTool "C:\wix\bin" "C:\root" "/tmp/wix-build-dir1" "x64" [] ""
    true false ["/tmp/wix-build-dir1"] true [wix.mkExtraFile "extra.txt" [x01]].



(** An archive of launcher 1.2.0 is staged. *)
Definition staged_release : Disk :=
  mkDisk ∅ ∅ {[ "launcher-1.2.0.tar.gz" := StagedFile release ]}.

(** A host on which no directory can be globbed. *)
Definition glob_fails : Host :=
  mkHost (λ _ _, None) toy_hash toy_untar
    (λ _, true) (λ _, false) (λ _, false) (λ _, false) (λ _, false)
    (λ _, false) (λ _, false) (λ _ _, false).

(** * Properties *)

(** ** Running computations *)

Lemma run_bind {A B} (m : M A) (f : A → M B) (d d1 : Disk) a t1 :
  m d = (a, d1, t1) →
  (m ≫= f) d = (result_of (f a d1), disk_of (f a d1), t1 ++ events_of (f a d1)).
Proof.
  intros Hm. unfold mbind, M_bind, result_of, disk_of, events_of.
  rewrite Hm. by destruct (f a d1) as [[b d2] t2].
Qed.

(** Unfolds the monad and the primitive steps, then computes. *)
Ltac run :=
  cbv [mbind M_bind mret M_ret emit get_disk put_disk Lock Unlock
       result_of disk_of events_of]; simpl.

Lemma run_ret {A} (a : A) (d : Disk) : (mret a : M A) d = (a, d, []).
Proof. done. Qed.

Lemma set_staging_id (d : Disk) : set_staging (staging d) d = d.
Proof. by destruct d. Qed.

Lemma set_updates_id (b : autoupdatableBinary) (d : Disk) :
  set_updates b (updatesDirectory b d) d = d.
Proof. by destruct b, d. Qed.

Lemma updatesDirectory_set_staging b m d :
  updatesDirectory b (set_staging m d) = updatesDirectory b d.
Proof. by destruct b. Qed.

Lemma updatesDirectory_set_updates b m d :
  updatesDirectory b (set_updates b m d) = m.
Proof. by destruct b. Qed.

Lemma updatesDirectory_set_updates_ne b b' m d :
  b' ≠ b → updatesDirectory b' (set_updates b m d) = updatesDirectory b' d.
Proof. by destruct b, b'. Qed.

Lemma staging_set_updates b m d : staging (set_updates b m d) = staging d.
Proof. by destruct b. Qed.

Lemma set_staging_set_staging m m' d :
  set_staging m (set_staging m' d) = set_staging m d.
Proof. done. Qed.

Lemma set_updates_set_updates b m m' d :
  set_updates b m (set_updates b m' d) = set_updates b m d.
Proof. by destruct b. Qed.

(** ** The purge of the staging directory *)

Section purge.

Context (h : Host).

Lemma remove_names_lookup names m k :
  remove_names h names m !! k =
  if bool_decide (k ∈ names ∧ RemoveAll_err h (InStaging k) = false)
  then None else m !! k.
Proof.
  revert m. induction names as [|n names IH]; intros m; simpl; [done|].
  rewrite IH.
  destruct (decide (k = n)) as [->|Hne].
  - destruct (RemoveAll_err h (InStaging n)) eqn:Hn.
    + rewrite !bool_decide_eq_false_2; [done| |]; intros [_ ?]; congruence.
    + rewrite lookup_delete_eq.
      rewrite (bool_decide_eq_true_2 (n ∈ n :: names ∧ _)); [|split; [by left|done]].
      by case_bool_decide.
  - assert (m !! k = (if RemoveAll_err h (InStaging n) then m else delete n m) !! k)
      as <-.
    { destruct (RemoveAll_err h (InStaging n)); [done|].
      by rewrite lookup_delete_ne. }
    rewrite (bool_decide_ext (k ∈ names ∧ RemoveAll_err h (InStaging k) = false)
               (k ∈ n :: names ∧ RemoveAll_err h (InStaging k) = false));
      [done|rewrite elem_of_cons; tauto].
Qed.

Lemma os_RemoveAll_staging n d :
  os_RemoveAll h (InStaging n) d =
  (if RemoveAll_err h (InStaging n) then errors_New "remove" else nil,
   set_staging (remove_names h [n] (staging d)) d,
   [EvRemoveAll (InStaging n) (negb (RemoveAll_err h (InStaging n)))]).
Proof.
  unfold os_RemoveAll, remove_names. simpl.
  destruct (RemoveAll_err h (InStaging n)); run; [|done].
  by rewrite set_staging_id.
Qed.

Lemma for_range_remove_staging names d :
  for_range names (λ name, _ ← os_RemoveAll h (InStaging name); mret tt) d =
  (tt, set_staging (remove_names h names (staging d)) d,
   (λ n, EvRemoveAll (InStaging n) (negb (RemoveAll_err h (InStaging n))))
     <$> names).
Proof.
  revert d. induction names as [|n names IH]; intros d.
  - simpl. by rewrite set_staging_id.
  - cbn [for_range].
    erewrite run_bind; [|erewrite run_bind; [|apply os_RemoveAll_staging]; done].
    rewrite IH. by run.
Qed.

Lemma remove_names_all (m : gmap string Staged) :
  remove_names h (map_to_list m).*1 m =
  filter (λ p, RemoveAll_err h (InStaging p.1) = true) m.
Proof.
  apply map_eq. intros k. rewrite remove_names_lookup.
  apply option_eq. intros x. rewrite map_lookup_filter_Some. simpl.
  case_bool_decide as Hk.
  - destruct Hk as [_ Hk]. split; [done|]. intros [_ ?]. congruence.
  - split; [|by intros [? _]].
    intros Hx. split; [done|].
    destruct (RemoveAll_err h (InStaging k)) eqn:He; [done|].
    exfalso. apply Hk. split; [|done].
    apply list_elem_of_fmap. exists (k, x). split; [done|].
    by apply elem_of_map_to_list.
Qed.

(** A purge, in closed form: its argument plays no part. *)
Lemma tidyStagedUpdates_run binary d :
  tidyStagedUpdates h binary d =
  (tt, set_staging (purge_staging h (staging d)) d, purge_events h (staging d)).
Proof.
  unfold tidyStagedUpdates, filepath_Glob, purge_staging, purge_events.
  destruct (Glob_err h StagingDir); run.
  - by rewrite set_staging_id.
  - rewrite for_range_remove_staging. run. by rewrite remove_names_all.
Qed.

Lemma purge_staging_reliable (m : gmap string Staged) :
  removes_reliably h → purge_staging h m = ∅.
Proof.
  intros [Hg Hr]. unfold purge_staging. rewrite Hg.
  apply map_eq. intros k. rewrite lookup_empty.
  apply map_lookup_filter_None. right. intros x _. simpl. by rewrite Hr.
Qed.

Lemma purge_events_not_lock (m : gmap string Staged) e :
  e ∈ purge_events h m → ¬ is_lock_event e.
Proof.
  unfold purge_events. destruct (Glob_err h StagingDir).
  - intros ->%list_elem_of_singleton. simpl. tauto.
  - intros [->|(n & -> & _)%list_elem_of_fmap]%elem_of_cons; simpl; tauto.
Qed.

End purge.

(** ** Tidying without a running version *)

(** C9. With the empty string as the running version, [TidyLibrary] purges
    the staging directory and does nothing else: the libraries of both
    binaries are as before, and between taking and releasing the lock the
    only events are those of the purge (no glob of the library, no probe,
    no removal of a version). *)
Theorem TidyLibrary_without_running_version `{Sorter}
    (h : Host) (binary : autoupdatableBinary) (d : Disk) :
  let r := TidyLibrary h binary "" d in
  launcher_updates (disk_of r) = launcher_updates d
  ∧ osqueryd_updates (disk_of r) = osqueryd_updates d
  ∧ staging (disk_of r) = purge_staging h (staging d)
  ∧ events_of r = EvLock binary :: purge_events h (staging d) ++ [EvUnlock binary].
Proof.
  unfold TidyLibrary.
  erewrite run_bind; [|reflexivity].
  erewrite run_bind; [|apply tidyStagedUpdates_run].
  by run.
Qed.

(** ** Adding to the library *)

Arguments versionFromTarget : simpl never.

Section adding.

Context (h : Host).

(** [AddToLibrary] in closed form: the two early returns, and the
    guarded update followed by the purge. *)
Lemma AddToLibrary_run binary currentVersion targetFilename targetMetadata d :
  let v := versionFromTarget binary targetFilename in
  AddToLibrary h binary currentVersion targetFilename targetMetadata d =
  if String.eqb currentVersion v then
    (nil, d, [EvLock binary; EvUnlock binary])
  else if bool_decide (executableLocation (InLibrary binary v) d = ExeRunnable) then
    (nil, d,
     [EvLock binary; EvCheckExecutable (InLibrary binary v) true; EvUnlock binary])
  else
    let r := stageThenMove h binary targetFilename targetMetadata d in
    (result_of r,
     set_staging (purge_staging h (staging (disk_of r))) (disk_of r),
     EvLock binary :: EvCheckExecutable (InLibrary binary v) false ::
       events_of r ++ purge_events h (staging (disk_of r)) ++ [EvUnlock binary]).
Proof.
  intros v. unfold AddToLibrary. fold v.
  erewrite run_bind; [|reflexivity].
  destruct (String.eqb currentVersion v) eqn:Hcur; [by run|].
  unfold Available, pathToTargetVersionExecutable, CheckExecutable. fold v.
  fold (stageThenMove h binary targetFilename targetMetadata).
  case_bool_decide as Hexe; simpl in Hexe.
  - run. rewrite Hexe. by run.
  - run.
    destruct (default ExeMissing (updatesDirectory binary d !! v)) eqn:He;
      [| |done]; run;
      destruct (stageThenMove h binary targetFilename targetMetadata d)
        as [[ret d1] t1];
      rewrite tidyStagedUpdates_run; run;
      by rewrite <- !app_assoc.
Qed.

End adding.

(** Case analysis along the branches of a computation: unfold the monad,
    compute, simplify the lookups of what was just written, and split on
    the next scrutinee. *)
Ltac crunch_simpl :=
  run;
  rewrite ?lookup_insert_eq, ?lookup_delete_eq, ?updatesDirectory_set_staging,
    ?updatesDirectory_set_updates, ?staging_set_updates;
  repeat match goal with
         | H : context [<[?k:=_]> _ !! ?k] |- _ => rewrite lookup_insert_eq in H
         | H : context [delete ?k _ !! ?k] |- _ => rewrite lookup_delete_eq in H
         end;
  simplify_eq/=.

Ltac crunch :=
  repeat (crunch_simpl; try done;
          match goal with
          | |- context [match ?x with _ => _ end] =>
              lazymatch x with
              | context [match _ with _ => _ end] => fail
              | _ => destruct x eqn:?
              end
          end);
  crunch_simpl.

(** Membership in an explicit list of events. *)
Ltac in_list H :=
  repeat (apply elem_of_cons in H as [H|H]; [try subst; try discriminate|]);
  try (by apply elem_of_nil in H).

Ltac not_in_list :=
  let H := fresh "Hin" in
  intros H; in_list H; try done.

Section moving.

Context (h : Host).

(** What [moveVerifiedUpdate] does: it leaves the library of the other
    binary alone, performs only steps on the staged directory of the
    version, and either returns nil, having renamed the directory right
    after a successful probe, or returns an error and leaves the library
    as it was. *)
Lemma moveVerifiedUpdate_spec b t p d :
  let v := versionFromTarget b t in
  let r := moveVerifiedUpdate h b t p d in
  (∀ b', b' ≠ b → updatesDirectory b' (disk_of r) = updatesDirectory b' d)
  ∧ (∀ e, e ∈ events_of r → is_move_event b v e = true)
  ∧ ((result_of r = nil
      ∧ updatesDirectory b (disk_of r) = <[v := ExeRunnable]> (updatesDirectory b d)
      ∧ ∃ removed, events_of r = move_events b v removed)
     ∨ (result_of r ≠ nil
        ∧ updatesDirectory b (disk_of r) = updatesDirectory b d
        ∧ EvRename b v true ∉ events_of r)).
Proof.
  intros v r. subst r. unfold moveVerifiedUpdate. fold v.
  unfold os_MkdirAll, fsutil_UntarBundle, os_Chmod, CheckExecutable, os_Rename,
    os_RemoveAll.
  crunch.
  all: split;
    [intros b' Hb';
     by rewrite ?updatesDirectory_set_staging, ?updatesDirectory_set_updates_ne,
       ?updatesDirectory_set_staging by done|].
  all: split;
    [intros e He; in_list He; simpl; by rewrite bool_decide_eq_true_2|].
  all: try (right; split; [done|split; [done|not_in_list]]).
  all: left; split; [done|]; split; [done|]; by eexists.
Qed.

End moving.

(** ** Target file names *)

Section string_facts.

Lemma append_nil (t : string) : "" +:+ t = t.
Proof. reflexivity. Qed.

Lemma append_cons (a : ascii) (p t : string) :
  String a p +:+ t = String a (p +:+ t).
Proof. reflexivity. Qed.

Lemma string_length_app (p t : string) :
  String.length (p +:+ t) = String.length p + String.length t.
Proof.
  induction p as [|a p IH]; [done|].
  rewrite append_cons. simpl. by rewrite IH.
Qed.

Lemma app_assoc_string (a b c : string) : (a +:+ b) +:+ c = a +:+ b +:+ c.
Proof.
  induction a as [|x a IH]; [done|].
  rewrite !append_cons. by rewrite IH.
Qed.

Lemma substring_0_all (t : string) :
  String.substring 0 (String.length t) t = t.
Proof. induction t as [|b t IHt]; simpl; [done|by rewrite IHt]. Qed.

Lemma substring_0_app (p t : string) :
  String.substring 0 (String.length p) (p +:+ t) = p.
Proof.
  induction p as [|a p IH].
  - rewrite append_nil. by destruct t.
  - rewrite append_cons. simpl. by rewrite IH.
Qed.

Lemma substring_skip_app (p t : string) :
  String.substring (String.length p) (String.length t) (p +:+ t) = t.
Proof.
  induction p as [|a p IH].
  - apply substring_0_all.
  - rewrite append_cons. simpl. apply IH.
Qed.

(** Trimming the prefix that was put in front gives back the rest,
    whatever the rest is. *)
Lemma TrimPrefix_app (p t : string) : strings.TrimPrefix (p +:+ t) p = t.
Proof.
  unfold strings.TrimPrefix, strings.HasPrefix.
  rewrite string_length_app, (substring_0_app p t), String.eqb_refl.
  replace (String.length p <=? String.length p + String.length t) with true
    by (symmetry; apply Nat.leb_le; lia).
  replace (String.length p + String.length t - String.length p)
    with (String.length t) by lia.
  apply substring_skip_app.
Qed.

(** Likewise for the suffix: only one copy of it is removed. *)
Lemma TrimSuffix_app (t q : string) : strings.TrimSuffix (t +:+ q) q = t.
Proof.
  unfold strings.TrimSuffix, strings.HasSuffix.
  rewrite string_length_app.
  replace (String.length t + String.length q - String.length q)
    with (String.length t) by lia.
  rewrite (substring_skip_app t q), String.eqb_refl, (substring_0_app t q).
  replace (String.length q <=? String.length t + String.length q) with true
    by (symmetry; apply Nat.leb_le; lia).
  done.
Qed.

End string_facts.

(** C7. Round trip of the target file name: for either binary and every
    version string [v] (in particular every well-formed semantic version),
    [versionFromTarget binary "{binary}-{v}.tar.gz"] is [v]. *)
Theorem versionFromTarget_roundtrip (binary : autoupdatableBinary) (v : string) :
  versionFromTarget binary (targetFor binary v) = v.
Proof.
  unfold versionFromTarget, targetFor.
  rewrite <- app_assoc_string, TrimPrefix_app.
  apply TrimSuffix_app.
Qed.

(** ** Verification against the metadata *)

Lemma filter_all {A} (P : A → Prop) `{!∀ x, Decision (P x)} (l : list A) :
  Forall P l → filter P l = l.
Proof.
  induction 1 as [|x l Hx _ IH]; [done|].
  rewrite filter_cons_True by done. by rewrite IH.
Qed.

Section verification.

Context (h : Host).

Lemma io_LimitReader_delivered body n :
  delivered (io_LimitReader body n) = take (Z.to_nat n) (delivered body).
Proof.
  unfold io_LimitReader. case_bool_decide as Hlt; [|done].
  rewrite take_ge; [done|lia].
Qed.

(** At most [n] bytes come out of a reader limited to [n]. *)
Lemma io_LimitReader_length body n :
  (Z.of_nat (length (delivered (io_LimitReader body n))) ≤ Z.max 0 n)%Z.
Proof. rewrite io_LimitReader_delivered, length_take. lia. Qed.

Lemma generated_hashes content algs hashers alg :
  mapM (λ a, (λ f, (a, f)) <$> hash_New h a) algs = Some hashers →
  (list_to_map ((λ '(a, f), (a, f content)) <$> hashers)
     : gmap string (list byte)) !! alg
  = if bool_decide (alg ∈ algs) then (λ f, f content) <$> hash_New h alg
    else None.
Proof.
  revert hashers. induction algs as [|a algs IH]; intros hashers Hm.
  - injection Hm as <-. done.
  - simpl in Hm.
    destruct (hash_New h a) as [f|] eqn:Hf; simplify_eq/=.
    destruct (mapM _ algs) as [ps|] eqn:Hps; simplify_eq/=.
    injection Hm as <-.
    specialize (IH _ eq_refl).
    change (list_to_map ((λ '(a0, f0), (a0, f0 content)) <$> (a, f) :: ps))
      with (<[a := f content]>
              (list_to_map ((λ '(a0, f0), (a0, f0 content)) <$> ps)
                 : gmap string (list byte))).
    destruct (decide (alg = a)) as [->|Hne].
    + rewrite lookup_insert_eq, bool_decide_eq_true_2 by (by left).
      by rewrite Hf.
    + rewrite lookup_insert_ne by done. rewrite IH.
      apply (f_equal (λ b : bool, if b then _ else _)).
      apply bool_decide_ext. rewrite elem_of_cons. tauto.
Qed.

(** The verification of the code succeeds exactly on a stream that ends
    without a read error and whose bytes hash to the metadata. *)
Lemma verifies_iff s meta :
  verifies h s meta = true ↔ read_err s = false ∧ hashes_to h (delivered s) meta.
Proof.
  unfold verifies, GenerateTargetFileMeta, hashes_to.
  destruct (mapM _ (HashAlgorithms meta)) as [hashers|] eqn:Hm.
  - pose proof (λ alg, generated_hashes (delivered s) _ _ alg Hm) as Hlk.
    assert (∀ alg dg, Hashes meta !! alg = Some dg → alg ∈ HashAlgorithms meta)
      as Hin.
    { intros alg dg Hd. unfold HashAlgorithms.
      apply list_elem_of_fmap. exists (alg, dg). split; [done|].
      by apply elem_of_map_to_list. }
    destruct (read_err s); simpl; [split; [done|by intros [? _]]|].
    unfold TargetFileMetaEqual; simpl.
    set (actual := list_to_map _) in *.
    assert (filter (λ p : string * list byte, is_Some (actual !! p.1))
              (map_to_list (Hashes meta)) = map_to_list (Hashes meta)) as ->.
    { apply filter_all, Forall_forall. intros [alg dg] Hp. simpl.
      apply elem_of_map_to_list in Hp.
      rewrite Hlk, bool_decide_eq_true_2 by eauto.
      assert (is_Some (mapM (λ a, (λ f, (a, f)) <$> hash_New h a)
                         (HashAlgorithms meta))) as Hs by (by rewrite Hm).
      apply mapM_is_Some, Forall_forall with (x := alg) in Hs; [|eauto].
      simpl in Hs. destruct (hash_New h alg); [by eexists|].
      by destruct Hs. }
    case_bool_decide as Hlen; simpl in Hlen |- *.
    { split; [done|]. intros [_ [? _]]. done. }
    case_bool_decide as Hex; simpl.
    { split; [done|]. intros [_ (_ & _ & Hall)].
      apply Exists_exists in Hex as ([alg dg] & Hp & Hw).
      apply elem_of_map_to_list in Hp. simpl in Hw.
      destruct (Hall _ _ Hp) as (f & Hf & <-).
      exfalso. apply Hw. rewrite Hlk, bool_decide_eq_true_2 by eauto.
      by rewrite Hf. }
    case_bool_decide as Hemp; simpl.
    { split; [done|]. intros [_ (_ & Hne & _)]. exfalso. apply Hne.
      by apply map_to_list_empty_iff. }
    split; [intros _|done].
    split; [done|]. split; [done|]. split.
    + intros Hm0. apply Hemp. by rewrite Hm0, map_to_list_empty.
    + intros alg dg Hd.
      rewrite <- Forall_Exists_neg, Forall_forall in Hex.
      specialize (Hex (alg, dg)). simpl in Hex.
      apply dec_stable in Hex; [|by apply elem_of_map_to_list].
      rewrite Hlk, bool_decide_eq_true_2 in Hex by eauto.
      destruct (hash_New h alg) as [f|]; simplify_eq/=. eauto.
  - simpl. split; [done|]. intros [_ (_ & _ & Hall)].
    assert (is_Some (mapM (λ a, (λ f, (a, f)) <$> hash_New h a)
                       (HashAlgorithms meta))) as Hs; [|by rewrite Hm in Hs; destruct Hs].
    apply mapM_is_Some, Forall_forall. intros alg Halg. simpl.
    unfold HashAlgorithms in Halg.
    apply list_elem_of_fmap in Halg as ([alg' dg] & -> & Hp).
    apply elem_of_map_to_list in Hp.
    destruct (Hall _ _ Hp) as (f & Hf & _). simpl. rewrite Hf. by eexists.
Qed.

End verification.

(** ** Staging and verifying *)

Section staging.

Context (h : Host).

Lemma GenerateTargetFileMeta_fed s algs actual fed :
  GenerateTargetFileMeta h s algs = (actual, fed) →
  (fed = delivered s ∨ (fed = [] ∧ actual = None))
  ∧ (is_Some actual → fed = delivered s).
Proof.
  unfold GenerateTargetFileMeta.
  destruct (mapM _ algs); [destruct (read_err s)|]; intros [= <- <-];
    split; eauto; by intros [? [=]].
Qed.

(** No answer from the mirror: an error, and nothing else happens. *)
Lemma stageAndVerifyUpdate_no_answer b t meta d :
  mirror_Get h b t = None →
  ∃ err, stageAndVerifyUpdate h b t meta d = ((t, err), d, [EvGet b t None])
         ∧ err ≠ nil.
Proof. intros Hget. unfold stageAndVerifyUpdate. rewrite Hget. by eexists. Qed.

(** An answer that does not verify: an error, the disk is untouched, and
    no file is created. *)
Lemma stageAndVerifyUpdate_rejected b t meta d body :
  mirror_Get h b t = Some body →
  verifies h (io_LimitReader body (Length meta)) meta = false →
  ∃ err fed evs,
    stageAndVerifyUpdate h b t meta d =
      ((t, err), d, EvGet b t (Some body) :: EvTee fed :: evs)
    ∧ err ≠ nil
    ∧ (fed = bounded body meta ∨ fed = [])
    ∧ (evs = [] ∨ evs = [EvVerify t false]).
Proof.
  intros Hget Hver. unfold stageAndVerifyUpdate, verifies in *. rewrite Hget.
  destruct (GenerateTargetFileMeta _ _ _) as [actual fed] eqn:Hgen.
  apply GenerateTargetFileMeta_fed in Hgen as [Hfed _].
  rewrite io_LimitReader_delivered in Hfed. fold (bounded body meta) in Hfed.
  simpl in Hver. destruct actual as [actual|]; run.
  - rewrite Hver. run. eexists _, _, _. split; [done|].
    split; [done|]. split; [|by right].
    destruct Hfed as [?|[? _]]; auto.
  - eexists _, _, _. split; [done|]. split; [done|]. split; [|by left].
    destruct Hfed as [?|[? _]]; auto.
Qed.

(** An answer that verifies: exactly the bounded bytes went through the
    tee, and they are what is written to the staged file. *)
Lemma stageAndVerifyUpdate_verified b t meta d body :
  mirror_Get h b t = Some body →
  verifies h (io_LimitReader body (Length meta)) meta = true →
  let fed := bounded body meta in
  ∃ p err d1 evs,
    stageAndVerifyUpdate h b t meta d =
      ((p, err), d1,
       EvGet b t (Some body) :: EvTee fed :: EvVerify t true :: evs)
    ∧ (∀ b', updatesDirectory b' d1 = updatesDirectory b' d)
    ∧ ((err = nil ∧ p = t
        ∧ staging d1 = <[t := StagedFile fed]> (staging d)
        ∧ evs = [EvCreate t true; EvCopy t fed true])
       ∨ (err ≠ nil
          ∧ (evs = [EvCreate t false]
             ∨ evs = [EvCreate t true; EvCopy t fed false]
             ∨ evs = [EvCreate t true; EvCopy t fed true]))).
Proof.
  intros Hget Hver fed. unfold stageAndVerifyUpdate, verifies in *. rewrite Hget.
  destruct (GenerateTargetFileMeta _ _ _) as [actual fed'] eqn:Hgen.
  apply GenerateTargetFileMeta_fed in Hgen as [_ Hfed].
  simpl in Hver. destruct actual as [actual|]; [|done].
  rewrite Hfed, io_LimitReader_delivered by done. fold fed.
  rewrite Hver.
  unfold os_Create, io_Copy, file_Close.
  crunch.
  all: eexists _, _, _, _; split; [done|].
  all: split; [intros b'; by rewrite ?updatesDirectory_set_staging|].
  all: try (right; split; [done|]; naive_solver).
  all: left; rewrite ?insert_insert_eq; done.
Qed.

End staging.

(** ** The guarded update: staging, then moving *)

Section guarded_update.

Context (h : Host).

Lemma stageThenMove_no_answer b t meta d :
  mirror_Get h b t = None →
  ∃ err, stageThenMove h b t meta d = (err, d, [EvGet b t None]) ∧ err ≠ nil.
Proof.
  intros Hget. unfold stageThenMove.
  destruct (stageAndVerifyUpdate_no_answer h b t meta d Hget) as (err & Hrun & Herr).
  erewrite run_bind by exact Hrun.
  destruct err; [done| |]; run; by eexists.
Qed.

Lemma stageThenMove_rejected b t meta d body :
  mirror_Get h b t = Some body →
  verifies h (io_LimitReader body (Length meta)) meta = false →
  ∃ err fed evs,
    stageThenMove h b t meta d =
      (err, d, EvGet b t (Some body) :: EvTee fed :: evs)
    ∧ err ≠ nil
    ∧ (fed = bounded body meta ∨ fed = [])
    ∧ (evs = [] ∨ evs = [EvVerify t false]).
Proof.
  intros Hget Hver. unfold stageThenMove.
  destruct (stageAndVerifyUpdate_rejected h b t meta d body Hget Hver)
    as (err & fed & evs & Hrun & Herr & Hfed & Hevs).
  erewrite run_bind by exact Hrun.
  destruct err; [done| |]; run; eexists _, fed, evs;
    by rewrite app_nil_r.
Qed.

Lemma stageThenMove_verified b t meta d body :
  mirror_Get h b t = Some body →
  verifies h (io_LimitReader body (Length meta)) meta = true →
  let fed := bounded body meta in
  let v := versionFromTarget b t in
  let r := stageThenMove h b t meta d in
  (∀ b', b' ≠ b → updatesDirectory b' (disk_of r) = updatesDirectory b' d)
  ∧ ((result_of r = nil
      ∧ updatesDirectory b (disk_of r)
        = <[v := ExeRunnable]> (updatesDirectory b d)
      ∧ ∃ removed, events_of r = install_events b t body fed removed)
     ∨ (result_of r ≠ nil
        ∧ updatesDirectory b (disk_of r) = updatesDirectory b d
        ∧ ∃ evs mvs,
            events_of r =
              EvGet b t (Some body) :: EvTee fed :: EvVerify t true :: evs ++ mvs
            ∧ (evs = [EvCreate t false]
               ∨ evs = [EvCreate t true; EvCopy t fed false]
               ∨ evs = [EvCreate t true; EvCopy t fed true])
            ∧ (∀ e, e ∈ mvs → is_move_event b v e = true)
            ∧ EvRename b v true ∉ mvs)).
Proof.
  intros Hget Hver fed v r. subst r. unfold stageThenMove.
  destruct (stageAndVerifyUpdate_verified h b t meta d body Hget Hver)
    as (p & err & d1 & evs & Hrun & Hframe & Hcases).
  fold fed in Hrun, Hcases.
  erewrite run_bind by exact Hrun.
  destruct Hcases as [(-> & -> & Hst & ->)|[Herr Hevs]].
  - simpl negb. cbv iota.
    pose proof (moveVerifiedUpdate_spec h b t t d1) as (Hother & Hmv & Hout).
    fold v in Hother, Hmv, Hout.
    destruct (moveVerifiedUpdate h b t t d1) as [[err d2] mvs] eqn:Hmove.
    unfold result_of, disk_of, events_of in Hother, Hmv, Hout. simpl in *.
    assert (∀ e' : error,
      (if negb (is_nil e')
       then mret (fmt_Errorf "could not move verified update" e')
       else mret nil : M error) d2
      = (if is_nil e' then nil
         else fmt_Errorf "could not move verified update" e', d2, []))
      as Hret by (by intros []).
    erewrite run_bind by exact Hmove. rewrite Hret. run.
    rewrite app_nil_r.
    split; [intros b' Hb'; by rewrite Hother, Hframe|].
    rewrite <- !Hframe.
    destruct Hout as [(-> & Hlib & [removed ->])|(Hne & Hlib & Hno)].
    + left. split; [done|]. split; [done|]. by exists removed.
    + right. split; [by destruct err|]. split; [done|].
      exists [EvCreate t true; EvCopy t fed true], mvs.
      split; [done|]. split; [by right; right|]. done.
  - split.
    { intros b' _. destruct err; [done| |]; run; apply Hframe. }
    right.
    destruct err; [done| |]; run; rewrite !app_nil_r.
    all: split; [done|]; split; [apply Hframe|].
    all: exists evs, []; rewrite app_nil_r.
    all: split; [done|]; split; [naive_solver|].
    all: split; [by intros e ?%elem_of_nil|by intros ?%elem_of_nil].
Qed.

End guarded_update.

(** ** Properties of [AddToLibrary] *)

(** The cases of a call of [AddToLibrary]: the running version is the
    target's, the target is available, or the guarded update runs, with an
    answer from the mirror that verifies, one that does not, or none. *)
Ltac add_cases h b cur t meta d :=
  rewrite (AddToLibrary_run h b cur t meta d); cbv zeta;
  destruct (String.eqb cur (versionFromTarget b t)) eqn:Hcur;
  [| case_bool_decide as Hav;
     [| destruct (mirror_Get h b t) as [body0|] eqn:Hget;
        [destruct (verifies h (io_LimitReader body0 (Length meta)) meta) eqn:Hver|]]].

(** A list has at most one decomposition around an element with a
    property that no element before or after it has. *)
Lemma split_at_unique {A} (P : A → Prop) (l1 l2 pre post : list A) (x e : A) :
  (∀ y, y ∈ l1 → ¬ P y) → (∀ y, y ∈ l2 → ¬ P y) → P e →
  l1 ++ x :: l2 = pre ++ e :: post → pre = l1 ∧ e = x.
Proof.
  intros H1 H2 He. revert pre.
  induction l1 as [|a l1 IH]; intros [|y pre] Heq; simpl in Heq;
    injection Heq as Hhd Htl; subst.
  - done.
  - exfalso. apply (H2 e); [|done]. apply elem_of_app. right. by left.
  - exfalso. apply (H1 e); [by left|done].
  - assert (∀ y, y ∈ l1 → ¬ P y) as H1' by (intros y0 Hy; apply H1; by right).
    by destruct (IH H1' pre Htl) as [-> ->].
Qed.

Section add_to_library.

Context (h : Host).

(** On the bounded stream of a response, the verification succeeds
    exactly when the bounded bytes hash to the metadata: a stream cut at
    the declared length has no read error left to meet. *)
Lemma verifies_bounded body meta :
  verifies h (io_LimitReader body (Length meta)) meta = true
  ↔ hashes_to h (bounded body meta) meta.
Proof.
  rewrite verifies_iff, io_LimitReader_delivered. fold (bounded body meta).
  split; [by intros [_ ?]|]. intros Hh. split; [|done].
  destruct Hh as [Hlen _]. unfold bounded in Hlen. rewrite length_take in Hlen.
  unfold io_LimitReader. case_bool_decide; [lia|done].
Qed.

Lemma purge_events_not_download (m : gmap string Staged) e :
  e ∈ purge_events h m → is_download e = false.
Proof.
  unfold purge_events. destruct (Glob_err h StagingDir).
  - by intros ->%list_elem_of_singleton.
  - by intros [->|(n & -> & _)%list_elem_of_fmap]%elem_of_cons.
Qed.

Lemma purge_events_shape (m : gmap string Staged) e :
  e ∈ purge_events h m →
  (∃ ok, e = EvGlob StagingDir ok) ∨ (∃ n ok, e = EvRemoveAll (InStaging n) ok).
Proof.
  unfold purge_events. destruct (Glob_err h StagingDir).
  - intros ->%list_elem_of_singleton. left. by eexists.
  - intros [->|(n & -> & _)%list_elem_of_fmap]%elem_of_cons.
    + left. by eexists.
    + right. by eexists _, _.
Qed.



Lemma downloads_app (l1 l2 : list Event) :
  downloads (l1 ++ l2) = downloads l1 + downloads l2.
Proof. unfold downloads. by rewrite filter_app, length_app. Qed.

Lemma downloads_none (l : list Event) :
  (∀ e, e ∈ l → is_download e = false) → downloads l = 0.
Proof.
  unfold downloads. induction l as [|e l IH]; intros Hl; [done|].
  rewrite filter_cons_False.
  - apply IH. intros e' He'. apply Hl. by right.
  - rewrite (Hl e) by left. by intros [].
Qed.

Lemma move_event_not_download b v e :
  is_move_event b v e = true → is_download e = false.
Proof. by destruct e. Qed.

Lemma purge_events_not_install (m : gmap string Staged) e :
  e ∈ purge_events h m → ¬ is_install e.
Proof. intros [[ok ->]|(n & ok & ->)]%purge_events_shape; by intros []. Qed.

(** The outcomes of a call of [AddToLibrary]: the two early returns, a
    failed update, which leaves the library as it was, and an installed
    update, whose events are those of [install_events] between the probe
    of the library and the purge. *)
Lemma AddToLibrary_outcomes binary currentVersion t meta d :
  let v := versionFromTarget binary t in
  let r := AddToLibrary h binary currentVersion t meta d in
  (∀ b', b' ≠ binary → updatesDirectory b' (disk_of r) = updatesDirectory b' d)
  ∧ ((currentVersion = v ∧ r = (nil, d, [EvLock binary; EvUnlock binary]))
     ∨ (currentVersion ≠ v
        ∧ executableLocation (InLibrary binary v) d = ExeRunnable
        ∧ r = (nil, d, [EvLock binary;
                        EvCheckExecutable (InLibrary binary v) true;
                        EvUnlock binary]))
     ∨ (currentVersion ≠ v
        ∧ executableLocation (InLibrary binary v) d ≠ ExeRunnable
        ∧ result_of r ≠ nil
        ∧ updatesDirectory binary (disk_of r) = updatesDirectory binary d
        ∧ (∀ e, e ∈ events_of r → ¬ is_install e)
        ∧ (EvCheckExecutable (InLibrary binary v) true ∉ events_of r)
        ∧ downloads (events_of r) = 1)
     ∨ (currentVersion ≠ v
        ∧ executableLocation (InLibrary binary v) d ≠ ExeRunnable
        ∧ result_of r = nil
        ∧ updatesDirectory binary (disk_of r)
          = <[v := ExeRunnable]> (updatesDirectory binary d)
        ∧ ∃ body removed m,
            mirror_Get h binary t = Some body
            ∧ hashes_to h (bounded body meta) meta
            ∧ staging (disk_of r) = purge_staging h m
            ∧ events_of r =
                EvLock binary :: EvCheckExecutable (InLibrary binary v) false ::
                install_events binary t body (bounded body meta) removed
                ++ purge_events h m ++ [EvUnlock binary])).
Proof.
  intros v r. subst r v.
  add_cases h binary currentVersion t meta d.
  - apply String.eqb_eq in Hcur. split; [done|]. by left.
  - apply String.eqb_neq in Hcur. split; [done|]. right. by left.
  - apply String.eqb_neq in Hcur.
    destruct (stageThenMove_verified h binary t meta d body0 Hget Hver)
      as [Hframe Hout].
    destruct (stageThenMove h binary t meta d) as [[ret d1] evs1].
    unfold result_of, disk_of, events_of in *. simpl in *.
    split; [intros b' Hb'; by rewrite updatesDirectory_set_staging, Hframe|].
    rewrite updatesDirectory_set_staging.
    destruct Hout as [(-> & Hlib & removed & ->)
                     |(Hne & Hlib & evs & mvs & -> & Hevs & Hmv & Hno)].
    + right. right. right.
      split; [done|]. split; [done|]. split; [done|]. split; [done|].
      exists body0, removed, (staging d1).
      split; [done|]. split; [by apply verifies_bounded|]. done.
    + right. right. left.
      split; [done|]. split; [done|]. split; [done|]. split; [done|].
      assert (∀ e, e ∈ mvs → is_move_event binary (versionFromTarget binary t) e = true
                           ∧ ¬ is_install e) as Hmv'.
      { intros e He. split; [by apply Hmv|]. intros Hi.
        pose proof (Hmv e He) as Hm.
        destruct e; try done.
        match goal with
        | H : is_move_event _ _ (EvRename _ _ ?ok) = true |- _ =>
            simpl in H; apply bool_decide_eq_true in H as [-> ->]; destruct ok
        end; done. }
      split; [|split].
      * intros e He.
        apply elem_of_cons in He as [->|He]; [by intros []|].
        apply elem_of_cons in He as [->|He]; [by intros []|].
        rewrite !elem_of_app in He. destruct He as [He|[He|He]].
        -- apply elem_of_cons in He as [->|He]; [by intros []|].
           apply elem_of_cons in He as [->|He]; [by intros []|].
           apply elem_of_cons in He as [->|He]; [by intros []|].
           apply elem_of_app in He as [He|He]; [|by apply Hmv'].
           destruct Hevs as [->|[->| ->]]; in_list He; by intros [].
        -- by apply purge_events_not_install in He.
        -- in_list He. by intros [].
      * intros He.
        apply elem_of_cons in He as [[=]|He].
        apply elem_of_cons in He as [[=]|He].
        rewrite !elem_of_app in He. destruct He as [He|[He|He]].
        -- apply elem_of_cons in He as [[=]|He].
           apply elem_of_cons in He as [[=]|He].
           apply elem_of_cons in He as [[=]|He].
           apply elem_of_app in He as [He|He].
           ++ destruct Hevs as [->|[->| ->]]; in_list He.
           ++ apply Hmv in He. by simpl in He.
        -- apply purge_events_shape in He as [[? [=]]|(? & ? & [=])].
        -- in_list He.
      * change (EvLock binary :: ?a :: ?l) with ([EvLock binary; a] ++ l).
        rewrite !downloads_app.
        change (EvGet binary t (Some body0) :: ?a :: ?b :: ?l)
          with ([EvGet binary t (Some body0); a; b] ++ l).
        rewrite !downloads_app.
        rewrite (downloads_none mvs)
          by (intros e He; by eapply move_event_not_download, Hmv).
        rewrite (downloads_none (purge_events _ _))
          by apply purge_events_not_download.
        by destruct Hevs as [->|[->| ->]].
  - apply String.eqb_neq in Hcur.
    destruct (stageThenMove_rejected h binary t meta d body0 Hget Hver)
      as (err & fed & evs & -> & Herr & Hfed & Hevs).
    unfold result_of, disk_of, events_of. simpl.
    split; [intros b' _; by rewrite updatesDirectory_set_staging|].
    right. right. left.
    rewrite updatesDirectory_set_staging.
    split; [done|]. split; [done|]. split; [done|]. split; [done|].
    split; [|split].
    + intros e He.
      apply elem_of_cons in He as [->|He]; [by intros []|].
      apply elem_of_cons in He as [->|He]; [by intros []|].
      apply elem_of_cons in He as [->|He]; [by intros []|].
      apply elem_of_cons in He as [->|He]; [by intros []|].
      rewrite !elem_of_app in He. destruct He as [He|[He|He]].
      * destruct Hevs as [->| ->]; in_list He; by intros [].
      * by apply purge_events_not_install in He.
      * in_list He. by intros [].
    + intros He.
      apply elem_of_cons in He as [[=]|He].
      apply elem_of_cons in He as [[=]|He].
      apply elem_of_cons in He as [[=]|He].
      apply elem_of_cons in He as [[=]|He].
      rewrite !elem_of_app in He. destruct He as [He|[He|He]].
      * destruct Hevs as [->| ->]; in_list He.
      * apply purge_events_shape in He as [[? [=]]|(? & ? & [=])].
      * in_list He.
    + change (EvLock binary :: ?a :: ?b :: ?c :: ?l)
        with ([EvLock binary; a; b; c] ++ l).
      rewrite !downloads_app.
      rewrite (downloads_none (purge_events _ _))
        by apply purge_events_not_download.
      by destruct Hevs as [->| ->].
  - apply String.eqb_neq in Hcur.
    destruct (stageThenMove_no_answer h binary t meta d Hget) as (err & -> & Herr).
    unfold result_of, disk_of, events_of. simpl.
    split; [intros b' _; by rewrite updatesDirectory_set_staging|].
    right. right. left.
    rewrite updatesDirectory_set_staging.
    split; [done|]. split; [done|]. split; [done|]. split; [done|].
    split; [|split].
    + intros e He.
      apply elem_of_cons in He as [->|He]; [by intros []|].
      apply elem_of_cons in He as [->|He]; [by intros []|].
      apply elem_of_cons in He as [->|He]; [by intros []|].
      rewrite !elem_of_app in He. destruct He as [He|He].
      * by apply purge_events_not_install in He.
      * in_list He. by intros [].
    + intros He.
      apply elem_of_cons in He as [[=]|He].
      apply elem_of_cons in He as [[=]|He].
      apply elem_of_cons in He as [[=]|He].
      rewrite !elem_of_app in He. destruct He as [He|He].
      * apply purge_events_shape in He as [[? [=]]|(? & ? & [=])].
      * in_list He.
    + change (EvLock binary :: ?a :: ?b :: ?l)
        with ([EvLock binary; a; b] ++ l).
      rewrite !downloads_app.
      rewrite (downloads_none (purge_events _ _))
        by apply purge_events_not_download.
      done.
Qed.

(** C4. In every execution of [AddToLibrary] the library of the other
    binary is left alone, and the library of the binary changes only by
    a rename: every successful rename is that of the staged directory of
    the target's version and follows immediately the successful probe of
    its executable; without a rename the library is as before; with one,
    the call returns nil and the library has gained exactly that version,
    with an executable that runs.  A call on which the probe of the
    staged candidate failed returns an error and leaves the library as
    it was. *)
Theorem AddToLibrary_installs_only_probed binary currentVersion t meta d :
  let v := versionFromTarget binary t in
  let r := AddToLibrary h binary currentVersion t meta d in
  (∀ b', b' ≠ binary → updatesDirectory b' (disk_of r) = updatesDirectory b' d)
  ∧ (∀ pre e post, events_of r = pre ++ e :: post → is_install e →
       e = EvRename binary v true
       ∧ ∃ pre', pre = pre' ++ [EvCheckExecutable (InStaging v) true])
  ∧ ((∀ e, e ∈ events_of r → ¬ is_install e) →
       updatesDirectory binary (disk_of r) = updatesDirectory binary d)
  ∧ ((∃ e, e ∈ events_of r ∧ is_install e) →
       result_of r = nil
       ∧ updatesDirectory binary (disk_of r)
         = <[v := ExeRunnable]> (updatesDirectory binary d))
  ∧ (EvCheckExecutable (InStaging v) false ∈ events_of r →
       result_of r ≠ nil
       ∧ updatesDirectory binary (disk_of r) = updatesDirectory binary d).
Proof.
  intros v r.
  destruct (AddToLibrary_outcomes binary currentVersion t meta d)
    as [Hframe Hout].
  fold v r in Hframe, Hout. split; [done|].
  destruct Hout as [[_ Hr]|[(_ & _ & Hr)|[Hfail|Hok]]].
  - (* the running version is the target's *)
    rewrite Hr. unfold result_of, disk_of, events_of. simpl.
    assert (∀ e, e ∈ [EvLock binary; EvUnlock binary] → ¬ is_install e) as Hno
      by (intros e He; in_list He; by intros []).
    split; [|split; [done|split]].
    + intros pre e post Heq Hi. exfalso. apply (Hno e); [|done].
      rewrite Heq. apply elem_of_app. right. by left.
    + intros (e & He & Hi). by destruct (Hno e He).
    + intros He. in_list He.
  - (* the target is available *)
    rewrite Hr. unfold result_of, disk_of, events_of. simpl.
    assert (∀ e, e ∈ [EvLock binary; EvCheckExecutable (InLibrary binary v) true;
                      EvUnlock binary] → ¬ is_install e) as Hno
      by (intros e He; in_list He; by intros []).
    split; [|split; [done|split]].
    + intros pre e post Heq Hi. exfalso. apply (Hno e); [|done].
      rewrite Heq. apply elem_of_app. right. by left.
    + intros (e & He & Hi). by destruct (Hno e He).
    + intros He. in_list He.
  - (* the update failed *)
    destruct Hfail as (_ & _ & Herr & Hlib & Hno & _).
    split; [|split; [done|split]].
    + intros pre e post Heq Hi. exfalso. apply (Hno e); [|done].
      rewrite Heq. apply elem_of_app. right. by left.
    + intros (e & He & Hi). by destruct (Hno e He).
    + done.
  - (* the update is installed *)
    destruct Hok as (_ & _ & Hnil & Hlib & body & removed & m & _ & _ & _ & Hev).
    split; [|split; [|split]].
    + intros pre e post Heq Hi. rewrite Hev in Heq.
      unfold install_events, move_events in Heq. fold v in Heq.
      simpl in Heq.
      apply (split_at_unique is_install
               [EvLock binary; EvCheckExecutable (InLibrary binary v) false;
                EvGet binary t (Some body); EvTee (bounded body meta);
                EvVerify t true; EvCreate t true;
                EvCopy t (bounded body meta) true; EvMkdirAll v true;
                EvUntar v true; EvChmod v true;
                EvCheckExecutable (InStaging v) true]
               (EvRemoveAll (InStaging v) removed
                  :: purge_events h m ++ [EvUnlock binary])
               pre post (EvRename binary v true) e) in Heq as [-> ->];
        [|intros y Hy; in_list Hy; by intros []| |done].
      * split; [done|].
        by eexists [_; _; _; _; _; _; _; _; _; _].
      * intros y Hy. apply elem_of_cons in Hy as [->|Hy]; [by intros []|].
        apply elem_of_app in Hy as [Hy|Hy].
        -- by apply purge_events_not_install in Hy.
        -- in_list Hy. by intros [].
    + intros Hno. exfalso. apply (Hno (EvRename binary v true)); [|done].
      rewrite Hev. unfold install_events, move_events. fold v.
      do 2 right. apply elem_of_app. left. apply elem_of_app. right.
      do 4 right. by left.
    + done.
    + intros He. exfalso. rewrite Hev in He.
      unfold install_events, move_events in He. fold v in He. simpl in He.
      do 13 (apply elem_of_cons in He as [[=]|He]).
      apply elem_of_app in He as [He|He].
      * apply purge_events_shape in He as [[? [=]]|(? & ? & [=])].
      * in_list He.
Qed.

Lemma executableLocation_installed binary v d' (m : gmap string Executable) :
  updatesDirectory binary d' = <[v := ExeRunnable]> m →
  executableLocation (InLibrary binary v) d' = ExeRunnable.
Proof. intros Hm. simpl. by rewrite Hm, lookup_insert_eq. Qed.

(** C5, as the code has it.  A call of [AddToLibrary] downloads at most
    once, and not at all (returning nil, the disk untouched) when the
    running version is the target's or the target is available.  After a
    call that returned nil, a second call with the same arguments, on
    whatever host, returns nil without downloading and leaves the disk as
    the first call left it.  (After a call that failed, the second call
    starts over and downloads again.) *)
Theorem AddToLibrary_idempotent_after_success (h' : Host)
    binary currentVersion t meta d :
  let v := versionFromTarget binary t in
  let r1 := AddToLibrary h binary currentVersion t meta d in
  let r2 := AddToLibrary h' binary currentVersion t meta (disk_of r1) in
  ((currentVersion = v ∨ executableLocation (InLibrary binary v) d = ExeRunnable) →
     result_of r1 = nil ∧ disk_of r1 = d ∧ downloads (events_of r1) = 0)
  ∧ downloads (events_of r1) ≤ 1
  ∧ (result_of r1 = nil →
       result_of r2 = nil ∧ disk_of r2 = disk_of r1
       ∧ downloads (events_of r2) = 0).
Proof.
  intros v r1 r2.
  destruct (AddToLibrary_outcomes binary currentVersion t meta d)
    as [_ Hout].
  fold v r1 in Hout.
  destruct Hout as [[Hcur Hr]|[(Hcur & Hav & Hr)|[Hfail|Hok]]].
  - (* the running version is the target's *)
    subst r2. rewrite Hr. unfold result_of, disk_of, events_of. simpl.
    rewrite AddToLibrary_run. fold v.
    rewrite (proj2 (String.eqb_eq _ _) Hcur). simpl. auto.
  - (* the target is available *)
    subst r2. rewrite Hr. unfold result_of, disk_of, events_of. simpl.
    rewrite AddToLibrary_run. fold v.
    rewrite (proj2 (String.eqb_neq _ _) Hcur).
    rewrite bool_decide_eq_true_2 by done. simpl. auto.
  - (* the update failed *)
    destruct Hfail as (Hcur & Hav & Herr & _ & _ & _ & Hdl).
    rewrite Hdl. split; [|split; [lia|done]].
    intros [?|?]; done.
  - (* the update is installed *)
    destruct Hok as (Hcur & Hav & Hnil & Hlib & body & removed & m & _ & _ & _ & Hev).
    split; [intros [?|?]; done|].
    split.
    + rewrite Hev.
      change (EvLock binary :: ?a :: ?l) with ([EvLock binary; a] ++ l).
      rewrite !downloads_app.
      rewrite (downloads_none (purge_events _ _))
        by apply purge_events_not_download.
      unfold install_events, move_events. simpl. done.
    + intros _. subst r2.
      rewrite AddToLibrary_run. fold v.
      rewrite (proj2 (String.eqb_neq _ _) Hcur).
      rewrite bool_decide_eq_true_2
        by (by eapply executableLocation_installed).
      done.
Qed.


(** The events of a guarded update whose download verifies. *)
Lemma stageThenMove_verified_events b t meta d body :
  mirror_Get h b t = Some body →
  verifies h (io_LimitReader body (Length meta)) meta = true →
  let fed := bounded body meta in
  ∃ evs mvs,
    events_of (stageThenMove h b t meta d) =
      EvGet b t (Some body) :: EvTee fed :: EvVerify t true :: evs ++ mvs
    ∧ (evs = [EvCreate t false]
       ∨ evs = [EvCreate t true; EvCopy t fed false]
       ∨ evs = [EvCreate t true; EvCopy t fed true])
    ∧ (∀ e, e ∈ mvs → is_move_event b (versionFromTarget b t) e = true).
Proof.
  intros Hget Hver fed.
  destruct (stageThenMove_verified h b t meta d body Hget Hver)
    as [_ [(_ & _ & removed & Hev)|(_ & _ & evs & mvs & Hev & Hevs & Hmv & _)]].
  - exists [EvCreate t true; EvCopy t fed true],
      (move_events b (versionFromTarget b t) removed).
    split; [done|]. split; [by right; right|].
    intros e He. unfold move_events in He. in_list He; simpl;
      by rewrite bool_decide_eq_true_2.
  - by exists evs, mvs.
Qed.


End add_to_library.

(** ** Tidying the library *)

Lemma filter_none {A} (P : A → Prop) `{!∀ x, Decision (P x)} (l : list A) :
  Forall (λ x, ¬ P x) l → filter P l = [].
Proof.
  induction 1 as [|x l Hx _ IH]; [done|].
  by rewrite filter_cons_False.
Qed.

Section tidying.

Context `{Sorter} (h : Host).

Lemma remove_versions_lookup binary names (m : gmap string Executable) k :
  remove_versions h binary names m !! k =
  if bool_decide (k ∈ names ∧ RemoveAll_err h (InLibrary binary k) = false)
  then None else m !! k.
Proof.
  revert m. induction names as [|n names IH]; intros m; simpl; [done|].
  rewrite IH.
  destruct (decide (k = n)) as [->|Hne].
  - destruct (RemoveAll_err h (InLibrary binary n)) eqn:Hn.
    + rewrite !bool_decide_eq_false_2; [done| |]; intros [_ ?]; congruence.
    + rewrite lookup_delete_eq.
      rewrite (bool_decide_eq_true_2 (n ∈ n :: names ∧ _)); [|split; [left|done]].
      by case_bool_decide.
  - assert (m !! k = (if RemoveAll_err h (InLibrary binary n)
                      then m else delete n m) !! k) as <-.
    { destruct (RemoveAll_err h (InLibrary binary n)); [done|].
      by rewrite lookup_delete_ne. }
    rewrite (bool_decide_ext
               (k ∈ names ∧ RemoveAll_err h (InLibrary binary k) = false)
               (k ∈ n :: names ∧ RemoveAll_err h (InLibrary binary k) = false));
      [done|].
    rewrite elem_of_cons. tauto.
Qed.

Lemma removeUpdate_run binary n d :
  ∃ evs, removeUpdate h binary n d =
    (tt, set_updates binary (remove_versions h binary [n] (updatesDirectory binary d)) d,
     evs).
Proof.
  unfold removeUpdate, os_RemoveAll, remove_versions. simpl.
  destruct (RemoveAll_err h (InLibrary binary n)); run; eexists;
    [by rewrite set_updates_id|done].
Qed.

Lemma remove_versions_app binary l1 l2 (m : gmap string Executable) :
  remove_versions h binary (l1 ++ l2) m
  = remove_versions h binary l2 (remove_versions h binary l1 m).
Proof. unfold remove_versions. by rewrite foldl_app. Qed.

Lemma for_range_removeUpdate binary names d :
  ∃ evs, for_range names (removeUpdate h binary) d =
    (tt, set_updates binary
           (remove_versions h binary names (updatesDirectory binary d)) d,
     evs).
Proof.
  revert d. induction names as [|n names IH]; intros d.
  - eexists. simpl. by rewrite set_updates_id.
  - cbn [for_range].
    destruct (removeUpdate_run binary n d) as [evs1 Hrun].
    erewrite run_bind by exact Hrun.
    destruct (IH (set_updates binary
                    (remove_versions h binary [n] (updatesDirectory binary d)) d))
      as [evs2 ->].
    eexists. run.
    by rewrite updatesDirectory_set_updates, set_updates_set_updates.
Qed.

Lemma pruneVersions_run binary cur kept l d :
  ∃ evs, pruneVersions h binary cur kept l d =
    (tt, set_updates binary
           (remove_versions h binary (pruned cur kept l) (updatesDirectory binary d)) d,
     evs).
Proof.
  revert kept d. induction l as [|v l IH]; intros kept d.
  - eexists. simpl. by rewrite set_updates_id.
  - cbn [pruneVersions pruned].
    destruct (String.eqb v cur); [apply IH|].
    change (numberOfVersionsToKeep - 1) with 2.
    destruct (2 <=? kept); [|apply IH].
    destruct (removeUpdate_run binary v d) as [evs1 Hrun].
    erewrite run_bind by exact Hrun.
    destruct (IH kept (set_updates binary
                    (remove_versions h binary [v] (updatesDirectory binary d)) d))
      as [evs2 ->].
    eexists. run.
    by rewrite updatesDirectory_set_updates, set_updates_set_updates.
Qed.

Lemma CheckExecutable_run loc d :
  CheckExecutable loc d =
  (if bool_decide (executableLocation loc d = ExeRunnable)
   then nil else errors_New "exec",
   d,
   [EvCheckExecutable loc
      (bool_decide (executableLocation loc d = ExeRunnable))]).
Proof.
  unfold CheckExecutable. run.
  by destruct (executableLocation loc d).
Qed.

Lemma probe_ok_executableLocation binary d n :
  probe_ok (updatesDirectory binary d) n
  = bool_decide (executableLocation (InLibrary binary n) d = ExeRunnable).
Proof.
  unfold probe_ok. simpl. apply bool_decide_ext.
  destruct (updatesDirectory binary d !! n); naive_solver.
Qed.

Lemma classifyVersions_run binary names d :
  ∃ evs, classifyVersions binary names d =
    ((valid_versions (updatesDirectory binary d) names,
      invalid_versions (updatesDirectory binary d) names), d, evs).
Proof.
  induction names as [|n names [evs IH]]; [by eexists|].
  cbn [classifyVersions].
  unfold valid_versions, invalid_versions in *. cbn [omap list_omap].
  unfold valid_version at 1 3. rewrite probe_ok_executableLocation.
  destruct (NewVersion n) as [v|] eqn:Hv.
  - erewrite run_bind by apply CheckExecutable_run.
    erewrite run_bind by exact IH.
    case_bool_decide as Hexe; run; eexists.
    + rewrite filter_cons_False; [done|].
      unfold valid_version. rewrite probe_ok_executableLocation.
      rewrite bool_decide_eq_true_2 by done. by rewrite Hv.
    + rewrite filter_cons_True; [done|].
      unfold valid_version. rewrite probe_ok_executableLocation.
      by rewrite bool_decide_eq_false_2 by done.
  - erewrite run_bind by exact IH. run. eexists.
    rewrite filter_cons_True; [|unfold valid_version; by rewrite Hv; case_match].
    by case_bool_decide.
Qed.

(** *** The pruning loop, as a function on lists *)

Lemma pruned_elem_of cur kept l x :
  x ∈ pruned cur kept l → x ∈ l ∧ x ≠ cur.
Proof.
  revert kept. induction l as [|v l IH]; intros kept; cbn [pruned]; [by intros ?%elem_of_nil|].
  destruct (String.eqb v cur) eqn:Hv.
  - intros [? ?]%IH. split; [by right|done].
  - apply String.eqb_neq in Hv. destruct (2 <=? kept).
    + intros [->|[? ?]%IH]%elem_of_cons; (split; [|done]); by constructor.
    + intros [? ?]%IH. split; [by right|done].
Qed.

Lemma pruned_sublist cur kept l : pruned cur kept l `sublist_of` l.
Proof.
  revert kept. induction l as [|v l IH]; intros kept; cbn [pruned]; [done|].
  destruct (String.eqb v cur); [by apply sublist_cons|].
  destruct (2 <=? kept); [by apply sublist_skip|by apply sublist_cons].
Qed.

(** Once two other versions are kept, every further one is removed. *)
Lemma pruned_all cur kept l x :
  2 ≤ kept → x ∈ l → x ≠ cur → x ∈ pruned cur kept l.
Proof.
  intros Hk. induction l as [|v l IH]; cbn [pruned]; [by intros ?%elem_of_nil|].
  intros Hx Hne.
  destruct (String.eqb v cur) eqn:Hv.
  - apply String.eqb_eq in Hv. subst v.
    apply elem_of_cons in Hx as [->|Hx]; [done|by apply IH].
  - rewrite (proj2 (Nat.leb_le 2 kept) Hk).
    apply elem_of_cons in Hx as [->|Hx]; [by left|right; by apply IH].
Qed.

(** In a list in which every version comes before those it is
    [R]-related to, a kept version other than the running one is
    related to every removed one. *)
Lemma pruned_after (R : relation string) cur kept l x y :
  StronglySorted R l →
  x ∈ l → x ≠ cur → x ∉ pruned cur kept l → y ∈ pruned cur kept l → R x y.
Proof.
  intros Hsorted. revert kept.
  induction Hsorted as [|v l Hl IH Hv]; intros kept; cbn [pruned];
    [by intros ?%elem_of_nil|].
  rewrite Forall_forall in Hv.
  intros Hx Hne Hkept Hy.
  destruct (String.eqb v cur) eqn:Hvc.
  - apply String.eqb_eq in Hvc. subst v.
    apply elem_of_cons in Hx as [->|Hx]; [done|]. by eapply IH.
  - apply String.eqb_neq in Hvc.
    destruct (2 <=? kept) eqn:Hk.
    + apply Nat.leb_le in Hk. exfalso. apply Hkept.
      apply elem_of_cons in Hx as [->|Hx]; [by left|].
      right. by apply pruned_all.
    + apply elem_of_cons in Hx as [->|Hx].
      * apply Hv. by apply pruned_elem_of in Hy as [? _].
      * by eapply IH.
Qed.

Lemma length_pruned cur kept l :
  length (pruned cur kept l) = length (filter (λ v, v ≠ cur) l) - (2 - kept).
Proof.
  revert kept. induction l as [|v l IH]; intros kept; cbn [pruned]; [done|].
  destruct (String.eqb v cur) eqn:Hv.
  - apply String.eqb_eq in Hv. subst v.
    rewrite filter_cons_False by (by intros ?). apply IH.
  - apply String.eqb_neq in Hv. rewrite filter_cons_True by done.
    cbn [length].
    destruct (2 <=? kept) eqn:Hk.
    + apply Nat.leb_le in Hk. cbn [length]. rewrite IH. lia.
    + apply Nat.leb_gt in Hk. rewrite IH. lia.
Qed.

Lemma length_filter_others (cur : string) l :
  NoDup l → cur ∈ l → length (filter (λ v, v ≠ cur) l) = length l - 1.
Proof.
  induction 1 as [|v l Hv Hl IH]; [by intros ?%elem_of_nil|].
  intros [->|Hcur]%elem_of_cons.
  - rewrite filter_cons_False by (by intros ?).
    rewrite filter_all; [simpl; lia|].
    apply Forall_forall. by intros x Hx ->.
  - rewrite filter_cons_True by (by intros ->).
    simpl. rewrite IH by done.
    destruct l; [by apply elem_of_nil in Hcur|simpl; lia].
Qed.

(** *** Removing versions on a host that removes reliably *)

Lemma remove_versions_reliable binary names (m : gmap string Executable) k :
  removes_reliably h →
  remove_versions h binary names m !! k
  = if bool_decide (k ∈ names) then None else m !! k.
Proof.
  intros [_ Hr]. rewrite remove_versions_lookup.
  apply (f_equal (λ b : bool, if b then _ else _)), bool_decide_ext.
  rewrite Hr. split; [by intros [? _]|done].
Qed.

Lemma size_remove_versions binary names (m : gmap string Executable) :
  removes_reliably h → NoDup names → (∀ n, n ∈ names → is_Some (m !! n)) →
  size (remove_versions h binary names m) = size m - length names.
Proof.
  intros [Hg Hr] Hnd. revert m.
  induction Hnd as [|n names Hn Hnd IH]; intros m Hin; simpl; [lia|].
  rewrite Hr, IH.
  - rewrite map_size_delete_Some by (apply Hin; by left). lia.
  - intros n' Hn'. rewrite lookup_delete_ne by (by intros ->).
    apply Hin. by right.
Qed.

(** *** [tidyUpdateLibrary] in closed form *)

Lemma sortedVersionsInLibrary_run binary d :
  Glob_err h (UpdatesDir binary) = false →
  let L := updatesDirectory binary d in
  let names := (map_to_list L).*1 in
  ∃ evs, sortedVersionsInLibrary h binary d =
    ((Original <$> sort_Sort (valid_versions L names),
      invalid_versions L names, nil), d, evs).
Proof.
  intros Hg L names. unfold sortedVersionsInLibrary, filepath_Glob.
  rewrite Hg.
  destruct (classifyVersions_run binary names d) as [evs Hc].
  fold L in Hc. run. fold L names. rewrite Hc. by eexists.
Qed.

Lemma tidyUpdateLibrary_run binary cur d :
  cur ≠ "" →
  Glob_err h (UpdatesDir binary) = false →
  let L := updatesDirectory binary d in
  let names := (map_to_list L).*1 in
  let sorted := Original <$> sort_Sort (valid_versions L names) in
  let L1 := remove_versions h binary (invalid_versions L names) L in
  ∃ evs, tidyUpdateLibrary h binary cur d =
    (tt,
     set_updates binary
       (if length sorted <=? numberOfVersionsToKeep then L1
        else remove_versions h binary (pruned cur 0 (reverse sorted)) L1) d,
     evs).
Proof.
  intros Hcur Hg L names sorted L1. unfold tidyUpdateLibrary.
  rewrite (proj2 (String.eqb_neq _ _) Hcur).
  destruct (sortedVersionsInLibrary_run binary d Hg) as [evs1 Hs].
  fold L names sorted in Hs.
  erewrite run_bind by exact Hs. cbn [negb is_nil].
  destruct (for_range_removeUpdate binary (invalid_versions L names) d)
    as [evs2 Hr].
  fold L L1 in Hr.
  erewrite run_bind by exact Hr.
  destruct (length sorted <=? numberOfVersionsToKeep).
  - run. by eexists.
  - destruct (pruneVersions_run binary cur 0 (reverse sorted)
                (set_updates binary L1 d)) as [evs3 ->].
    run. rewrite updatesDirectory_set_updates, set_updates_set_updates.
    by eexists.
Qed.

(** *** The valid versions and their order *)

Lemma valid_version_Some (L : gmap string Executable) n v :
  valid_version L n = Some v →
  L !! n = Some ExeRunnable ∧ NewVersion n = Some v ∧ Original v = n.
Proof.
  unfold valid_version, probe_ok. case_bool_decide; [|done].
  intros Hv. split; [done|]. split; [done|]. by apply Original_NewVersion.
Qed.

Lemma Original_valid_versions (L : gmap string Executable) names :
  Original <$> valid_versions L names
  = filter (λ n, valid_version L n ≠ None) names.
Proof.
  unfold valid_versions. induction names as [|n names IH]; [done|].
  cbn [omap list_omap].
  destruct (valid_version L n) as [v|] eqn:Hv.
  - rewrite filter_cons_True by (by rewrite Hv).
    apply valid_version_Some in Hv as (_ & _ & Ho).
    by rewrite fmap_cons, Ho, IH.
  - rewrite filter_cons_False by (rewrite Hv; by intros ?). done.
Qed.

Lemma elem_of_valid_versions (L : gmap string Executable) names v :
  v ∈ valid_versions L names → NewVersion (Original v) = Some v.
Proof.
  unfold valid_versions. rewrite list_elem_of_omap.
  intros (n & _ & (_ & Hv & <-)%valid_version_Some). done.
Qed.

#[local] Instance not_newer_trans : Transitive not_newer.
Proof.
  intros u v w Huv Hvw. unfold not_newer in *.
  by eapply LessThan_incomparable_trans.
Qed.

(** The sorted names of the valid versions, from the most recent one
    down: each comes before the versions that are not newer. *)
Lemma sorted_names_descending (L : gmap string Executable) names :
  StronglySorted (flip not_newer_name)
    (reverse (Original <$> sort_Sort (valid_versions L names))).
Proof.
  assert (StronglySorted not_newer (sort_Sort (valid_versions L names))) as Hs
    by (apply Sorted_StronglySorted; [apply _|apply sort_Sort_sorted]).
  assert (Forall (λ v, NewVersion (Original v) = Some v)
            (sort_Sort (valid_versions L names))) as Hp.
  { apply Forall_forall. intros v Hv. eapply elem_of_valid_versions.
    by rewrite <- (sort_Sort_perm (valid_versions L names)). }
  induction Hs as [|v l Hl IH Hv]; [constructor|].
  apply Forall_cons in Hp as [Hpv Hp].
  rewrite fmap_cons, reverse_cons.
  apply StronglySorted_app. split; [|split; [by apply IH|repeat constructor]].
  intros x1 x2 Hx1 ->%list_elem_of_singleton.
  apply elem_of_reverse, list_elem_of_fmap in Hx1 as (u & -> & Hu).
  rewrite Forall_forall in Hv, Hp.
  intros vx vy Hvx Hvy. rewrite Hpv in Hvx. rewrite (Hp u Hu) in Hvy.
  simplify_eq. by apply Hv.
Qed.

(** C1, as the code has it.  Let every entry of the library of a binary
    parse as a version and pass the probe, let the running version be
    among them, and let the host remove reliably.  Then [TidyLibrary]
    keeps a part of the library, with the running version in it; it
    keeps all of it when there are at most three versions; otherwise it
    keeps exactly three: the running version and two others, and no
    removed version is newer than one of these two. *)
Theorem TidyLibrary_retention binary cur d :
  let L := updatesDirectory binary d in
  let L' := updatesDirectory binary (disk_of (TidyLibrary h binary cur d)) in
  cur ≠ "" →
  removes_reliably h →
  (∀ n e, L !! n = Some e → e = ExeRunnable ∧ is_Some (NewVersion n)) →
  is_Some (L !! cur) →
  L' ⊆ L
  ∧ is_Some (L' !! cur)
  ∧ (size L ≤ 3 → L' = L)
  ∧ (3 < size L →
       size L' = 3
       ∧ ∀ k r, is_Some (L' !! k) → k ≠ cur →
                is_Some (L !! r) → L' !! r = None →
                not_newer_name r k).
Proof.
  intros L L' Hcur Hrel Hvalid Hpresent. subst L'.
  pose proof Hrel as [Hglob Hrm].
  unfold TidyLibrary.
  erewrite run_bind by reflexivity.
  erewrite run_bind by apply tidyStagedUpdates_run.
  set (d1 := set_staging _ d).
  destruct (tidyUpdateLibrary_run binary cur d1 Hcur (Hglob _)) as [evs Hrun].
  assert (updatesDirectory binary d1 = L) as HL
    by apply updatesDirectory_set_staging.
  rewrite HL in Hrun.
  erewrite run_bind by exact Hrun. run.
  rewrite updatesDirectory_set_updates.
  set (names := (map_to_list L).*1) in *.
  assert (∀ n, n ∈ names ↔ is_Some (L !! n)) as Hnames.
  { intros n. unfold names. rewrite list_elem_of_fmap. split.
    - intros ([n' e] & -> & He%elem_of_map_to_list). by eexists.
    - intros [e He]. exists (n, e). split; [done|].
      by apply elem_of_map_to_list. }
  assert (∀ n, n ∈ names → valid_version L n ≠ None) as Hall.
  { intros n [e He]%Hnames. destruct (Hvalid n e He) as [-> [v Hv]].
    unfold valid_version, probe_ok.
    rewrite bool_decide_eq_true_2 by done. by rewrite Hv. }
  assert (invalid_versions L names = []) as ->.
  { unfold invalid_versions. apply filter_none, Forall_forall.
    intros n Hn. by apply Hall. }
  assert (Original <$> valid_versions L names = names) as Horig.
  { rewrite Original_valid_versions. by apply filter_all, Forall_forall. }
  set (sorted := Original <$> sort_Sort (valid_versions L names)).
  assert (sorted ≡ₚ names) as Hperm.
  { unfold sorted. by rewrite sort_Sort_perm, Horig. }
  assert (NoDup names) as Hnd by apply NoDup_fst_map_to_list.
  assert (length sorted = size L) as Hlen.
  { rewrite Hperm. unfold names.
    by rewrite length_fmap, length_map_to_list. }
  cbn [remove_versions foldl]. rewrite Hlen.
  change numberOfVersionsToKeep with 3.
  destruct (size L <=? 3) eqn:Hsize.
  - apply Nat.leb_le in Hsize.
    split; [done|]. split; [done|]. split; [done|]. lia.
  - apply Nat.leb_gt in Hsize.
    set (gone := pruned cur 0 (reverse sorted)).
    assert (∀ x, x ∈ gone → is_Some (L !! x) ∧ x ≠ cur) as Hgone.
    { intros x [Hx Hne]%pruned_elem_of. split; [|done].
      apply Hnames. by rewrite <- Hperm, <- elem_of_reverse. }
    assert (∀ k, remove_versions h binary gone L !! k
                 = if bool_decide (k ∈ gone) then None else L !! k) as Hlk
      by (intros k; by apply remove_versions_reliable).
    split; [|split; [|split; [lia|intros _; split]]].
    + apply map_subseteq_spec. intros k e. rewrite Hlk.
      by case_bool_decide.
    + rewrite Hlk. case_bool_decide as Hc; [|done].
      by destruct (Hgone _ Hc).
    + rewrite size_remove_versions; [|done| |by intros n [? _]%Hgone].
      2: { eapply sublist_NoDup; [|apply pruned_sublist].
           by rewrite reverse_Permutation, Hperm. }
      unfold gone. rewrite length_pruned, length_filter_others.
      * rewrite length_reverse. lia.
      * by rewrite reverse_Permutation, Hperm.
      * apply elem_of_reverse. rewrite Hperm. by apply Hnames.
    + intros k r Hk Hne Hr Hr'. rewrite Hlk in Hk, Hr'.
      destruct (decide (k ∈ gone)) as [Hkg|Hkg].
      { rewrite bool_decide_eq_true_2 in Hk by done. by destruct Hk. }
      destruct (decide (r ∈ gone)) as [Hrg|Hrg].
      2: { rewrite bool_decide_eq_false_2 in Hr' by done.
           rewrite Hr' in Hr. by destruct Hr. }
      apply (pruned_after (flip not_newer_name) cur 0 (reverse sorted) k r);
        [apply sorted_names_descending| |done..].
      rewrite bool_decide_eq_false_2 in Hk by done.
      apply elem_of_reverse. rewrite Hperm. by apply Hnames.
Qed.


(** X22. What the code does guarantee about the running version: when
    its directory is valid (it parses and passes the probe), [TidyLibrary]
    keeps it, on every host. *)
Lemma TidyLibrary_keeps_valid_running_version binary cur d :
  let L := updatesDirectory binary d in
  let L' := updatesDirectory binary (disk_of (TidyLibrary h binary cur d)) in
  L !! cur = Some ExeRunnable → is_Some (NewVersion cur) →
  L' !! cur = Some ExeRunnable.
Proof.
  intros L L' Hexe [v Hv]. subst L'.
  unfold TidyLibrary.
  erewrite run_bind by reflexivity.
  erewrite run_bind by apply tidyStagedUpdates_run.
  set (d1 := set_staging _ d).
  assert (updatesDirectory binary d1 = L) as HL
    by apply updatesDirectory_set_staging.
  destruct (decide (cur = "")) as [->|Hcur].
  { unfold tidyUpdateLibrary. simpl. run. by rewrite HL. }
  destruct (Glob_err h (UpdatesDir binary)) eqn:Hg.
  { unfold tidyUpdateLibrary, sortedVersionsInLibrary, filepath_Glob.
    rewrite (proj2 (String.eqb_neq _ _) Hcur), Hg. run. by rewrite HL. }
  destruct (tidyUpdateLibrary_run binary cur d1 Hcur Hg) as [evs Hrun].
  rewrite HL in Hrun.
  erewrite run_bind by exact Hrun. run.
  rewrite updatesDirectory_set_updates.
  assert (remove_versions h binary
            (invalid_versions L (map_to_list L).*1) L !! cur
          = Some ExeRunnable) as H1.
  { rewrite remove_versions_lookup, bool_decide_eq_false_2; [done|].
    intros [Hin _]. unfold invalid_versions in Hin.
    apply list_elem_of_filter in Hin as [Hin _].
    unfold valid_version, probe_ok in Hin.
    rewrite bool_decide_eq_true_2 in Hin by done. congruence. }
  destruct (_ <=? _); [done|].
  rewrite remove_versions_lookup, bool_decide_eq_false_2; [done|].
  by intros [[_ ?]%pruned_elem_of _].
Qed.

Lemma locks_held_no_lock held (t : list Event) :
  (∀ e, e ∈ t → ¬ is_lock_event e) → locks_held held t = held.
Proof.
  revert held. induction t as [|e t IH]; intros held Ht; [done|].
  assert (locks_held held (e :: t) = locks_held held t) as ->.
  { assert (¬ is_lock_event e) as He by (apply Ht; by left).
    destruct e; simpl in *; tauto. }
  apply IH. intros e' He'. apply Ht. by right.
Qed.

Lemma stageThenMove_no_lock b t meta d e :
  e ∈ events_of (stageThenMove h b t meta d) → ¬ is_lock_event e.
Proof.
  destruct (mirror_Get h b t) as [body|] eqn:Hget.
  - destruct (verifies h (io_LimitReader body (Length meta)) meta) eqn:Hver.
    + destruct (stageThenMove_verified_events h b t meta d body Hget Hver)
        as (evs & mvs & -> & Hevs & Hmv).
      intros He.
      do 3 (apply elem_of_cons in He as [->|He]; [by intros []|]).
      apply elem_of_app in He as [He|He].
      * destruct Hevs as [->|[->| ->]]; in_list He; by intros [].
      * apply Hmv in He. destruct e; simpl in *; first [done|tauto].
    + destruct (stageThenMove_rejected h b t meta d body Hget Hver)
        as (err & fed & evs & -> & _ & _ & Hevs).
      unfold events_of. simpl. intros He.
      do 2 (apply elem_of_cons in He as [->|He]; [by intros []|]).
      destruct Hevs as [->| ->]; in_list He; by intros [].
  - destruct (stageThenMove_no_answer h b t meta d Hget) as (err & -> & _).
    unfold events_of. simpl. intros He. in_list He. by intros [].
Qed.

(** C8, as the code has it.  The purge of the staging directory does
    not depend on its argument: for either binary it removes every entry
    of the shared staging directory that the host lets it remove (all of
    them on a host that removes reliably), whichever binary staged it,
    and leaves the libraries alone.  [TidyLibrary] runs it first, under
    the lock of its binary only.  [AddToLibrary] runs it last, under the
    lock of its binary only, on the exits that follow the download; on
    the two early returns (the running version is the target's, or the
    target is available) it does not run, and the staging directory is
    left as it is. *)
Theorem tidyStagedUpdates_purges_shared_staging binary cur t meta d :
  let v := versionFromTarget binary t in
  (∀ b', tidyStagedUpdates h b' d = tidyStagedUpdates h binary d)
  ∧ disk_of (tidyStagedUpdates h binary d)
    = set_staging (purge_staging h (staging d)) d
  ∧ (removes_reliably h → staging (disk_of (tidyStagedUpdates h binary d)) = ∅)
  ∧ (∃ rest, events_of (TidyLibrary h binary cur d)
             = EvLock binary :: purge_events h (staging d) ++ rest
             ∧ locks_held [] (EvLock binary :: purge_events h (staging d))
               = [binary])
  ∧ (let r := AddToLibrary h binary cur t meta d in
     if bool_decide (cur = v ∨ executableLocation (InLibrary binary v) d = ExeRunnable)
     then disk_of r = d ∧ ∀ ok, EvGlob StagingDir ok ∉ events_of r
     else ∃ pre m,
            events_of r
            = EvLock binary :: pre ++ purge_events h m ++ [EvUnlock binary]
            ∧ staging (disk_of r) = purge_staging h m
            ∧ locks_held [] (EvLock binary :: pre ++ purge_events h m)
              = [binary]).
Proof.
  intros v.
  split; [intros b'; by rewrite !tidyStagedUpdates_run|].
  split; [by rewrite tidyStagedUpdates_run|].
  split; [intros Hrel; rewrite tidyStagedUpdates_run; by apply purge_staging_reliable|].
  split.
  - unfold TidyLibrary.
    erewrite run_bind by reflexivity.
    erewrite run_bind by apply tidyStagedUpdates_run.
    unfold events_of. simpl. eexists. split; [done|].
    apply (locks_held_no_lock [binary]).
    intros e. apply purge_events_not_lock.
  - cbv zeta. rewrite AddToLibrary_run. fold v.
    destruct (String.eqb cur v) eqn:Hcur.
    { apply String.eqb_eq in Hcur.
      rewrite bool_decide_eq_true_2 by auto.
      split; [done|]. intros ok Hin. unfold events_of in Hin. simpl in Hin.
      in_list Hin. }
    apply String.eqb_neq in Hcur.
    destruct (decide (executableLocation (InLibrary binary v) d = ExeRunnable))
      as [Hav|Hav].
    { rewrite (bool_decide_eq_true_2 (executableLocation _ d = _)) by done.
      rewrite bool_decide_eq_true_2 by auto.
      split; [done|]. intros ok Hin. unfold events_of in Hin. simpl in Hin.
      in_list Hin. }
    rewrite (bool_decide_eq_false_2 (executableLocation _ d = _)) by done.
    rewrite bool_decide_eq_false_2 by tauto.
    unfold events_of, disk_of. simpl.
    exists (EvCheckExecutable (InLibrary binary v) false
              :: (stageThenMove h binary t meta d).2),
      (staging (stageThenMove h binary t meta d).1.2).
    split; [done|]. split; [done|].
    apply (locks_held_no_lock [binary]).
    intros e [He|He]%elem_of_app; [|by eapply purge_events_not_lock].
    apply elem_of_cons in He as [->|He]; [by intros []|].
    by eapply stageThenMove_no_lock.
Qed.

End tidying.

(** ** The claims on concrete inputs *)

(** Scenario 4 of the spec (pruning): of five valid versions with 1.3.0
    running, 1.2.0, 1.3.0 and 1.4.0 remain. *)
Example scenario_pruning :
  (map_to_list (launcher_updates
     (disk_of (TidyLibrary offline binaryLauncher "1.3.0" five_versions)))).*1
  ≡ₚ ["1.2.0"; "1.3.0"; "1.4.0"].
Proof. vm_compute. apply perm_swap. Qed.

(** Scenario 6 of the spec (length-capped download): the metadata declares
    two bytes, the mirror serves four; the first two go through the tee and
    into the staged file, and the version is installed. *)
Example scenario_length_capped :
  let r := AddToLibrary serving binaryLauncher "1.0.0" "launcher-1.2.0.tar.gz"
             meta_two empty_disk in
  result_of r = nil
  ∧ launcher_updates (disk_of r) !! "1.2.0" = Some ExeRunnable
  ∧ staging (disk_of r) = ∅
  ∧ events_of r =
      [EvLock binaryLauncher;
       EvCheckExecutable (InLibrary binaryLauncher "1.2.0") false;
       EvGet binaryLauncher "launcher-1.2.0.tar.gz" (Some (mkStream release false));
       EvTee [x01; x02];
       EvVerify "launcher-1.2.0.tar.gz" true;
       EvCreate "launcher-1.2.0.tar.gz" true;
       EvCopy "launcher-1.2.0.tar.gz" [x01; x02] true;
       EvMkdirAll "1.2.0" true; EvUntar "1.2.0" true; EvChmod "1.2.0" true;
       EvCheckExecutable (InStaging "1.2.0") true;
       EvRename binaryLauncher "1.2.0" true;
       EvRemoveAll (InStaging "1.2.0") true;
       EvGlob StagingDir true;
       EvRemoveAll (InStaging "launcher-1.2.0.tar.gz") true;
       EvUnlock binaryLauncher].
Proof. by vm_compute. Qed.

(** Scenario 3 of the spec (corrupt executable): the bytes match the
    metadata, the unpacked executable fails the probe; the call fails, the
    staging directory is cleaned, the library is unchanged. *)
Example scenario_corrupt_executable :
  let r := AddToLibrary serving_corrupt binaryLauncher "1.0.0"
             "launcher-1.2.0.tar.gz" meta_corrupt empty_disk in
  result_of r ≠ nil
  ∧ disk_of r = empty_disk
  ∧ EvCheckExecutable (InStaging "1.2.0") false ∈ events_of r.
Proof.
  split; [by vm_compute|]. split; [by vm_compute|].
  vm_compute. repeat constructor.
Qed.

(** Scenario 5 of the spec (invalid versions purged): only the valid,
    running version remains. *)
Example scenario_invalid_purged :
  launcher_updates
    (disk_of (TidyLibrary offline binaryLauncher "1.0.0" with_invalid_versions))
  = {[ "1.0.0" := ExeRunnable ]}.
Proof. by vm_compute. Qed.

(** *** Retention *)

(** C1 fails as stated: with five valid versions and the oldest one
    running, 1.2.0 is among the three most recent versions and is
    removed. *)
Lemma TidyLibrary_keeps_three_not_four :
  ¬ retained_as_specified
      (launcher_updates five_versions) "1.0.0"
      (launcher_updates
         (disk_of (TidyLibrary offline binaryLauncher "1.0.0" five_versions))).
Proof.
  intros Hc. destruct (Hc "1.2.0") as [_ Hback].
  assert (is_Some
            (launcher_updates
               (disk_of (TidyLibrary offline binaryLauncher "1.0.0" five_versions))
             !! "1.2.0")) as [e He].
  { apply Hback. split; [by eexists; vm_compute|]. right. by vm_compute. }
  vm_compute in He. discriminate.
Qed.

Lemma TidyLibrary_retention_witness :
  let L := updatesDirectory binaryLauncher five_versions in
  let L' := updatesDirectory binaryLauncher
              (disk_of (TidyLibrary offline binaryLauncher "1.0.0" five_versions)) in
  ("1.0.0" ≠ ""
   ∧ removes_reliably offline
   ∧ (∀ n e, L !! n = Some e → e = ExeRunnable ∧ is_Some (NewVersion n))
   ∧ is_Some (L !! "1.0.0"))
  ∧ (L' ⊆ L
     ∧ is_Some (L' !! "1.0.0")
     ∧ (size L ≤ 3 → L' = L)
     ∧ (3 < size L →
          size L' = 3
          ∧ ∀ k r, is_Some (L' !! k) → k ≠ "1.0.0" →
                   is_Some (L !! r) → L' !! r = None →
                   not_newer_name r k)).
Proof.
  intros L L'.
  assert ("1.0.0" ≠ "") as H1 by discriminate.
  assert (removes_reliably offline) as H2 by (by split).
  assert (∀ n e, L !! n = Some e → e = ExeRunnable ∧ is_Some (NewVersion n)) as H3.
  { apply (map_Forall_lookup
             (λ n e, e = ExeRunnable ∧ is_Some (NewVersion n)) L).
    apply map_Forall_to_list. vm_compute.
    repeat (constructor; [split; [reflexivity|eexists; reflexivity]|]).
    constructor. }
  assert (is_Some (L !! "1.0.0")) as H4 by (eexists; vm_compute; reflexivity).
  split; [done|].
  exact (TidyLibrary_retention offline binaryLauncher "1.0.0" five_versions
           H1 H2 H3 H4).
Defined.

(** C2.  The directory of the running version is removed when it does not
    pass the probe, and when its name does not parse as a version. *)
Theorem TidyLibrary_removes_invalid_running_version :
  (launcher_updates running_broken !! "1.0.0" = Some ExeBroken
   ∧ launcher_updates
       (disk_of (TidyLibrary offline binaryLauncher "1.0.0" running_broken))
     !! "1.0.0" = None)
  ∧ (launcher_updates running_unparsed !! "nightly" = Some ExeRunnable
     ∧ launcher_updates
         (disk_of (TidyLibrary offline binaryLauncher "nightly" running_unparsed))
       !! "nightly" = None).
Proof. by vm_compute. Qed.

(** *** Adding *)


Lemma AddToLibrary_installs_only_probed_witness :
  let t := "launcher-1.2.0.tar.gz" in
  let r := AddToLibrary serving binaryLauncher "1.0.0" t meta_two empty_disk in
  (∃ e, e ∈ events_of r ∧ is_install e)
  ∧ result_of r = nil
  ∧ updatesDirectory binaryLauncher (disk_of r)
    = <["1.2.0" := ExeRunnable]> (updatesDirectory binaryLauncher empty_disk).
Proof.
  intros t r.
  assert (∃ e, e ∈ events_of r ∧ is_install e) as H1.
  { exists (EvRename binaryLauncher "1.2.0" true).
    split; [vm_compute; repeat constructor|exact I]. }
  split; [done|].
  exact (proj1 (proj2 (proj2 (proj2
           (AddToLibrary_installs_only_probed serving binaryLauncher "1.0.0" t
              meta_two empty_disk)))) H1).
Defined.

(** C5 fails as stated: a download that does not verify is made again by
    the second call, so the two calls download twice. *)
Lemma AddToLibrary_retries_failed_download :
  ¬ exactly_one_download serving binaryLauncher "1.0.0" "launcher-1.2.0.tar.gz"
      meta_other empty_disk.
Proof. unfold exactly_one_download. vm_compute. discriminate. Qed.

Lemma AddToLibrary_idempotent_after_success_witness :
  let t := "launcher-1.2.0.tar.gz" in
  let r1 := AddToLibrary serving binaryLauncher "1.0.0" t meta_two empty_disk in
  let r2 := AddToLibrary offline binaryLauncher "1.0.0" t meta_two (disk_of r1) in
  result_of r1 = nil
  ∧ downloads (events_of r1) ≤ 1
  ∧ result_of r2 = nil ∧ disk_of r2 = disk_of r1 ∧ downloads (events_of r2) = 0.
Proof.
  intros t r1 r2.
  assert (result_of r1 = nil) as H1 by (by vm_compute).
  destruct (AddToLibrary_idempotent_after_success serving offline binaryLauncher
              "1.0.0" t meta_two empty_disk) as (_ & Hle & Hsecond).
  split; [done|]. split; [done|]. exact (Hsecond H1).
Defined.


(** C8 fails as stated: on an early return of [AddToLibrary] the purge
    does not run (the call only takes and releases the lock), and an
    archive left in the staging directory stays there, on a host that
    removes reliably. *)
Lemma AddToLibrary_early_return_skips_purge :
  let r := AddToLibrary offline binaryLauncher "1.0.0" "launcher-1.0.0.tar.gz"
             meta_two leftover in
  removes_reliably offline
  ∧ result_of r = nil
  ∧ events_of r = [EvLock binaryLauncher; EvUnlock binaryLauncher]
  ∧ staging (disk_of r) = staging leftover
  ∧ staging leftover !! "osqueryd-5.0.0.tar.gz" = Some (StagedFile [x01]).
Proof. split; [by split|]. by vm_compute. Qed.

Lemma tidyStagedUpdates_purges_shared_staging_witness :
  removes_reliably offline
  ∧ staging (disk_of (tidyStagedUpdates offline binaryLauncher leftover)) = ∅.
Proof.
  assert (removes_reliably offline) as H1 by (by split).
  split; [done|].
  exact (proj1 (proj2 (proj2
           (tidyStagedUpdates_purges_shared_staging offline binaryLauncher
              "1.0.0" "launcher-1.0.0.tar.gz" meta_two leftover))) H1).
Defined.

(** *** The Windows permission check *)

(** C10.  When [os.Stat] fails with an error other than non-existence,
    the check, on any path but the empty one, calls [IsDir] on the nil
    [FileInfo] and panics; the case that handles the error comes after
    that call in the [switch]. *)
Theorem checkExecutablePermissions_panics_on_stat_error (path msg : string) :
  helpers_windows.checkExecutablePermissions
    (λ _, helpers_windows.StatErr (helpers_windows.ErrOther msg)) path
  = if String.eqb path ""
    then Returns (errors_New "empty string isn't executable")
    else Panics "invalid memory address or nil pointer dereference".
Proof.
  unfold helpers_windows.checkExecutablePermissions.
  destruct (String.eqb path "") eqn:Hpath; [reflexivity|].
  simpl. reflexivity.
Qed.

(** The same at a concrete path: access to [launcher.exe] is denied. *)
Example checkExecutablePermissions_access_denied :
  helpers_windows.checkExecutablePermissions
    (λ _, helpers_windows.StatErr (helpers_windows.ErrOther "Access is denied."))
    "launcher.exe"
  = Panics "invalid memory address or nil pointer dereference".
Proof. reflexivity. Qed.
(** ** Further properties of the update library manager *)

(** *** Runs of composed computations *)

Lemma events_bind {A B} (m : M A) (f : A → M B) (d : Disk) :
  events_of ((m ≫= f) d)
  = events_of (m d) ++ events_of (f (result_of (m d)) (disk_of (m d))).
Proof.
  unfold mbind, M_bind, events_of, result_of, disk_of.
  destruct (m d) as [[a d1] t1]. simpl. by destruct (f a d1) as [[b d2] t2].
Qed.

Lemma disk_bind {A B} (m : M A) (f : A → M B) (d : Disk) :
  disk_of ((m ≫= f) d) = disk_of (f (result_of (m d)) (disk_of (m d))).
Proof.
  unfold mbind, M_bind, events_of, result_of, disk_of.
  destruct (m d) as [[a d1] t1]. simpl. by destruct (f a d1) as [[b d2] t2].
Qed.

Lemma result_bind {A B} (m : M A) (f : A → M B) (d : Disk) :
  result_of ((m ≫= f) d) = result_of (f (result_of (m d)) (disk_of (m d))).
Proof.
  unfold mbind, M_bind, events_of, result_of, disk_of.
  destruct (m d) as [[a d1] t1]. simpl. by destruct (f a d1) as [[b d2] t2].
Qed.

Lemma emits_only_ret {A} (P : Event → Prop) (a : A) : emits_only P (mret a).
Proof. intros d e He. by apply elem_of_nil in He. Qed.

Lemma emits_only_bind {A B} (P : Event → Prop) (m : M A) (f : A → M B) :
  emits_only P m → (∀ a, emits_only P (f a)) → emits_only P (m ≫= f).
Proof.
  intros Hm Hf d e. rewrite events_bind, elem_of_app.
  intros [He|He]; [by eapply Hm|by eapply Hf].
Qed.

Lemma emits_only_emit (P : Event → Prop) (e : Event) :
  P e → emits_only P (emit e).
Proof. intros He d e' ->%list_elem_of_singleton. done. Qed.

Lemma emits_only_get_disk (P : Event → Prop) : emits_only P get_disk.
Proof. intros d e He. by apply elem_of_nil in He. Qed.

Lemma emits_only_put_disk (P : Event → Prop) d' : emits_only P (put_disk d').
Proof. intros d e He. by apply elem_of_nil in He. Qed.

Lemma emits_only_for_range {A} (P : Event → Prop) (l : list A) (f : A → M unit) :
  (∀ x, emits_only P (f x)) → emits_only P (for_range l f).
Proof.
  intros Hf. induction l as [|x l IH]; [apply emits_only_ret|].
  simpl. apply emits_only_bind; [apply Hf|]. by intros _.
Qed.

Lemma locks_held_app held (t1 t2 : list Event) :
  locks_held held (t1 ++ t2) = locks_held (locks_held held t1) t2.
Proof.
  revert held. induction t1 as [|e t1 IH]; intros held; [done|].
  destruct e; simpl; by rewrite IH.
Qed.

(** A sequence of events that takes the lock of a binary first, releases
    it last and has no other lock operation leaves no lock held. *)
Lemma locks_held_bracket binary (mid : list Event) :
  (∀ e, e ∈ mid → ¬ is_lock_event e) →
  locks_held [] (EvLock binary :: mid ++ [EvUnlock binary]) = [].
Proof.
  intros Hmid. cbn [locks_held]. rewrite locks_held_app.
  rewrite (locks_held_no_lock _ _ Hmid). cbn [locks_held].
  by rewrite filter_cons_False by (by intros ?).
Qed.

Lemma tidy_event_not_lock binary e : is_tidy_event binary e → ¬ is_lock_event e.
Proof. destruct e; simpl; tauto. Qed.

Section more_add.

Context (h : Host).

(** X1. [AddToLibrary] takes the lock of its binary first and releases it
    last, on each of its exits, and performs no other lock operation: no
    lock is held when it returns. *)
Theorem AddToLibrary_lock_discipline binary currentVersion t meta d :
  let r := AddToLibrary h binary currentVersion t meta d in
  (∃ mid, events_of r = EvLock binary :: mid ++ [EvUnlock binary]
          ∧ ∀ e, e ∈ mid → ¬ is_lock_event e)
  ∧ locks_held [] (events_of r) = [].
Proof.
  intros r.
  assert (∃ mid, events_of r = EvLock binary :: mid ++ [EvUnlock binary]
                 ∧ ∀ e, e ∈ mid → ¬ is_lock_event e) as Hmid.
  { subst r. rewrite AddToLibrary_run. cbv zeta.
    destruct (String.eqb _ _).
    { exists []. split; [done|]. by intros e ?%elem_of_nil. }
    case_bool_decide.
    { eexists [_]. split; [done|].
      intros e ->%list_elem_of_singleton. by intros []. }
    eexists (_ :: _ ++ _). split; [unfold events_of; simpl; by rewrite <- app_assoc|].
    intros e [->|He]%elem_of_cons; [by intros []|].
    apply elem_of_app in He as [He|He].
    - by eapply stageThenMove_no_lock.
    - by eapply purge_events_not_lock. }
  split; [done|].
  destruct Hmid as (mid & -> & Hmid). by apply locks_held_bracket.
Qed.

End more_add.

(** *** What tidying does, on every host *)

Section more_tidy.

Context `{Sorter} (h : Host).

Lemma emits_only_os_RemoveAll (P : Event → Prop) loc :
  (∀ ok, P (EvRemoveAll loc ok)) → emits_only P (os_RemoveAll h loc).
Proof.
  intros HP. unfold os_RemoveAll. destruct (RemoveAll_err h loc).
  - apply emits_only_bind; [by apply emits_only_emit|intros; apply emits_only_ret].
  - apply emits_only_bind; [apply emits_only_get_disk|intros d].
    apply emits_only_bind; [apply emits_only_put_disk|intros].
    apply emits_only_bind; [by apply emits_only_emit|intros; apply emits_only_ret].
Qed.

Lemma emits_only_filepath_Glob (P : Event → Prop) dir :
  (∀ ok, P (EvGlob dir ok)) → emits_only P (filepath_Glob h dir).
Proof.
  intros HP. unfold filepath_Glob. destruct (Glob_err h dir).
  - apply emits_only_bind; [by apply emits_only_emit|intros; apply emits_only_ret].
  - apply emits_only_bind; [apply emits_only_get_disk|intros d].
    apply emits_only_bind; [by apply emits_only_emit|intros; apply emits_only_ret].
Qed.

Lemma emits_only_CheckExecutable (P : Event → Prop) loc :
  (∀ ok, P (EvCheckExecutable loc ok)) → emits_only P (CheckExecutable loc).
Proof.
  intros HP d e. rewrite CheckExecutable_run. unfold events_of. simpl.
  by intros ->%list_elem_of_singleton.
Qed.

Lemma emits_only_removeUpdate binary n :
  emits_only (is_tidy_event binary) (removeUpdate h binary n).
Proof.
  unfold removeUpdate. apply emits_only_bind; [|intros; apply emits_only_ret].
  by apply emits_only_os_RemoveAll.
Qed.

Lemma emits_only_tidyStagedUpdates binary b' :
  emits_only (is_tidy_event binary) (tidyStagedUpdates h b').
Proof.
  intros d e. rewrite tidyStagedUpdates_run. unfold events_of. simpl.
  by intros [[ok ->]|(n & ok & ->)]%purge_events_shape.
Qed.

Lemma emits_only_classifyVersions binary names :
  emits_only (is_tidy_event binary) (classifyVersions binary names).
Proof.
  induction names as [|n names IH]; [apply emits_only_ret|].
  simpl. destruct (NewVersion n).
  - apply emits_only_bind; [by apply emits_only_CheckExecutable|intros err].
    apply emits_only_bind; [done|intros [vs inv]].
    destruct (negb (is_nil err)); apply emits_only_ret.
  - apply emits_only_bind; [done|intros [vs inv]]. apply emits_only_ret.
Qed.

Lemma emits_only_sortedVersionsInLibrary binary :
  emits_only (is_tidy_event binary) (sortedVersionsInLibrary h binary).
Proof.
  unfold sortedVersionsInLibrary.
  apply emits_only_bind; [by apply emits_only_filepath_Glob|intros [names|]].
  - apply emits_only_bind; [apply emits_only_classifyVersions|intros [vs inv]].
    apply emits_only_ret.
  - apply emits_only_ret.
Qed.

Lemma emits_only_pruneVersions binary cur kept l :
  emits_only (is_tidy_event binary) (pruneVersions h binary cur kept l).
Proof.
  revert kept. induction l as [|v l IH]; intros kept; [apply emits_only_ret|].
  cbn [pruneVersions]. destruct (String.eqb v cur); [apply IH|].
  destruct (numberOfVersionsToKeep - 1 <=? kept); [|apply IH].
  apply emits_only_bind; [apply emits_only_removeUpdate|intros; apply IH].
Qed.

Lemma emits_only_tidyUpdateLibrary binary cur :
  emits_only (is_tidy_event binary) (tidyUpdateLibrary h binary cur).
Proof.
  unfold tidyUpdateLibrary. destruct (String.eqb cur ""); [apply emits_only_ret|].
  apply emits_only_bind; [apply emits_only_sortedVersionsInLibrary|].
  intros [[vs inv] err]. destruct (negb (is_nil err)); [apply emits_only_ret|].
  apply emits_only_bind;
    [apply emits_only_for_range, emits_only_removeUpdate|intros _].
  destruct (length vs <=? numberOfVersionsToKeep);
    [apply emits_only_ret|apply emits_only_pruneVersions].
Qed.

(** X2. [TidyLibrary] takes the lock of its binary first and releases it
    last; in between it only globs the staging directory and the library
    of that binary, probes versions of that library, and removes staged
    entries and versions of that library.  It neither downloads nor
    installs, and no lock is held when it returns. *)
Theorem TidyLibrary_events binary currentVersion d :
  let r := TidyLibrary h binary currentVersion d in
  (∃ mid, events_of r = EvLock binary :: mid ++ [EvUnlock binary]
          ∧ ∀ e, e ∈ mid → is_tidy_event binary e)
  ∧ locks_held [] (events_of r) = [].
Proof.
  intros r.
  assert (∃ mid, events_of r = EvLock binary :: mid ++ [EvUnlock binary]
                 ∧ ∀ e, e ∈ mid → is_tidy_event binary e) as Hmid.
  { subst r. unfold TidyLibrary. rewrite !events_bind.
    eexists (_ ++ _). split.
    { change (events_of (Lock binary d)) with [EvLock binary].
      change (events_of (Unlock binary ?d')) with [EvUnlock binary].
      by rewrite <- app_assoc. }
    intros e [He|He]%elem_of_app.
    - by eapply emits_only_tidyStagedUpdates.
    - by eapply emits_only_tidyUpdateLibrary. }
  split; [done|].
  destruct Hmid as (mid & -> & Hmid). apply locks_held_bracket.
  intros e He. by eapply tidy_event_not_lock, Hmid.
Qed.

End more_tidy.

Lemma length_filter_partition {A} (P : A → Prop) `{!∀ x, Decision (P x)}
    (l : list A) :
  length (filter P l) + length (filter (λ x, ¬ P x) l) = length l.
Proof.
  induction l as [|x l IH]; [done|].
  destruct (decide (P x)).
  - rewrite (filter_cons_True P) by done.
    rewrite (filter_cons_False (λ x, ¬ P x)) by tauto. simpl. lia.
  - rewrite (filter_cons_False P) by done.
    rewrite (filter_cons_True (λ x, ¬ P x)) by done. simpl. lia.
Qed.

Lemma length_filter_others_ge (cur : string) (l : list string) :
  NoDup l → length l - 1 ≤ length (filter (λ v, v ≠ cur) l).
Proof.
  intros Hnd. destruct (decide (cur ∈ l)) as [Hin|Hout].
  - by rewrite length_filter_others.
  - rewrite filter_all; [lia|]. apply Forall_forall. by intros x Hx ->.
Qed.

Section more_tidy_disk.

Context `{Sorter} (h : Host).

Lemma TidyLibrary_disk binary cur d :
  disk_of (TidyLibrary h binary cur d)
  = disk_of (tidyUpdateLibrary h binary cur
               (set_staging (purge_staging h (staging d)) d)).
Proof.
  unfold TidyLibrary. rewrite !disk_bind.
  change (disk_of (Lock binary d)) with d.
  rewrite tidyStagedUpdates_run.
  change (disk_of (tt, ?d', ?t)) with d'.
  by destruct (tidyUpdateLibrary _ _ _ _) as [[[] d2] t2].
Qed.

(** Whatever the host does, [tidyUpdateLibrary] only removes versions
    from the library of its binary. *)
Lemma tidyUpdateLibrary_removes binary cur d :
  ∃ names, disk_of (tidyUpdateLibrary h binary cur d)
    = set_updates binary
        (remove_versions h binary names (updatesDirectory binary d)) d.
Proof.
  destruct (decide (cur = "")) as [->|Hcur].
  { exists []. unfold tidyUpdateLibrary. simpl. by rewrite set_updates_id. }
  destruct (Glob_err h (UpdatesDir binary)) eqn:Hg.
  { exists []. unfold tidyUpdateLibrary, sortedVersionsInLibrary, filepath_Glob.
    rewrite (proj2 (String.eqb_neq _ _) Hcur), Hg. run.
    by rewrite set_updates_id. }
  destruct (tidyUpdateLibrary_run h binary cur d Hcur Hg) as [evs ->].
  unfold disk_of. simpl.
  destruct (_ <=? _); [by eexists|].
  rewrite <- remove_versions_app. by eexists.
Qed.

Lemma remove_versions_subseteq binary names (m : gmap string Executable) :
  remove_versions h binary names m ⊆ m.
Proof.
  apply map_subseteq_spec. intros k e. rewrite remove_versions_lookup.
  by case_bool_decide.
Qed.

Lemma purge_staging_subseteq (m : gmap string Staged) : purge_staging h m ⊆ m.
Proof.
  unfold purge_staging. destruct (Glob_err h StagingDir); [done|].
  apply map_filter_subseteq.
Qed.

(** X3. On every host and for every running version, [TidyLibrary] only
    removes: what it leaves of the library of its binary and of the
    staging directory is part of what was there, with the same content,
    and the library of the other binary is as before. *)
Theorem TidyLibrary_only_removes binary currentVersion d :
  let d' := disk_of (TidyLibrary h binary currentVersion d) in
  updatesDirectory binary d' ⊆ updatesDirectory binary d
  ∧ (∀ b', b' ≠ binary → updatesDirectory b' d' = updatesDirectory b' d)
  ∧ staging d' ⊆ staging d.
Proof.
  intros d'. subst d'. rewrite TidyLibrary_disk.
  destruct (tidyUpdateLibrary_removes binary currentVersion
              (set_staging (purge_staging h (staging d)) d)) as [names ->].
  rewrite updatesDirectory_set_updates, staging_set_updates,
    updatesDirectory_set_staging.
  split; [apply remove_versions_subseteq|]. split.
  - intros b' Hb'.
    by rewrite updatesDirectory_set_updates_ne, updatesDirectory_set_staging.
  - simpl. apply purge_staging_subseteq.
Qed.

(** [tidyUpdateLibrary] for a running version, on a host that removes
    reliably: every version it leaves is valid, and it leaves at most
    three. *)
Lemma tidyUpdateLibrary_leaves_valid binary cur d :
  cur ≠ "" → removes_reliably h →
  let L' := updatesDirectory binary (disk_of (tidyUpdateLibrary h binary cur d)) in
  (∀ n e, L' !! n = Some e → valid_entry n e) ∧ size L' ≤ 3.
Proof.
  intros Hcur Hrel L'. subst L'. pose proof Hrel as [Hglob Hrm].
  destruct (tidyUpdateLibrary_run h binary cur d Hcur (Hglob _)) as [evs ->].
  unfold disk_of. cbn [fst snd]. rewrite updatesDirectory_set_updates.
  set (L := updatesDirectory binary d).
  set (names := (map_to_list L).*1).
  set (inv := invalid_versions L names).
  set (L1 := remove_versions h binary inv L).
  set (sorted := Original <$> sort_Sort (valid_versions L names)).
  assert (∀ n, n ∈ names ↔ is_Some (L !! n)) as Hnames.
  { intros n. unfold names. rewrite list_elem_of_fmap. split.
    - intros ([n' e] & -> & He%elem_of_map_to_list). by eexists.
    - intros [e He]. exists (n, e). split; [done|].
      by apply elem_of_map_to_list. }
  assert (NoDup names) as Hnd by apply NoDup_fst_map_to_list.
  assert (∀ k, L1 !! k = if bool_decide (k ∈ inv) then None else L !! k) as HL1
    by (intros k; by apply remove_versions_reliable).
  assert (sorted ≡ₚ filter (λ n, valid_version L n ≠ None) names) as Hperm.
  { unfold sorted. by rewrite sort_Sort_perm, Original_valid_versions. }
  assert (∀ k, k ∈ sorted ↔ is_Some (L1 !! k)) as Hsorted.
  { intros k. rewrite Hperm, list_elem_of_filter, HL1, Hnames.
    unfold inv, invalid_versions. case_bool_decide as Hk.
    - apply list_elem_of_filter in Hk as [Hk _]. split; [tauto|].
      by intros [? ?].
    - rewrite list_elem_of_filter, Hnames in Hk.
      split; [tauto|]. intros HLk. split; [|done]. tauto. }
  assert (∀ k e, L1 !! k = Some e → valid_entry k e) as Hvalid.
  { intros k e Hk. assert (k ∈ sorted) as Hin by (apply Hsorted; by eexists).
    rewrite Hperm in Hin. apply list_elem_of_filter in Hin as [Hv _].
    destruct (valid_version L k) as [v|] eqn:Hvk; [|done].
    apply valid_version_Some in Hvk as (HLk & Hnv & _).
    rewrite HL1 in Hk. case_bool_decide; [done|].
    split; [congruence|by eexists]. }
  assert (NoDup sorted) as Hnds.
  { rewrite Hperm. by apply NoDup_filter. }
  assert (size L1 ≤ length sorted) as Hsize.
  { rewrite <- length_map_to_list, <- (length_fmap fst).
    apply submseteq_length, NoDup_submseteq; [apply NoDup_fst_map_to_list|].
    intros k ([k' e] & -> & He%elem_of_map_to_list)%list_elem_of_fmap.
    apply Hsorted. by eexists. }
  change numberOfVersionsToKeep with 3.
  destruct (length sorted <=? 3) eqn:Hlen.
  - apply Nat.leb_le in Hlen. split; [done|lia].
  - apply Nat.leb_gt in Hlen.
    set (gone := pruned cur 0 (reverse sorted)).
    split.
    + intros n e Hn. apply Hvalid.
      by eapply lookup_weaken; [|apply remove_versions_subseteq].
    + rewrite size_remove_versions; [|done| |].
      * unfold gone. rewrite length_pruned.
        pose proof (length_filter_others_ge cur (reverse sorted)) as Hge.
        rewrite length_reverse in Hge.
        assert (NoDup (reverse sorted)) as Hndr
          by (by rewrite reverse_Permutation).
        specialize (Hge Hndr). lia.
      * eapply sublist_NoDup; [|apply pruned_sublist].
        by rewrite reverse_Permutation.
      * intros n [Hn _]%pruned_elem_of.
        apply Hsorted. by apply elem_of_reverse.
Qed.

(** X4. After [TidyLibrary] for a running version, on a host that globs
    and removes reliably, every version left in the library of the
    binary is valid (its name is a version and its executable passes the
    probe), at most three versions are left, and nothing is staged;
    whatever the library held before. *)
Theorem TidyLibrary_leaves_valid_versions binary currentVersion d :
  currentVersion ≠ "" → removes_reliably h →
  let d' := disk_of (TidyLibrary h binary currentVersion d) in
  (∀ n e, updatesDirectory binary d' !! n = Some e → valid_entry n e)
  ∧ size (updatesDirectory binary d') ≤ 3
  ∧ staging d' = ∅.
Proof.
  intros Hcur Hrel d'. subst d'. rewrite TidyLibrary_disk.
  set (d1 := set_staging _ d).
  destruct (tidyUpdateLibrary_leaves_valid binary currentVersion d1 Hcur Hrel)
    as [Hvalid Hsize].
  split; [done|]. split; [done|].
  destruct (tidyUpdateLibrary_removes binary currentVersion d1) as [names ->].
  rewrite staging_set_updates. unfold d1. simpl.
  by apply purge_staging_reliable.
Qed.

(** A library of at most three valid versions is left as it is. *)
Lemma tidyUpdateLibrary_small_valid binary cur d :
  Glob_err h (UpdatesDir binary) = false →
  (∀ n e, updatesDirectory binary d !! n = Some e → valid_entry n e) →
  size (updatesDirectory binary d) ≤ 3 →
  disk_of (tidyUpdateLibrary h binary cur d) = d.
Proof.
  intros Hg Hvalid Hsize.
  destruct (decide (cur = "")) as [->|Hcur]; [done|].
  destruct (tidyUpdateLibrary_run h binary cur d Hcur Hg) as [evs ->].
  unfold disk_of. cbn [fst snd].
  set (L := updatesDirectory binary d) in *.
  set (names := (map_to_list L).*1).
  assert (∀ n, n ∈ names → valid_version L n ≠ None) as Hall.
  { intros n ([n' e] & -> & He%elem_of_map_to_list)%list_elem_of_fmap.
    destruct (Hvalid _ _ He) as [-> [v Hv]]. simpl.
    unfold valid_version, probe_ok.
    rewrite bool_decide_eq_true_2 by done. by rewrite Hv. }
  assert (invalid_versions L names = []) as ->.
  { unfold invalid_versions. apply filter_none, Forall_forall.
    intros n Hn. by apply Hall. }
  assert (length (Original <$> sort_Sort (valid_versions L names)) = size L)
    as ->.
  { rewrite sort_Sort_perm, Original_valid_versions.
    rewrite filter_all by (by apply Forall_forall).
    unfold names. by rewrite length_fmap, length_map_to_list. }
  change numberOfVersionsToKeep with 3.
  rewrite (proj2 (Nat.leb_le _ _) Hsize). cbn [remove_versions foldl].
  apply set_updates_id.
Qed.

(** X5. On a host that globs and removes reliably, tidying twice is
    tidying once: a second [TidyLibrary] with the same arguments leaves
    the disk as the first one left it. *)
Theorem TidyLibrary_idempotent binary currentVersion d :
  removes_reliably h →
  let d1 := disk_of (TidyLibrary h binary currentVersion d) in
  disk_of (TidyLibrary h binary currentVersion d1) = d1.
Proof.
  intros Hrel d1. pose proof Hrel as [Hglob Hrm].
  assert (staging d1 = ∅) as Hst.
  { subst d1. rewrite TidyLibrary_disk.
    destruct (tidyUpdateLibrary_removes binary currentVersion
                (set_staging (purge_staging h (staging d)) d)) as [names ->].
    rewrite staging_set_updates. simpl. by apply purge_staging_reliable. }
  rewrite TidyLibrary_disk.
  rewrite (purge_staging_reliable h _ Hrel), <- Hst, set_staging_id.
  destruct (decide (currentVersion = "")) as [->|Hcur]; [done|].
  apply tidyUpdateLibrary_small_valid; [done| |].
  - subst d1. rewrite TidyLibrary_disk.
    by apply tidyUpdateLibrary_leaves_valid.
  - subst d1. rewrite TidyLibrary_disk.
    by apply tidyUpdateLibrary_leaves_valid.
Qed.

End more_tidy_disk.

(** *** What adding to the library guarantees *)

Section more_add_disk.

Context (h : Host).

Lemma Available_run binary t d :
  Available binary t d
  = (bool_decide (executableLocation
                    (InLibrary binary (versionFromTarget binary t)) d
                  = ExeRunnable),
     d,
     [EvCheckExecutable (InLibrary binary (versionFromTarget binary t))
        (bool_decide (executableLocation
                        (InLibrary binary (versionFromTarget binary t)) d
                      = ExeRunnable))]).
Proof.
  unfold Available, pathToTargetVersionExecutable.
  erewrite run_bind by apply CheckExecutable_run.
  unfold result_of, disk_of, events_of. simpl. by case_bool_decide.
Qed.

(** X6. The result of [AddToLibrary] tells whether the update is there:
    when it returns nil, the target names the running version or is
    available in the library afterwards (its executable passes the
    probe); when it returns an error, the target is not the running
    version, is not available afterwards, and the library is as it was. *)
Theorem AddToLibrary_nil_iff_available binary currentVersion t meta d :
  let v := versionFromTarget binary t in
  let r := AddToLibrary h binary currentVersion t meta d in
  (result_of r = nil →
     currentVersion = v ∨ result_of (Available binary t (disk_of r)) = true)
  ∧ (result_of r ≠ nil →
       currentVersion ≠ v
       ∧ result_of (Available binary t (disk_of r)) = false
       ∧ ∀ b', updatesDirectory b' (disk_of r) = updatesDirectory b' d).
Proof.
  intros v r.
  destruct (AddToLibrary_outcomes h binary currentVersion t meta d)
    as [Hother Hcases].
  fold v r in Hother, Hcases.
  rewrite Available_run. fold v. unfold result_of at 2 4. cbn [fst].
  destruct Hcases as [[Hcur Hr]|[(Hcur & Hexe & Hr)|[Hfail|Hok]]].
  - rewrite Hr. split; [by left|done].
  - rewrite Hr. split; [|done]. intros _. right.
    by apply bool_decide_eq_true_2.
  - destruct Hfail as (Hcur & Hexe & Herr & Hlib & _).
    split; [done|]. intros _. split; [done|].
    assert (∀ b', updatesDirectory b' (disk_of r) = updatesDirectory b' d) as Hall.
    { intros b'. destruct (decide (b' = binary)) as [->|Hne]; [done|].
      by apply Hother. }
    split; [|done]. apply bool_decide_eq_false_2.
    simpl. rewrite Hall. exact Hexe.
  - destruct Hok as (Hcur & Hexe & Hnil & Hlib & _).
    split; [|done]. intros _. right. apply bool_decide_eq_true_2.
    by eapply executableLocation_installed.
Qed.

(** X7. [AddToLibrary] never removes a version: a version other than the
    one the target names is in the library afterwards exactly as before,
    a directory of the version the target names is still there, and the
    library of the other binary is as before; on every host. *)
Theorem AddToLibrary_keeps_versions binary currentVersion t meta d :
  let v := versionFromTarget binary t in
  let d' := disk_of (AddToLibrary h binary currentVersion t meta d) in
  (∀ n, n ≠ v → updatesDirectory binary d' !! n = updatesDirectory binary d !! n)
  ∧ (is_Some (updatesDirectory binary d !! v) →
       is_Some (updatesDirectory binary d' !! v))
  ∧ (∀ b', b' ≠ binary → updatesDirectory b' d' = updatesDirectory b' d).
Proof.
  intros v d'.
  destruct (AddToLibrary_outcomes h binary currentVersion t meta d)
    as [Hother Hcases].
  fold v in Hcases. subst d'.
  set (r := AddToLibrary h binary currentVersion t meta d) in *.
  split; [|split; [|done]].
  - intros n Hn.
    destruct Hcases as [[_ Hr]|[(_ & _ & Hr)|[Hfail|Hok]]].
    + by rewrite Hr.
    + by rewrite Hr.
    + destruct Hfail as (_ & _ & _ & -> & _). done.
    + destruct Hok as (_ & _ & _ & -> & _). by rewrite lookup_insert_ne.
  - intros Hv.
    destruct Hcases as [[_ Hr]|[(_ & _ & Hr)|[Hfail|Hok]]].
    + by rewrite Hr.
    + by rewrite Hr.
    + destruct Hfail as (_ & _ & _ & -> & _). done.
    + destruct Hok as (_ & _ & _ & -> & _). rewrite lookup_insert_eq. by eexists.
Qed.

(** X8. [moveVerifiedUpdate] changes no staged entry but the directory
    named after the version, and cleans up after itself: when the host
    lets that directory be removed, it is gone on return, success or
    not, unless it could not be made in the first place, in which case
    the disk is as it was. *)
Theorem moveVerifiedUpdate_cleans_up binary t stagedUpdate d :
  let v := versionFromTarget binary t in
  let r := moveVerifiedUpdate h binary t stagedUpdate d in
  RemoveAll_err h (InStaging v) = false →
  (∀ n, n ≠ v → staging (disk_of r) !! n = staging d !! n)
  ∧ (staging (disk_of r) !! v = None
     ∨ (events_of r = [EvMkdirAll v false] ∧ disk_of r = d ∧ result_of r ≠ nil)).
Proof.
  intros v r Hrm. subst r. unfold moveVerifiedUpdate. fold v.
  unfold os_MkdirAll, fsutil_UntarBundle, os_Chmod, CheckExecutable, os_Rename,
    os_RemoveAll.
  rewrite Hrm.
  crunch.
  all: split;
    [intros n Hn;
     by rewrite ?staging_set_updates, ?lookup_delete_ne, ?lookup_insert_ne by done
    |].
  all: try (right; by rewrite ?set_staging_id).
  all: left; by rewrite ?staging_set_updates, ?lookup_delete_eq.
Qed.

End more_add_disk.

Lemma filter_complement_Permutation {A} (P Q : A → Prop)
    `{!∀ x, Decision (P x)} `{!∀ x, Decision (Q x)} (l : list A) :
  (∀ x, Q x ↔ ¬ P x) → filter P l ++ filter Q l ≡ₚ l.
Proof.
  intros HPQ. induction l as [|x l IH]; [done|].
  destruct (decide (P x)) as [HP|HP].
  - rewrite (filter_cons_True P) by done.
    rewrite (filter_cons_False Q) by (rewrite HPQ; tauto).
    simpl. by rewrite IH.
  - rewrite (filter_cons_False P) by done.
    rewrite (filter_cons_True Q) by (by rewrite HPQ).
    by rewrite <- Permutation_middle, IH.
Qed.

Section more_sorted.

Context `{Sorter} (h : Host).

(** The sorted names of the valid versions, in ascending order: none is
    newer than one that comes after it. *)
Lemma sorted_names_ascending (L : gmap string Executable) names :
  StronglySorted not_newer_name
    (Original <$> sort_Sort (valid_versions L names)).
Proof.
  assert (StronglySorted not_newer (sort_Sort (valid_versions L names))) as Hs.
  { apply Sorted_StronglySorted; [|apply sort_Sort_sorted].
    intros u v w. apply not_newer_trans. }
  assert (Forall (λ v, NewVersion (Original v) = Some v)
            (sort_Sort (valid_versions L names))) as Hp.
  { apply Forall_forall. intros v Hv. eapply elem_of_valid_versions.
    by rewrite <- (sort_Sort_perm (valid_versions L names)). }
  induction Hs as [|v l Hl IH Hv]; [constructor|].
  apply Forall_cons in Hp as [Hpv Hp].
  rewrite fmap_cons. constructor; [by apply IH|].
  apply Forall_forall. intros y (u & -> & Hu)%list_elem_of_fmap.
  rewrite Forall_forall in Hv, Hp.
  intros vx vy Hvx Hvy. rewrite Hpv in Hvx. rewrite (Hp u Hu) in Hvy.
  simplify_eq. by apply Hv.
Qed.

(** X9. [sortedVersionsInLibrary] reads the library and leaves the disk
    alone.  When the glob fails it returns an error and no version.
    Otherwise it returns nil and sorts every entry of the library into
    exactly one of its two lists: the first holds the valid entries (the
    name is a version, the executable passes the probe) in ascending
    order of precedence, the second the entries that are not valid. *)
Theorem sortedVersionsInLibrary_partition binary d :
  let L := updatesDirectory binary d in
  let r := sortedVersionsInLibrary h binary d in
  let versions := (result_of r).1.1 in
  let invalid := (result_of r).1.2 in
  let err := (result_of r).2 in
  disk_of r = d
  ∧ (Glob_err h (UpdatesDir binary) = true →
       err ≠ nil ∧ versions = [] ∧ invalid = [])
  ∧ (Glob_err h (UpdatesDir binary) = false →
       err = nil
       ∧ versions ++ invalid ≡ₚ (map_to_list L).*1
       ∧ (∀ n, n ∈ versions → ∃ e, L !! n = Some e ∧ valid_entry n e)
       ∧ (∀ n, n ∈ invalid → ∃ e, L !! n = Some e ∧ ¬ valid_entry n e)
       ∧ StronglySorted not_newer_name versions).
Proof.
  intros L r versions invalid err. subst versions invalid err r.
  destruct (Glob_err h (UpdatesDir binary)) eqn:Hg.
  { unfold sortedVersionsInLibrary, filepath_Glob. rewrite Hg. run.
    split; [done|]. split; [done|]. by intros ?. }
  destruct (sortedVersionsInLibrary_run h binary d Hg) as [evs ->].
  fold L. unfold result_of, disk_of. cbn [fst snd].
  set (names := (map_to_list L).*1).
  assert (∀ n, n ∈ names → ∃ e, L !! n = Some e) as Hnames.
  { intros n ([n' e] & -> & He%elem_of_map_to_list)%list_elem_of_fmap.
    by eexists. }
  split; [done|]. split; [by intros ?|]. intros _. split; [done|].
  split; [|split; [|split]].
  - rewrite sort_Sort_perm, Original_valid_versions.
    apply filter_complement_Permutation.
    intros n. split; [by intros -> ?|]. intros Hn.
    by destruct (valid_version L n); [destruct Hn|].
  - intros n. rewrite sort_Sort_perm, Original_valid_versions.
    intros [Hv _]%list_elem_of_filter.
    destruct (valid_version L n) as [v|] eqn:Hvn; [|done].
    apply valid_version_Some in Hvn as (HLn & Hnv & _).
    exists ExeRunnable. split; [done|]. split; [done|by eexists].
  - intros n [Hv Hn]%list_elem_of_filter.
    destruct (Hnames n Hn) as [e He]. exists e. split; [done|].
    intros [-> [v Hnv]]. unfold valid_version, probe_ok in Hv.
    rewrite bool_decide_eq_true_2 in Hv by done. congruence.
  - apply sorted_names_ascending.
Qed.

End more_sorted.

Section more_stage.

Context (h : Host).

(** X10. [stageAndVerifyUpdate] changes nothing on the disk but the
    staged file named after the target.  When it returns nil, it returns
    the path of that file, and the file holds the bytes the mirror
    served, cut at the declared length, which hash to the metadata.
    When the mirror does not serve such bytes, it returns an error and
    leaves the disk as it was. *)
Theorem stageAndVerifyUpdate_stages_verified binary t meta d :
  let r := stageAndVerifyUpdate h binary t meta d in
  (∀ b', updatesDirectory b' (disk_of r) = updatesDirectory b' d)
  ∧ (∀ n, n ≠ t → staging (disk_of r) !! n = staging d !! n)
  ∧ ((result_of r).2 = nil →
       (result_of r).1 = t
       ∧ ∃ body, mirror_Get h binary t = Some body
                 ∧ hashes_to h (bounded body meta) meta
                 ∧ staging (disk_of r) !! t
                   = Some (StagedFile (bounded body meta)))
  ∧ ((∀ body, mirror_Get h binary t = Some body →
               ¬ hashes_to h (bounded body meta) meta) →
       (result_of r).2 ≠ nil ∧ disk_of r = d).
Proof.
  intros r.
  assert ((∀ b', updatesDirectory b' (disk_of r) = updatesDirectory b' d)
          ∧ ∀ n, n ≠ t → staging (disk_of r) !! n = staging d !! n) as [Hlib Hst].
  { subst r. unfold stageAndVerifyUpdate.
    destruct (mirror_Get h binary t) as [body|]; [|by run].
    destruct (GenerateTargetFileMeta h _ _) as [[actual|] fed]; [|by run].
    destruct (TargetFileMetaEqual actual meta); [|by run..].
    unfold os_Create, io_Copy, file_Close.
    crunch.
    all: split; [intros b'; by rewrite ?updatesDirectory_set_staging|].
    all: intros n Hn; by rewrite ?lookup_insert_ne. }
  split; [done|]. split; [done|].
  destruct (mirror_Get h binary t) as [body|] eqn:Hget.
  - destruct (verifies h (io_LimitReader body (Length meta)) meta) eqn:Hver.
    + pose proof Hver as Hhash%verifies_bounded.
      destruct (stageAndVerifyUpdate_verified h binary t meta d body Hget Hver)
        as (p & err & d1 & evs & Hrun & _ & Hcases).
      fold r in Hrun. rewrite Hrun. unfold result_of, disk_of. cbn [fst snd].
      split.
      * intros ->.
        destruct Hcases as [(_ & -> & Hstaged & _)|[Herr _]]; [|done].
        split; [done|]. exists body. split; [done|]. split; [done|].
        by rewrite Hstaged, lookup_insert_eq.
      * intros Hno. by destruct (Hno body).
    + destruct (stageAndVerifyUpdate_rejected h binary t meta d body Hget Hver)
        as (err & fed & evs & Hrun & Herr & _).
      fold r in Hrun. rewrite Hrun. unfold result_of, disk_of. cbn [fst snd].
      split; [done|]. by intros _.
  - destruct (stageAndVerifyUpdate_no_answer h binary t meta d Hget)
      as (err & Hrun & Herr).
    fold r in Hrun. rewrite Hrun. unfold result_of, disk_of. cbn [fst snd].
    split; [done|]. by intros _.
Qed.

(** X11. [Close] holds the lock of every binary while it removes the
    staging directory and has released them all when it returns, also
    when the removal fails.  It leaves the libraries alone and stages
    nothing; it returns nil exactly when the removal succeeded, and then
    nothing is staged any more. *)
Theorem Close_locks_and_clears d :
  let r := Close h d in
  (∃ pre ok post,
      events_of r = pre ++ EvRemoveAll (InStaging "") ok :: post
      ∧ (∀ e, e ∈ pre → ∃ b, e = EvLock b)
      ∧ (∀ b, b ∈ locks_held [] pre)
      ∧ (ok = true ↔ result_of r = nil))
  ∧ locks_held [] (events_of r) = []
  ∧ (∀ b, updatesDirectory b (disk_of r) = updatesDirectory b d)
  ∧ staging (disk_of r) ⊆ staging d
  ∧ (result_of r = nil → staging (disk_of r) = ∅).
Proof.
  intros r. subst r. unfold Close, os_RemoveAll_stagingDir. run.
  destruct (bool_decide _ && negb _) eqn:Hok; run.
  - apply andb_true_iff in Hok as [Hempty%bool_decide_eq_true _].
    split; [|split; [done|split; [by intros []|]]].
    + exists [EvLock binaryLauncher; EvLock binaryOsqueryd]. do 2 eexists.
      split; [done|]. split; [|split; [|done]].
      * intros e He. in_list He; by eexists.
      * intros []; simpl; rewrite !elem_of_cons; tauto.
    + split; [apply map_filter_subseteq|done].
  - split; [|split; [done|split; [by intros []|]]].
    + exists [EvLock binaryLauncher; EvLock binaryOsqueryd]. do 2 eexists.
      split; [done|]. split; [|split; [|done]].
      * intros e He. in_list He; by eexists.
      * intros []; simpl; rewrite !elem_of_cons; tauto.
    + split; [apply map_filter_subseteq|done].
Qed.

End more_stage.

(** *** The permission check on Windows *)

(** X12. [checkExecutablePermissions] accepts a path exactly when the
    path is not empty, [os.Stat] finds a file there that is not a
    directory, and the name ends in [.exe]. *)
Theorem checkExecutablePermissions_nil_iff
    (os_Stat : string → helpers_windows.stat_return) (potentialBinary : string) :
  helpers_windows.checkExecutablePermissions os_Stat potentialBinary = Returns nil
  ↔ potentialBinary ≠ ""
    ∧ os_Stat potentialBinary
      = helpers_windows.StatOk {| helpers_windows.IsDir := false |}
    ∧ strings.HasSuffix potentialBinary ".exe" = true.
Proof.
  unfold helpers_windows.checkExecutablePermissions.
  destruct (String.eqb_spec potentialBinary "") as [->|Hne].
  { split; [done|]. by intros [? _]. }
  destruct (os_Stat potentialBinary) as [[[]]|[]]; simpl.
  - split; [done|]. by intros (_ & ? & _).
  - destruct (strings.HasSuffix potentialBinary ".exe"); simpl.
    + done.
    + split; [done|]. by intros (_ & _ & ?).
  - split; [done|]. by intros (_ & ? & _).
  - split; [done|]. by intros (_ & ? & _).
Qed.

(** X13. [checkExecutablePermissions] returns, with nil or an error,
    exactly when the path is empty or [os.Stat] hands back a [FileInfo]
    or an error for which [os.IsNotExist] holds; on every other failure
    of [os.Stat] it does not return. *)
Theorem checkExecutablePermissions_returns_iff
    (os_Stat : string → helpers_windows.stat_return) (potentialBinary : string) :
  (∃ err, helpers_windows.checkExecutablePermissions os_Stat potentialBinary
          = Returns err)
  ↔ potentialBinary = ""
    ∨ os_Stat potentialBinary = helpers_windows.StatErr helpers_windows.ErrNotExist
    ∨ ∃ fi, os_Stat potentialBinary = helpers_windows.StatOk fi.
Proof.
  unfold helpers_windows.checkExecutablePermissions.
  destruct (String.eqb_spec potentialBinary "") as [->|Hne].
  { split; [by left|]. intros _. by eexists. }
  destruct (os_Stat potentialBinary) as [[[]]|[]]; simpl.
  - split; [intros _; right; right; by eexists|]. intros _. by eexists.
  - split; [intros _; right; right; by eexists|]. intros _.
    destruct (strings.HasSuffix potentialBinary ".exe"); by eexists.
  - split; [intros _; right; by left|]. intros _. by eexists.
  - split; [by intros [? ?]|]. intros [?|[?|[? ?]]]; done.
Qed.

Section more_tidy_errors.

Context `{Sorter} (h : Host).

(** X23. When the library of the binary cannot be globbed, [TidyLibrary]
    gives up on it: the library is as before, and no version is probed
    or removed. *)
Theorem TidyLibrary_glob_failure binary currentVersion d :
  Glob_err h (UpdatesDir binary) = true →
  let r := TidyLibrary h binary currentVersion d in
  updatesDirectory binary (disk_of r) = updatesDirectory binary d
  ∧ ∀ v ok, (EvRemoveAll (InLibrary binary v) ok ∉ events_of r)
            ∧ (EvCheckExecutable (InLibrary binary v) ok ∉ events_of r).
Proof.
  intros Hg r.
  assert (∃ evs, tidyUpdateLibrary h binary currentVersion
                   (set_staging (purge_staging h (staging d)) d)
                 = (tt, set_staging (purge_staging h (staging d)) d, evs)
                 ∧ (evs = [] ∨ evs = [EvGlob (UpdatesDir binary) false]))
    as (evs & Hrun & Hevs).
  { unfold tidyUpdateLibrary, sortedVersionsInLibrary, filepath_Glob.
    rewrite Hg. destruct (String.eqb currentVersion ""); run.
    - eexists. split; [done|by left].
    - eexists. split; [done|by right]. }
  subst r. unfold TidyLibrary.
  erewrite run_bind by reflexivity.
  erewrite run_bind by apply tidyStagedUpdates_run.
  erewrite run_bind by exact Hrun. run.
  split; [by rewrite updatesDirectory_set_staging|].
  intros v ok.
  assert (∀ e, e ∈ purge_events h (staging d) ++ evs ++ [EvUnlock binary] →
               (∃ ok', e = EvGlob StagingDir ok')
               ∨ (∃ n ok', e = EvRemoveAll (InStaging n) ok')
               ∨ e = EvGlob (UpdatesDir binary) false
               ∨ e = EvUnlock binary) as Hshape.
  { intros e. rewrite !elem_of_app.
    intros [He|[He|He]].
    - apply purge_events_shape in He as [?|?]; tauto.
    - destruct Hevs as [-> | ->]; in_list He. tauto.
    - in_list He. tauto. }
  split.
  - intros [Hin|Hin]%elem_of_cons; [done|].
    apply Hshape in Hin as [[? ?]|[(? & ? & ?)|[?|?]]]; done.
  - intros [Hin|Hin]%elem_of_cons; [done|].
    apply Hshape in Hin as [[? ?]|[(? & ? & ?)|[?|?]]]; done.
Qed.

End more_tidy_errors.

Section more_tidy_newest.

Context `{Sorter} (h : Host).

(** X24. [TidyLibrary] never removes the newest valid version: a valid
    version that takes precedence over every other valid version of the
    library is kept, on every host and whatever the running version. *)
Theorem TidyLibrary_keeps_newest_valid_version binary currentVersion d n vn :
  let L := updatesDirectory binary d in
  let L' := updatesDirectory binary
              (disk_of (TidyLibrary h binary currentVersion d)) in
  L !! n = Some ExeRunnable → NewVersion n = Some vn →
  (∀ m vm, m ≠ n → L !! m = Some ExeRunnable → NewVersion m = Some vm →
           LessThan vm vn = true) →
  L' !! n = Some ExeRunnable.
Proof.
  intros L L' Hn Hvn Hnewest. subst L'. rewrite TidyLibrary_disk.
  set (d1 := set_staging _ d).
  assert (updatesDirectory binary d1 = L) as HL
    by apply updatesDirectory_set_staging.
  destruct (decide (currentVersion = "")) as [->|Hcur].
  { unfold tidyUpdateLibrary. simpl. run. by rewrite HL. }
  destruct (Glob_err h (UpdatesDir binary)) eqn:Hg.
  { unfold tidyUpdateLibrary, sortedVersionsInLibrary, filepath_Glob.
    rewrite (proj2 (String.eqb_neq _ _) Hcur), Hg. run. by rewrite HL. }
  destruct (tidyUpdateLibrary_run h binary currentVersion d1 Hcur Hg)
    as [evs ->].
  rewrite HL. unfold disk_of. cbn [fst snd].
  rewrite updatesDirectory_set_updates.
  set (names := (map_to_list L).*1).
  set (sorted := Original <$> sort_Sort (valid_versions L names)).
  assert (valid_version L n = Some vn) as Hvalid.
  { unfold valid_version, probe_ok. by rewrite bool_decide_eq_true_2. }
  assert (remove_versions h binary (invalid_versions L names) L !! n
          = Some ExeRunnable) as H1.
  { rewrite remove_versions_lookup, bool_decide_eq_false_2; [done|].
    intros [Hin _]. unfold invalid_versions in Hin.
    apply list_elem_of_filter in Hin as [Hin _]. congruence. }
  destruct (_ <=? _); [done|].
  rewrite remove_versions_lookup, bool_decide_eq_false_2; [done|].
  intros [Hgone _].
  assert (sorted ≡ₚ filter (λ k, valid_version L k ≠ None) names) as Hperm.
  { unfold sorted. by rewrite sort_Sort_perm, Original_valid_versions. }
  assert (NoDup (reverse sorted)) as Hnd.
  { rewrite reverse_Permutation, Hperm.
    apply NoDup_filter, NoDup_fst_map_to_list. }
  assert (n ∈ reverse sorted) as Hin.
  { by apply pruned_elem_of in Hgone as [? _]. }
  pose proof (sorted_names_descending L names) as Hsorted.
  fold sorted in Hsorted.
  destruct (reverse sorted) as [|x rest] eqn:Hrev;
    [by apply elem_of_nil in Hin|].
  apply StronglySorted_inv in Hsorted as [_ Hx].
  apply NoDup_cons in Hnd as [Hxrest Hnd].
  assert (x = n) as ->.
  { destruct (decide (x = n)) as [|Hne]; [done|]. exfalso.
    apply elem_of_cons in Hin as [->|Hin]; [done|].
    rewrite Forall_forall in Hx. specialize (Hx n Hin).
    assert (x ∈ sorted) as Hxs.
    { apply elem_of_reverse. rewrite Hrev. by left. }
    rewrite Hperm in Hxs. apply list_elem_of_filter in Hxs as [Hxv _].
    destruct (valid_version L x) as [vx|] eqn:Hvx; [|done].
    apply valid_version_Some in Hvx as (HLx & Hnx & _).
    pose proof (Hnewest x vx Hne HLx Hnx) as Hlt.
    pose proof (Hx vn vx Hvn Hnx) as Hge. simpl in Hge. congruence. }
  cbn [pruned] in Hgone.
  destruct (String.eqb n currentVersion).
  - by apply pruned_elem_of in Hgone as [? _].
  - change (2 <=? 0) with false in Hgone.
    by apply pruned_elem_of in Hgone as [? _].
Qed.

End more_tidy_newest.

(** ** Properties of the wix packaging tool *)

Section wix_runs.

Context {World : Type}.

Lemma calls_bind {A B} (m : wix.IO World A) (f : A → wix.IO World B) (w : World) :
  wix.calls_of ((m ≫= f) w)
  = wix.calls_of (m w)
    ++ wix.calls_of (f (wix.value_of (m w)) (wix.world_of (m w))).
Proof.
  unfold mbind, wix.IO_bind, wix.calls_of, wix.value_of, wix.world_of.
  destruct (m w) as [[a w1] t1]. simpl. by destruct (f a w1) as [[b w2] t2].
Qed.

Lemma value_bind {A B} (m : wix.IO World A) (f : A → wix.IO World B) (w : World) :
  wix.value_of ((m ≫= f) w)
  = wix.value_of (f (wix.value_of (m w)) (wix.world_of (m w))).
Proof.
  unfold mbind, wix.IO_bind, wix.calls_of, wix.value_of, wix.world_of.
  destruct (m w) as [[a w1] t1]. simpl. by destruct (f a w1) as [[b w2] t2].
Qed.

Lemma world_bind {A B} (m : wix.IO World A) (f : A → wix.IO World B) (w : World) :
  wix.world_of ((m ≫= f) w)
  = wix.world_of (f (wix.value_of (m w)) (wix.world_of (m w))).
Proof.
  unfold mbind, wix.IO_bind, wix.calls_of, wix.value_of, wix.world_of.
  destruct (m w) as [[a w1] t1]. simpl. by destruct (f a w1) as [[b w2] t2].
Qed.

Lemma value_ret {A} (a : A) (w : World) :
  wix.value_of ((mret a : wix.IO World A) w) = a.
Proof. done. Qed.

Lemma world_ret {A} (a : A) (w : World) :
  wix.world_of ((mret a : wix.IO World A) w) = w.
Proof. done. Qed.

Lemma calls_ret {A} (a : A) (w : World) :
  wix.calls_of ((mret a : wix.IO World A) w) = [].
Proof. done. Qed.

Lemma written_app path (t1 t2 : list wix.Call) :
  wix.written path (t1 ++ t2) = wix.written path t1 +:+ wix.written path t2.
Proof.
  induction t1 as [|c t1 IH]; [done|].
  destruct c; simpl; try done.
  destruct (String.eqb path0 path); [|done].
  by rewrite IH, app_assoc_string.
Qed.

Lemma commands_run_app (t1 t2 : list wix.Call) :
  wix.commands_run (t1 ++ t2) = wix.commands_run t1 ++ wix.commands_run t2.
Proof.
  induction t1 as [|c t1 IH]; [done|]. destruct c; simpl; by rewrite ?IH.
Qed.

Lemma removed_app (t1 t2 : list wix.Call) :
  wix.removed (t1 ++ t2) = wix.removed t1 ++ wix.removed t2.
Proof.
  induction t1 as [|c t1 IH]; [done|]. destruct c; simpl; by rewrite ?IH.
Qed.

Lemma files_written_app (t1 t2 : list wix.Call) :
  wix.files_written (t1 ++ t2) = wix.files_written t1 ++ wix.files_written t2.
Proof.
  induction t1 as [|c t1 IH]; [done|].
  destruct c; simpl; try done. destruct ok; simpl; by rewrite ?IH.
Qed.

End wix_runs.

(** Unfolds the monad of the tool and its calls, then computes. *)
Ltac wix_run :=
  cbv [mbind wix.IO_bind mret wix.IO_ret wix.value_of wix.world_of wix.calls_of
       wix.os_Getenv wix.os_Stat wix.os_MkdirTemp wix.os_WriteFile
       wix.os_RemoveAll wix.cmd_Run wix.os_ReadFile wix.os_Create
       wix.File_WriteString wix.File_Close wix.Service_Match wix.Service_Xml];
  simpl.

Section wix_tool.

Context {World : Type} (sys : wix.Sys World).

(** X14. [isDirectory] only looks: it leaves the world as it is.  It
    returns nil exactly when [os.Stat] finds a directory, and it returns
    at all exactly when [os.Stat] hands back a [FileInfo] or an error for
    which [os.IsNotExist] holds: on any other failure of [os.Stat] it
    calls [IsDir] on a nil [FileInfo]. *)
Theorem isDirectory_outcome (d : string) (w : World) :
  let r := wix.isDirectory sys d w in
  wix.world_of r = w
  ∧ (wix.value_of r = Returns nil
     ↔ wix.sys_Stat sys d w
       = helpers_windows.StatOk {| helpers_windows.IsDir := true |})
  ∧ ((∃ why, wix.value_of r = Panics why)
     ↔ ∃ msg, wix.sys_Stat sys d w
              = helpers_windows.StatErr (helpers_windows.ErrOther msg)).
Proof.
  intros r. subst r. unfold wix.isDirectory. wix_run.
  destruct (wix.sys_Stat sys d w) as [[[]]|[]]; simpl.
  - split; [done|]. split; [done|]. split; [by intros [? ?]|by intros [? ?]].
  - split; [done|]. split; [done|]. split; [by intros [? ?]|by intros [? ?]].
  - split; [done|]. split; [done|]. split; [by intros [? ?]|by intros [? ?]].
  - split; [done|]. split; [done|]. split; by eexists.
Qed.


(** *** The calls of the primitive steps *)

Lemma Service_Match_calls service line w :
  wix.calls_of (wix.Service_Match sys service line w)
  = [wix.CallMatch service line (wix.value_of (wix.Service_Match sys service line w))].
Proof.
  unfold wix.Service_Match, wix.calls_of, wix.value_of.
  by destruct (wix.sys_Match sys service line w).
Qed.

Lemma Service_Xml_calls service path w :
  wix.calls_of (wix.Service_Xml sys service path w)
  = [wix.CallXml service path (wix.value_of (wix.Service_Xml sys service path w))].
Proof.
  unfold wix.Service_Xml, wix.calls_of, wix.value_of.
  by destruct (wix.sys_Xml sys service path w).
Qed.

Lemma os_Create_calls path w :
  wix.calls_of (wix.os_Create sys path w)
  = [wix.CallCreate path (wix.value_of (wix.os_Create sys path w))].
Proof.
  unfold wix.os_Create, wix.calls_of, wix.value_of.
  by destruct (wix.sys_Create sys path w).
Qed.

Lemma os_WriteFile_calls path content w :
  wix.calls_of (wix.os_WriteFile sys path content w)
  = [wix.CallWriteFile path content
       (wix.value_of (wix.os_WriteFile sys path content w))].
Proof.
  unfold wix.os_WriteFile, wix.calls_of, wix.value_of.
  by destruct (wix.sys_WriteFile sys path content w).
Qed.

Lemma os_MkdirTemp_calls pattern w :
  wix.calls_of (wix.os_MkdirTemp sys pattern w)
  = [wix.CallMkdirTemp pattern (wix.value_of (wix.os_MkdirTemp sys pattern w))].
Proof.
  unfold wix.os_MkdirTemp, wix.calls_of, wix.value_of.
  by destruct (wix.sys_MkdirTemp sys pattern w).
Qed.

Lemma cmd_Run_calls cmd w :
  wix.calls_of (wix.cmd_Run sys cmd w)
  = [wix.CallRun cmd
       (bool_decide (is_Some (wix.value_of (wix.cmd_Run sys cmd w))))].
Proof.
  unfold wix.cmd_Run, wix.calls_of, wix.value_of.
  by destruct (wix.sys_Run sys cmd w).
Qed.

(** *** Splitting into lines *)

Lemma append_empty_r (s : string) : s +:+ "" = s.
Proof. induction s as [|c s IH]; [done|]. by rewrite append_cons, IH. Qed.

Lemma strings_Split_nonempty (s : string) (sep : ascii) :
  wix.strings_Split s sep ≠ [].
Proof.
  destruct s as [|c s]; [done|]. simpl.
  destruct (Ascii.eqb c sep); [done|].
  by destruct (wix.strings_Split s sep).
Qed.

(** Writing every piece of a text split at the line feeds, each followed
    by a line feed, gives the text followed by a line feed. *)
Lemma unlines_strings_Split (s : string) :
  wix.unlines (wix.strings_Split s wix.LF) = s +:+ wix.newline.
Proof.
  induction s as [|c s IH]; [done|].
  cbn [wix.strings_Split]. destruct (Ascii.eqb_spec c wix.LF) as [->|Hc].
  - cbn [wix.unlines]. rewrite IH. by rewrite append_nil, !append_cons.
  - destruct (wix.strings_Split s wix.LF) as [|piece pieces] eqn:Hs.
    { by destruct (strings_Split_nonempty s wix.LF). }
    cbn [wix.unlines] in *. by rewrite !append_cons, IH.
Qed.

Lemma unlines_app (l1 l2 : list string) :
  wix.unlines (l1 ++ l2) = wix.unlines l1 +:+ wix.unlines l2.
Proof.
  induction l1 as [|l l1 IH]; [done|].
  cbn [app wix.unlines]. by rewrite IH, !app_assoc_string.
Qed.

(** *** Adding the services *)

Lemma matchServices_calls heatFile line svcs w :
  let r := wix.matchServices sys heatFile line svcs w in
  wix.written heatFile (wix.calls_of r) = ""
  ∧ wix.commands_run (wix.calls_of r) = [].
Proof.
  revert w. induction svcs as [|s svcs IH]; intros w; [done|].
  cbn [wix.matchServices]. cbv zeta.
  rewrite calls_bind, Service_Match_calls.
  destruct (wix.value_of (wix.Service_Match sys s line w)) as [[]|].
  - rewrite calls_bind, Service_Xml_calls.
    destruct (wix.value_of (wix.Service_Xml sys s heatFile _)).
    + cbn [app wix.written wix.commands_run]. apply IH.
    + done.
  - cbn [app wix.written wix.commands_run]. apply IH.
  - done.
Qed.

Lemma File_WriteString_written path s w :
  wix.written path (wix.calls_of (wix.File_WriteString sys path s w)) = s.
Proof.
  unfold wix.File_WriteString, wix.calls_of. simpl.
  by rewrite String.eqb_refl, append_empty_r.
Qed.

(** The loop over the lines writes the lines it gets to, each followed
    by a line feed, and all of them when it returns nil. *)
Lemma rewriteLines_written wo heatFile lines w :
  let r := wix.rewriteLines sys wo heatFile lines w in
  wix.commands_run (wix.calls_of r) = []
  ∧ ∃ k, wix.written heatFile (wix.calls_of r) = wix.unlines (take k lines)
         ∧ (wix.value_of r = nil → take k lines = lines).
Proof.
  revert w. induction lines as [|line lines IH]; intros w.
  { split; [done|]. by exists 0. }
  cbn [wix.rewriteLines]. cbv zeta.
  rewrite !calls_bind, !value_bind, !written_app, !commands_run_app.
  rewrite !File_WriteString_written.
  set (w2 := wix.world_of (wix.File_WriteString sys heatFile wix.newline _)).
  destruct (matchServices_calls heatFile line (wix.services wo) w2) as [Hw Hc].
  cbv zeta in Hw, Hc. rewrite Hw, Hc.
  destruct (negb (is_nil (wix.value_of (wix.matchServices sys heatFile line
                                          (wix.services wo) w2)))) eqn:Herr.
  - split; [done|]. exists 1. split.
    + cbn [take wix.unlines]. by rewrite !append_nil, !append_empty_r.
    + unfold wix.value_of at 1. simpl. intros Hnil.
      by rewrite Hnil in Herr.
  - set (w3 := wix.world_of (wix.matchServices sys heatFile line _ w2)).
    destruct (IH w3) as [Hc' (k & Hk & Hall)]. cbv zeta in Hc', Hk, Hall.
    split; [done|]. exists (S k). split.
    + cbn [take wix.unlines]. by rewrite Hk, !append_nil.
    + intros Hnil. cbn [take]. by rewrite Hall.
Qed.


(** The runs of [addServices]: nothing to do, the file cannot be read,
    it cannot be opened for writing, or its lines are rewritten and the
    file is closed. *)
Lemma addServices_cases wo w :
  let heatFile := wix.filepath_Join sys (wix.buildDir wo) "AppFiles.wxs" in
  let r := wix.addServices sys wo w in
  (wix.services wo = [] ∧ r = (nil, w, []))
  ∨ (wix.services wo ≠ []
     ∧ wix.sys_ReadFile sys heatFile w = None
     ∧ wix.value_of r ≠ nil
     ∧ wix.calls_of r = [wix.CallReadFile heatFile None])
  ∨ (∃ content,
       wix.services wo ≠ []
       ∧ wix.sys_ReadFile sys heatFile w = Some content
       ∧ wix.value_of r ≠ nil
       ∧ wix.calls_of r = [wix.CallReadFile heatFile (Some content);
                           wix.CallCreate heatFile false])
  ∨ (∃ content w1,
       wix.services wo ≠ []
       ∧ wix.sys_ReadFile sys heatFile w = Some content
       ∧ let r1 := wix.rewriteLines sys wo heatFile
                     (wix.strings_Split content wix.LF) w1 in
         wix.value_of r = wix.value_of r1
         ∧ wix.calls_of r
           = wix.CallReadFile heatFile (Some content)
             :: wix.CallCreate heatFile true
             :: wix.calls_of r1 ++ [wix.CallClose heatFile]).
Proof.
  intros heatFile r. subst r. unfold wix.addServices. fold heatFile.
  destruct (wix.services wo) as [|s svcs] eqn:Hs; [by left|].
  right. rewrite bool_decide_eq_false_2 by done.
  rewrite calls_bind, value_bind.
  change (wix.value_of (wix.os_ReadFile sys heatFile w))
    with (wix.sys_ReadFile sys heatFile w).
  change (wix.world_of (wix.os_ReadFile sys heatFile w)) with w.
  change (wix.calls_of (wix.os_ReadFile sys heatFile w))
    with [wix.CallReadFile heatFile (wix.sys_ReadFile sys heatFile w)].
  destruct (wix.sys_ReadFile sys heatFile w) as [content|]; [|by left].
  right. rewrite calls_bind, value_bind, os_Create_calls.
  destruct (wix.value_of (wix.os_Create sys heatFile w)) eqn:Hc.
  - right. exists content, (wix.world_of (wix.os_Create sys heatFile w)).
    split; [done|]. split; [done|]. cbn [negb]. cbv zeta.
    rewrite !calls_bind, !value_bind. by split.
  - left. exists content. by cbn [negb].
Qed.

(** X19. [addServices] touches nothing when the tool has no service.
    Otherwise, when it returns nil, it has written back every line of
    [AppFiles.wxs], in order, each followed by a line feed: the text it
    passes to [WriteString] is the content it read followed by one more
    line feed.  Whatever it returns, that text is a beginning of the
    content followed by a line feed, and a file that was opened for
    writing is closed by the last call. *)
Theorem addServices_rewrites_lines wo w :
  let heatFile := wix.filepath_Join sys (wix.buildDir wo) "AppFiles.wxs" in
  let r := wix.addServices sys wo w in
  (wix.services wo = [] → r = (nil, w, []))
  ∧ (wix.services wo ≠ [] → wix.value_of r = nil →
       ∃ content,
         wix.sys_ReadFile sys heatFile w = Some content
         ∧ wix.written heatFile (wix.calls_of r) = content +:+ wix.newline)
  ∧ (∀ content, wix.sys_ReadFile sys heatFile w = Some content →
       ∃ rest, wix.written heatFile (wix.calls_of r) +:+ rest
               = content +:+ wix.newline)
  ∧ (wix.CallCreate heatFile true ∈ wix.calls_of r →
       ∃ t, wix.calls_of r = t ++ [wix.CallClose heatFile]).
Proof.
  intros heatFile r.
  pose proof (addServices_cases wo w) as Hcases.
  cbv zeta in Hcases. fold heatFile in Hcases. fold r in Hcases.
  destruct Hcases
    as [[Hs Hr]|[(Hs & Hread & Herr & Hcalls)
       |[(content & Hs & Hread & Herr & Hcalls)
        |(content & w1 & Hs & Hread & Hval & Hcalls)]]].
  - split; [done|]. split; [done|]. rewrite Hr. split.
    + intros content _. by exists (content +:+ wix.newline).
    + intros Hin. by apply elem_of_nil in Hin.
  - split; [done|]. split; [done|]. rewrite Hcalls. split.
    + intros content. by rewrite Hread.
    + intros Hin. in_list Hin.
  - split; [done|]. split; [done|]. rewrite Hcalls. split.
    + intros c _. by exists (c +:+ wix.newline).
    + intros Hin. in_list Hin.
  - cbv zeta in Hval, Hcalls.
    destruct (rewriteLines_written wo heatFile
                (wix.strings_Split content wix.LF) w1)
      as [_ (k & Hk & Hall)].
    cbv zeta in Hk, Hall.
    assert (wix.written heatFile (wix.calls_of r)
            = wix.unlines (take k (wix.strings_Split content wix.LF))) as Hw.
    { rewrite Hcalls. cbn [wix.written]. rewrite written_app, Hk.
      cbn [wix.written]. by rewrite append_empty_r. }
    split; [done|]. split; [|split].
    + intros _ Hnil. exists content. split; [done|].
      rewrite Hw, Hall by (by rewrite <- Hval).
      apply unlines_strings_Split.
    + intros c Hc. rewrite Hread in Hc. injection Hc as <-.
      exists (wix.unlines (drop k (wix.strings_Split content wix.LF))).
      by rewrite Hw, <- unlines_app, take_drop, unlines_strings_Split.
    + intros _. rewrite Hcalls. by eexists (_ :: _ :: _).
Qed.




Lemma addServices_commands_run wo w :
  wix.commands_run (wix.calls_of (wix.addServices sys wo w)) = [].
Proof.
  destruct (addServices_cases wo w)
    as [[Hs Hr]|[(Hs & Hread & Herr & Hcalls)
       |[(content & Hs & Hread & Herr & Hcalls)
        |(content & w1 & Hs & Hread & Hval & Hcalls)]]].
  - by rewrite Hr.
  - by rewrite Hcalls.
  - by rewrite Hcalls.
  - cbv zeta in Hcalls. rewrite Hcalls. cbn [wix.commands_run].
    rewrite commands_run_app.
    destruct (rewriteLines_written wo
                (wix.filepath_Join sys (wix.buildDir wo) "AppFiles.wxs")
                (wix.strings_Split content wix.LF) w1) as [-> _].
    done.
Qed.


(** *** Building the package *)

Lemma execOut_run wo argv0 args w :
  let r := wix.execOut sys wo argv0 args w in
  wix.calls_of r
  = [wix.CallRun (wix.execOut_command wo argv0 args) (is_nil (wix.value_of r).2)].
Proof.
  intros r. subst r. unfold wix.execOut.
  rewrite calls_bind, value_bind, cmd_Run_calls.
  by destruct (wix.value_of (wix.cmd_Run sys _ w)).
Qed.

Lemma heat_run wo w :
  wix.calls_of (wix.heat sys wo w)
  = [wix.CallRun
       (wix.execOut_command wo
          (wix.filepath_Join sys (wix.wixPath wo) "heat.exe") (wix.heat_args wo))
       (is_nil (wix.value_of (wix.heat sys wo w)))].
Proof.
  unfold wix.heat. rewrite calls_bind, value_bind, execOut_run.
  by destruct (wix.value_of (wix.execOut sys wo _ _ w)).
Qed.

Lemma candle_run wo w :
  wix.calls_of (wix.candle sys wo w)
  = [wix.CallRun
       (wix.execOut_command wo
          (wix.filepath_Join sys (wix.wixPath wo) "candle.exe")
          (wix.candle_args wo))
       (is_nil (wix.value_of (wix.candle sys wo w)))].
Proof.
  unfold wix.candle. rewrite calls_bind, value_bind, execOut_run.
  by destruct (wix.value_of (wix.execOut sys wo _ _ w)).
Qed.

Lemma light_run wo w :
  wix.calls_of (wix.light sys wo w)
  = [wix.CallRun
       (wix.execOut_command wo
          (wix.filepath_Join sys (wix.wixPath wo) "light.exe")
          (wix.light_args wo))
       (is_nil (wix.value_of (wix.light sys wo w)))].
Proof.
  unfold wix.light. rewrite calls_bind, value_bind, execOut_run.
  by destruct (wix.value_of (wix.execOut sys wo _ _ w)).
Qed.

Lemma execOut_command_Dir wo argv0 args :
  wix.Dir (wix.execOut_command wo argv0 args) = wix.buildDir wo.
Proof. unfold wix.execOut_command. by destruct (negb _). Qed.

(** X20. [Package] runs wix's programs in the order heat, candle, light,
    each through [execOut] in the build directory, and stops at the first
    step that fails: the commands it runs are a beginning of these three,
    and a command that fails is the last one run.  When it returns nil,
    all three have run without error and the path it returns is
    [out.msi] in the build directory, the file light was told to write;
    when it returns an error, the path is empty. *)
Theorem Package_runs_tools_in_order wo w :
  let r := wix.Package sys wo w in
  let runs := wix.commands_run (wix.calls_of r) in
  runs.*1 `prefix_of` wix.tool_commands sys wo
  ∧ (∀ i cmd, runs !! i = Some (cmd, false) → S i = length runs)
  ∧ (∀ cmd ok, (cmd, ok) ∈ runs → wix.Dir cmd = wix.buildDir wo)
  ∧ ((wix.value_of r).2 = nil →
       runs = (λ cmd, (cmd, true)) <$> wix.tool_commands sys wo
       ∧ (wix.value_of r).1
         = wix.filepath_Join sys (wix.buildDir wo) "out.msi")
  ∧ ((wix.value_of r).2 ≠ nil → (wix.value_of r).1 = "").
Proof.
  intros r runs. subst runs r. unfold wix.Package.
  rewrite calls_bind, value_bind, commands_run_app, heat_run.
  destruct (is_nil (wix.value_of (wix.heat sys wo w))) eqn:H1; cbn [negb].
  2: { split; [by eexists|]. split.
       { intros [|i] cmd Hi; by simplify_eq/=. }
       split; [|done]. intros cmd ok Hin. simpl in Hin.
       in_list Hin; simplify_eq/=; apply execOut_command_Dir. }
  rewrite calls_bind, value_bind, commands_run_app, addServices_commands_run.
  destruct (is_nil (wix.value_of (wix.addServices sys wo _))) eqn:H2; cbn [negb].
  2: { split; [by eexists|]. split.
       { intros [|i] cmd Hi; by simplify_eq/=. }
       split; [|done]. intros cmd ok Hin. simpl in Hin.
       in_list Hin; simplify_eq/=; apply execOut_command_Dir. }
  rewrite calls_bind, value_bind, commands_run_app, candle_run.
  destruct (is_nil (wix.value_of (wix.candle sys wo _))) eqn:H3; cbn [negb].
  2: { split; [by eexists|]. split.
       { intros [|[|i]] cmd Hi; by simplify_eq/=. }
       split; [|done]. intros cmd ok Hin. simpl in Hin.
       in_list Hin; simplify_eq/=; apply execOut_command_Dir. }
  rewrite calls_bind, value_bind, commands_run_app, light_run.
  destruct (is_nil (wix.value_of (wix.light sys wo _))) eqn:H4; cbn [negb].
  2: { split; [by exists []|]. split.
       { intros [|[|[|i]]] cmd Hi; by simplify_eq/=. }
       split; [|done]. intros cmd ok Hin. simpl in Hin.
       in_list Hin; simplify_eq/=; apply execOut_command_Dir. }
  split; [by exists []|]. split.
  { intros [|[|[|i]]] cmd Hi; by simplify_eq/=. }
  split; [|done]. intros cmd ok Hin. simpl in Hin.
  in_list Hin; simplify_eq/=; apply execOut_command_Dir.
Qed.


(** *** Making the tool *)

Lemma FindWixInstall_files_written w :
  wix.files_written (wix.calls_of (wix.FindWixInstall sys w)) = []
  ∧ ∀ pattern made,
      wix.CallMkdirTemp pattern made ∉ wix.calls_of (wix.FindWixInstall sys w).
Proof.
  unfold wix.FindWixInstall, wix.isDirectory. wix_run.
  destruct (negb _); simpl; [split; [done|intros ??; not_in_list]|].
  destruct (wix.sys_Stat sys "C:\wix311" w) as [[[]]|[]]; simpl;
    (split; [done|intros ??; not_in_list]).
Qed.

Lemma writeExtraFiles_written dir efs w :
  let r := wix.writeExtraFiles sys dir efs w in
  (∀ pattern made, wix.CallMkdirTemp pattern made ∉ wix.calls_of r)
  ∧ (wix.value_of r = nil →
       wix.files_written (wix.calls_of r)
       = (λ ef, (wix.filepath_Join sys dir (wix.Name ef), wix.Content ef)) <$> efs).
Proof.
  revert w. induction efs as [|ef efs IH]; intros w.
  { split; [|done]. intros ??. by apply not_elem_of_nil. }
  cbn [wix.writeExtraFiles]. cbv zeta.
  rewrite calls_bind, value_bind, os_WriteFile_calls.
  destruct (wix.value_of (wix.os_WriteFile sys _ _ w)).
  - destruct (IH (wix.world_of (wix.os_WriteFile sys
                    (wix.filepath_Join sys dir (wix.Name ef)) (wix.Content ef) w)))
      as [Hno Hw]. cbv zeta in Hno, Hw. split.
    + intros pattern made [Hin|Hin]%elem_of_cons; [done|]. by eapply Hno.
    + intros Hnil. cbn [app wix.files_written fmap list_fmap].
      by rewrite Hw.
  - split; [|done]. intros ??; not_in_list.
Qed.


Lemma New_success root main opts w wo :
  wix.value_of (wix.New sys root main opts w) = Returns (Some wo, nil) →
  ∃ wixInstall,
    let wo0 := wix.configured wixInstall root opts in
    let calls := wix.calls_of (wix.New sys root main opts w) in
    (if String.eqb (wix.buildDir wo0) ""
     then wix.CallMkdirTemp "wix-build-dir" (Some (wix.buildDir wo)) ∈ calls
          ∧ wix.cleanDirs wo = wix.cleanDirs wo0 ++ [wix.buildDir wo]
     else wix.buildDir wo = wix.buildDir wo0
          ∧ wix.cleanDirs wo = wix.cleanDirs wo0)
    ∧ (if String.eqb (wix.msArch wo0) ""
       then (wix.sys_GOARCH sys = "386" ∧ wix.msArch wo = "x86")
            ∨ (wix.sys_GOARCH sys = "amd64" ∧ wix.msArch wo = "x64")
       else wix.msArch wo = wix.msArch wo0)
    ∧ wix.skipCleanup wo = wix.skipCleanup wo0
    ∧ wix.skipValidation wo = wix.skipValidation wo0
    ∧ wix.ui wo = wix.ui wo0
    ∧ wix.files_written calls
      = ((λ ef, (wix.filepath_Join sys (wix.buildDir wo) (wix.Name ef),
                 wix.Content ef)) <$> wix.extraFiles wo0)
        ++ [(wix.filepath_Join sys (wix.buildDir wo) "Installer.wxs", main)].
Proof.
  intros Hval. unfold wix.New in *.
  rewrite value_bind in Hval. rewrite calls_bind.
  destruct (FindWixInstall_files_written w) as [Hfw _].
  rewrite files_written_app, Hfw. clear Hfw.
  destruct (wix.value_of (wix.FindWixInstall sys w)) as [wixInstall|]; [|done].
  exists wixInstall. cbv zeta in *.
  fold (wix.configured wixInstall root opts) in *.
  set (wo0 := wix.configured wixInstall root opts) in *.
  set (w0 := wix.world_of (wix.FindWixInstall sys w)) in *.
  match goal with
  | |- context [mbind ?k (if _ then _ else _)] => set (tail := k) in *
  end.
  assert (∀ wo1 w1,
            wix.value_of (tail (Some wo1) w1) = Returns (Some wo, nil) →
            wo = wix.set_msArch (wix.msArch wo) wo1
            ∧ (if String.eqb (wix.msArch wo1) ""
               then (wix.sys_GOARCH sys = "386" ∧ wix.msArch wo = "x86")
                    ∨ (wix.sys_GOARCH sys = "amd64" ∧ wix.msArch wo = "x64")
               else wix.msArch wo = wix.msArch wo1)
            ∧ wix.files_written (wix.calls_of (tail (Some wo1) w1))
              = ((λ ef, (wix.filepath_Join sys (wix.buildDir wo1) (wix.Name ef),
                         wix.Content ef)) <$> wix.extraFiles wo1)
                ++ [(wix.filepath_Join sys (wix.buildDir wo1) "Installer.wxs",
                     main)]) as Htail.
  { clear Hval. intros wo1 w1. unfold tail.
    destruct (if (wix.msArch wo1 =? "")%string then _ else _)
      as [arch|] eqn:Harch; [|done].
    rewrite calls_bind, value_bind, files_written_app.
    destruct (writeExtraFiles_written (wix.buildDir (wix.set_msArch arch wo1))
                (wix.extraFiles (wix.set_msArch arch wo1)) w1) as [_ Hw].
    cbv zeta in Hw.
    destruct (is_nil (wix.value_of (wix.writeExtraFiles sys _ _ w1))) eqn:Hnil;
      cbn [negb]; [|done].
    rewrite Hw by (by destruct (wix.value_of (wix.writeExtraFiles sys _ _ w1))).
    rewrite calls_bind, value_bind, files_written_app, os_WriteFile_calls.
    destruct (wix.value_of (wix.os_WriteFile sys _ main _)); [|done].
    intros [= <-]. split; [done|]. split; [|done].
    cbn [wix.msArch wix.set_msArch].
    destruct (wix.msArch wo1 =? "")%string; [|by simplify_eq].
    destruct (String.eqb_spec (wix.sys_GOARCH sys) "386");
      [left; by simplify_eq|].
    destruct (String.eqb_spec (wix.sys_GOARCH sys) "amd64");
      [right; by simplify_eq|done]. }
  rewrite value_bind in Hval. rewrite calls_bind, files_written_app.
  destruct (wix.buildDir wo0 =? "")%string eqn:Hbd.
  - rewrite value_bind, world_bind in Hval.
    rewrite value_bind, world_bind, calls_bind, os_MkdirTemp_calls.
    destruct (wix.value_of (wix.os_MkdirTemp sys "wix-build-dir" w0))
      as [dir|]; [|done].
    rewrite !value_ret, !world_ret in Hval.
    rewrite !value_ret, !world_ret, !calls_ret.
    apply Htail in Hval as (Hwo & Harch & Hfiles).
    rewrite Hfiles. rewrite Hwo. cbn.
    split; [split; [|done]|done].
    rewrite !elem_of_app, elem_of_cons. tauto.
  - rewrite !value_ret, !world_ret in Hval.
    rewrite !value_ret, !world_ret, !calls_ret.
    apply Htail in Hval as (Hwo & Harch & Hfiles).
    rewrite Hfiles. rewrite Hwo. cbn. done.
Qed.


Lemma for_each_RemoveAll_removed (dirs : list string) w :
  wix.removed (wix.calls_of (wix.for_each dirs (wix.os_RemoveAll sys) w))
  = dirs.
Proof.
  revert w. induction dirs as [|d dirs IH]; intros w; [done|].
  cbn [wix.for_each]. rewrite calls_bind, removed_app, IH. done.
Qed.

Lemma Cleanup_removed wo w :
  wix.removed (wix.calls_of (wix.Cleanup sys wo w))
  = if wix.skipCleanup wo then [] else wix.cleanDirs wo.
Proof.
  unfold wix.Cleanup. destruct (wix.skipCleanup wo); [done|].
  apply for_each_RemoveAll_removed.
Qed.

End wix_tool.

(** *** The options *)

Lemma configured_snoc wixInstall root opts (o : wix.WixOpt) :
  wix.configured wixInstall root (opts ++ [o])
  = o (wix.configured wixInstall root opts).
Proof. unfold wix.configured. by rewrite foldl_app. Qed.

Lemma configured_app wixInstall root pre post :
  wix.configured wixInstall root (pre ++ post)
  = foldl (λ wo (opt : wix.WixOpt), opt wo)
      (wix.configured wixInstall root pre) post.
Proof. unfold wix.configured. by rewrite foldl_app. Qed.

Lemma foldl_options_invariant (P : wix.wixTool → Prop) opts wo :
  (∀ (o : wix.WixOpt) wo', o ∈ opts → P wo' → P (o wo')) →
  P wo → P (foldl (λ wo (opt : wix.WixOpt), opt wo) wo opts).
Proof.
  revert wo. induction opts as [|o opts IH]; intros wo Hstep Hwo; [done|].
  simpl. apply IH.
  - intros o' wo' Ho'. apply Hstep. by right.
  - apply Hstep; [by left|done].
Qed.

(** What the options of the package leave in the tool. *)
Lemma configured_facts wixInstall root opts :
  Forall wix.provided opts →
  let wo0 := wix.configured wixInstall root opts in
  wix.cleanDirs wo0 = []
  ∧ (wix.skipCleanup wo0 = true ↔ wix.SkipCleanup ∈ opts)
  ∧ (wix.skipValidation wo0 = true ↔ wix.SkipValidation ∈ opts)
  ∧ (wix.ui wo0 = true ↔ wix.WithUI ∈ opts)
  ∧ (∀ ef, ef ∈ wix.extraFiles wo0
           ↔ wix.WithFile (wix.Name ef) (wix.Content ef) ∈ opts)
  ∧ (wix.msArch wo0 = "" ∨ wix.msArch wo0 = "x86" ∨ wix.msArch wo0 = "x64").
Proof.
  induction opts as [|o opts IH] using rev_ind; intros Hprov wo0.
  { subst wo0. cbn. split; [done|].
    split; [split; [done|by intros ?%elem_of_nil]|].
    split; [split; [done|by intros ?%elem_of_nil]|].
    split; [split; [done|by intros ?%elem_of_nil]|].
    split; [|by left].
    intros ef. split; [by intros ?%elem_of_nil|by intros ?%elem_of_nil]. }
  rewrite Forall_app, Forall_singleton in Hprov. destruct Hprov as [Hprov Ho].
  destruct (IH Hprov) as (Hclean & Hskip & Hval & Hui & Hfiles & Harch).
  subst wo0. rewrite configured_snoc.
  set (wo1 := wix.configured wixInstall root opts) in *.
  split; [destruct Ho; exact Hclean|].
  split.
  { rewrite elem_of_app, list_elem_of_singleton, <- Hskip. split.
    - destruct Ho; cbn; tauto.
    - intros [Hin| <-]; [|done]. by destruct Ho. }
  split.
  { rewrite elem_of_app, list_elem_of_singleton, <- Hval. split.
    - destruct Ho; cbn; tauto.
    - intros [Hin| <-]; [|done]. by destruct Ho. }
  split.
  { rewrite elem_of_app, list_elem_of_singleton, <- Hui. split.
    - destruct Ho; cbn; tauto.
    - intros [Hin| <-]; [|done]. by destruct Ho. }
  split.
  { intros ef. rewrite elem_of_app, list_elem_of_singleton, <- Hfiles. split.
    - destruct Ho; cbn; try tauto.
      rewrite elem_of_app, list_elem_of_singleton. intros [?| ->]; [tauto|].
      by right.
    - intros [Hin| <-].
      + destruct Ho; cbn; try done. apply elem_of_app. by left.
      + cbn. apply elem_of_app. right. apply list_elem_of_singleton.
        by destruct ef. }
  destruct Ho; cbn; tauto.
Qed.

(** After an option that sets a field, the field keeps its value as
    long as no option that sets it differently follows. *)
Lemma configured_buildDir wixInstall root pre path post :
  Forall wix.provided post →
  (∀ p, wix.WithBuildDir p ∉ post) →
  wix.buildDir (wix.configured wixInstall root (pre ++ wix.WithBuildDir path :: post))
  = path.
Proof.
  intros Hprov Hlast. rewrite configured_app. cbn [foldl].
  apply (foldl_options_invariant (λ wo, wix.buildDir wo = path)); [|done].
  intros o wo' Ho Hwo'. rewrite Forall_forall in Hprov.
  destruct (Hprov o Ho); try done. by destruct (Hlast path0).
Qed.

Lemma configured_msArch wixInstall root pre (o other : wix.WixOpt) arch post :
  Forall wix.provided post →
  (o = wix.As64bit ∧ other = wix.As32bit ∧ arch = "x64"
   ∨ o = wix.As32bit ∧ other = wix.As64bit ∧ arch = "x86") →
  other ∉ post →
  wix.msArch (wix.configured wixInstall root (pre ++ o :: post)) = arch.
Proof.
  intros Hprov Ho Hlast. rewrite configured_app. cbn [foldl].
  apply (foldl_options_invariant (λ wo, wix.msArch wo = arch)).
  - intros o' wo' Ho' Hwo'. rewrite Forall_forall in Hprov.
    destruct Ho as [(-> & -> & ->)|(-> & -> & ->)];
      destruct (Hprov o' Ho'); done.
  - by destruct Ho as [(-> & -> & ->)|(-> & -> & ->)].
Qed.

Lemma configured_msArch_default wixInstall root opts :
  Forall wix.provided opts →
  wix.As64bit ∉ opts → wix.As32bit ∉ opts →
  wix.msArch (wix.configured wixInstall root opts) = "".
Proof.
  intros Hprov H64 H32.
  apply (foldl_options_invariant (λ wo, wix.msArch wo = "")); [|done].
  intros o wo' Ho Hwo'. rewrite Forall_forall in Hprov.
  destruct (Hprov o Ho); done.
Qed.

(** *** The arguments of light *)

Lemma light_args_flags wo :
  ("-sval" ∈ wix.light_args wo ↔ wix.skipValidation wo = true)
  ∧ ("WixUIExtension" ∈ wix.light_args wo ↔ wix.ui wo = true).
Proof.
  unfold wix.light_args.
  assert ("-sval" ≠ "-dSourceDir=" +:+ wix.packageRoot wo) as Hs
    by (rewrite !append_cons; discriminate).
  assert ("WixUIExtension" ≠ "-dSourceDir=" +:+ wix.packageRoot wo) as Hu
    by (rewrite !append_cons; discriminate).
  destruct (wix.ui wo), (wix.skipValidation wo); cbn [app].
  all: split; (split; [intros Hin|intros ?]); try done.
  all: try (in_list Hin; done).
  all: rewrite !elem_of_cons; tauto.
Qed.

Section wix_new.

Context {World : Type} (sys : wix.Sys World).

(** X15. [Cleanup] after [New] removes at most one directory: the
    temporary build directory that [New] made with [os.MkdirTemp].  It
    removes nothing when [SkipCleanup] was among the options, and
    nothing when the caller named the build directory: with a last
    [WithBuildDir] of a path that is not empty, the tool builds in that
    directory and [Cleanup] leaves it alone. *)
Theorem Cleanup_removes_only_temp_dir root main opts w wo w' :
  Forall wix.provided opts →
  wix.value_of (wix.New sys root main opts w) = Returns (Some wo, nil) →
  let gone := wix.removed (wix.calls_of (wix.Cleanup sys wo w')) in
  (gone = []
   ∨ gone = [wix.buildDir wo]
     ∧ wix.CallMkdirTemp "wix-build-dir" (Some (wix.buildDir wo))
       ∈ wix.calls_of (wix.New sys root main opts w))
  ∧ (wix.SkipCleanup ∈ opts → gone = [])
  ∧ (∀ pre path post,
       opts = pre ++ wix.WithBuildDir path :: post →
       (∀ p, wix.WithBuildDir p ∉ post) → path ≠ "" →
       wix.buildDir wo = path ∧ gone = []).
Proof.
  intros Hprov Hnew gone. subst gone. rewrite Cleanup_removed.
  destruct (New_success sys root main opts w wo Hnew)
    as (wixInstall & Hdir & _ & Hskip & _).
  cbv zeta in Hdir, Hskip.
  destruct (configured_facts wixInstall root opts Hprov)
    as (Hclean & Hskip' & _).
  cbv zeta in Hclean, Hskip'. rewrite Hclean in Hdir.
  split; [|split].
  - destruct (wix.skipCleanup wo); [by left|].
    destruct (_ =? _)%string; [|left; by destruct Hdir].
    right. destruct Hdir as [Hin ->]. done.
  - intros Hin%Hskip'. by rewrite Hskip, Hin.
  - intros pre path post -> Hlast Hpath.
    rewrite Forall_app, Forall_cons in Hprov. destruct Hprov as (_ & _ & Hpost).
    rewrite (configured_buildDir wixInstall root pre path post Hpost Hlast)
      in Hdir.
    rewrite (proj2 (String.eqb_neq _ _) Hpath) in Hdir.
    destruct Hdir as [-> ->]. split; [done|]. by destruct (wix.skipCleanup wo).
Qed.

(** X16. A tool made by [New] has one of the two architectures of wix:
    the one of the last of the options [As64bit] and [As32bit], and
    without such an option the one of [runtime.GOARCH], which then is
    [386] or [amd64]. *)
Theorem New_msArch root main opts w wo :
  Forall wix.provided opts →
  wix.value_of (wix.New sys root main opts w) = Returns (Some wo, nil) →
  (wix.msArch wo = "x86" ∨ wix.msArch wo = "x64")
  ∧ (∀ pre post, opts = pre ++ wix.As64bit :: post → wix.As32bit ∉ post →
       wix.msArch wo = "x64")
  ∧ (∀ pre post, opts = pre ++ wix.As32bit :: post → wix.As64bit ∉ post →
       wix.msArch wo = "x86")
  ∧ (wix.As64bit ∉ opts → wix.As32bit ∉ opts →
       (wix.sys_GOARCH sys = "386" ∧ wix.msArch wo = "x86")
       ∨ (wix.sys_GOARCH sys = "amd64" ∧ wix.msArch wo = "x64")).
Proof.
  intros Hprov Hnew.
  destruct (New_success sys root main opts w wo Hnew)
    as (wixInstall & _ & Harch & _).
  cbv zeta in Harch.
  destruct (configured_facts wixInstall root opts Hprov)
    as (_ & _ & _ & _ & _ & Harch0).
  cbv zeta in Harch0.
  split; [|split; [|split]].
  - destruct (String.eqb_spec (wix.msArch (wix.configured wixInstall root opts)) "")
      as [Heq|Hne].
    + destruct Harch as [[_ ->]|[_ ->]]; [by left|by right].
    + rewrite Harch. destruct Harch0 as [?|[?|?]]; [done|by left|by right].
  - intros pre post -> Hlast.
    rewrite Forall_app, Forall_cons in Hprov. destruct Hprov as (_ & _ & Hpost).
    rewrite (configured_msArch wixInstall root pre wix.As64bit wix.As32bit
               "x64" post Hpost
               (or_introl (conj eq_refl (conj eq_refl eq_refl))) Hlast)
      in Harch.
    exact Harch.
  - intros pre post -> Hlast.
    rewrite Forall_app, Forall_cons in Hprov. destruct Hprov as (_ & _ & Hpost).
    rewrite (configured_msArch wixInstall root pre wix.As32bit wix.As64bit
               "x86" post Hpost
               (or_intror (conj eq_refl (conj eq_refl eq_refl))) Hlast)
      in Harch.
    exact Harch.
  - intros H64 H32.
    by rewrite (configured_msArch_default wixInstall root opts Hprov H64 H32)
      in Harch.
Qed.

(** X17. When [New] returns a tool, the files it has written are the
    files of the [WithFile] options, each under its name in the build
    directory, and then, last, [Installer.wxs] in the build directory
    with the main content. *)
Theorem New_writes_Installer_last root main opts w wo :
  Forall wix.provided opts →
  wix.value_of (wix.New sys root main opts w) = Returns (Some wo, nil) →
  ∃ extras,
    wix.files_written (wix.calls_of (wix.New sys root main opts w))
    = extras ++ [(wix.filepath_Join sys (wix.buildDir wo) "Installer.wxs", main)]
    ∧ ∀ path content,
        (path, content) ∈ extras
        ↔ ∃ name, wix.WithFile name content ∈ opts
                  ∧ path = wix.filepath_Join sys (wix.buildDir wo) name.
Proof.
  intros Hprov Hnew.
  destruct (New_success sys root main opts w wo Hnew)
    as (wixInstall & _ & _ & _ & _ & _ & Hfiles).
  cbv zeta in Hfiles.
  destruct (configured_facts wixInstall root opts Hprov)
    as (_ & _ & _ & _ & Hextra & _).
  cbv zeta in Hextra.
  eexists. split; [exact Hfiles|].
  intros path content. rewrite list_elem_of_fmap. split.
  - intros (ef & [= -> ->] & Hin). exists (wix.Name ef). split; [|done].
    by apply Hextra.
  - intros (name & Hin & ->). exists (wix.mkExtraFile name content).
    split; [done|]. by apply Hextra.
Qed.

(** X18. The options reach the command line of light: for a tool made
    by [New], light is told to skip the validation ([-sval]) exactly when
    [SkipValidation] was among the options, and to link the UI extension
    exactly when [WithUI] was. *)
Theorem New_light_flags root main opts w wo :
  Forall wix.provided opts →
  wix.value_of (wix.New sys root main opts w) = Returns (Some wo, nil) →
  ("-sval" ∈ wix.light_args wo ↔ wix.SkipValidation ∈ opts)
  ∧ ("WixUIExtension" ∈ wix.light_args wo ↔ wix.WithUI ∈ opts).
Proof.
  intros Hprov Hnew.
  destruct (New_success sys root main opts w wo Hnew)
    as (wixInstall & _ & _ & _ & Hval & Hui & _).
  cbv zeta in Hval, Hui.
  destruct (configured_facts wixInstall root opts Hprov)
    as (_ & _ & Hval' & Hui' & _).
  cbv zeta in Hval', Hui'.
  destruct (light_args_flags wo) as [Hs Hu].
  by rewrite Hs, Hu, Hval, Hui.
Qed.

End wix_new.

(** ** Properties of the conversion of results *)

Section service_facts.

Context (range_map : nat → nat → gmap string string → list (string * string)).












End service_facts.

(** ** The further properties at work *)

Lemma TidyLibrary_leaves_valid_versions_witness :
  let d' := disk_of (TidyLibrary offline binaryLauncher "1.0.0"
                       with_invalid_versions) in
  ("1.0.0" ≠ "" ∧ removes_reliably offline)
  ∧ ((∀ n e, updatesDirectory binaryLauncher d' !! n = Some e → valid_entry n e)
     ∧ size (updatesDirectory binaryLauncher d') ≤ 3
     ∧ staging d' = ∅).
Proof.
  intros d'.
  assert ("1.0.0" ≠ "") as H1 by discriminate.
  assert (removes_reliably offline) as H2 by (by split).
  split; [done|].
  exact (TidyLibrary_leaves_valid_versions offline binaryLauncher "1.0.0"
           with_invalid_versions H1 H2).
Defined.

Lemma TidyLibrary_idempotent_witness :
  let d1 := disk_of (TidyLibrary offline binaryLauncher "1.0.0" five_versions) in
  removes_reliably offline
  ∧ disk_of (TidyLibrary offline binaryLauncher "1.0.0" d1) = d1.
Proof.
  intros d1.
  assert (removes_reliably offline) as H1 by (by split).
  split; [done|].
  exact (TidyLibrary_idempotent offline binaryLauncher "1.0.0" five_versions H1).
Defined.

Lemma TidyLibrary_keeps_valid_running_version_witness :
  let L := updatesDirectory binaryLauncher five_versions in
  let L' := updatesDirectory binaryLauncher
              (disk_of (TidyLibrary offline binaryLauncher "1.0.0" five_versions)) in
  (L !! "1.0.0" = Some ExeRunnable ∧ is_Some (NewVersion "1.0.0"))
  ∧ L' !! "1.0.0" = Some ExeRunnable.
Proof.
  intros L L'.
  assert (L !! "1.0.0" = Some ExeRunnable) as H1 by (by vm_compute).
  assert (is_Some (NewVersion "1.0.0")) as H2 by (by eexists; vm_compute).
  split; [done|].
  exact (TidyLibrary_keeps_valid_running_version offline binaryLauncher "1.0.0"
           five_versions H1 H2).
Defined.

Lemma moveVerifiedUpdate_cleans_up_witness :
  let t := "launcher-1.2.0.tar.gz" in
  let v := versionFromTarget binaryLauncher t in
  let r := moveVerifiedUpdate serving binaryLauncher t t staged_release in
  RemoveAll_err serving (InStaging v) = false
  ∧ ((∀ n, n ≠ v → staging (disk_of r) !! n = staging staged_release !! n)
     ∧ (staging (disk_of r) !! v = None
        ∨ (events_of r = [EvMkdirAll v false] ∧ disk_of r = staged_release
           ∧ result_of r ≠ nil))).
Proof.
  intros t v r.
  assert (RemoveAll_err serving (InStaging v) = false) as H1 by reflexivity.
  split; [done|].
  exact (moveVerifiedUpdate_cleans_up serving binaryLauncher t t staged_release H1).
Defined.

Lemma toy_opts_provided : Forall wix.provided toy_opts.
Proof. repeat constructor. Qed.

Lemma toy_tool_made :
  wix.value_of (wix.New toy_sys "C:\root" [] toy_opts tt)
  = Returns (Some toy_tool, nil).
Proof. reflexivity. Qed.

Lemma Cleanup_removes_only_temp_dir_witness :
  let made := wix.New toy_sys "C:\root" [] toy_opts tt in
  let gone := wix.removed (wix.calls_of (wix.Cleanup toy_sys toy_tool tt)) in
  (Forall wix.provided toy_opts
   ∧ wix.value_of made = Returns (Some toy_tool, nil))
  ∧ ((gone = []
      ∨ gone = [wix.buildDir toy_tool]
        ∧ wix.CallMkdirTemp "wix-build-dir" (Some (wix.buildDir toy_tool))
          ∈ wix.calls_of made)
     ∧ (wix.SkipCleanup ∈ toy_opts → gone = [])
     ∧ (∀ pre path post,
          toy_opts = pre ++ wix.WithBuildDir path :: post →
          (∀ p, wix.WithBuildDir p ∉ post) → path ≠ "" →
          wix.buildDir toy_tool = path ∧ gone = [])).
Proof.
  intros made gone. split; [split; [apply toy_opts_provided|apply toy_tool_made]|].
  exact (Cleanup_removes_only_temp_dir toy_sys "C:\root" [] toy_opts tt toy_tool tt
           toy_opts_provided toy_tool_made).
Defined.

Lemma New_msArch_witness :
  (Forall wix.provided toy_opts
   ∧ wix.value_of (wix.New toy_sys "C:\root" [] toy_opts tt)
     = Returns (Some toy_tool, nil))
  ∧ ((wix.msArch toy_tool = "x86" ∨ wix.msArch toy_tool = "x64")
     ∧ (∀ pre post, toy_opts = pre ++ wix.As64bit :: post →
          wix.As32bit ∉ post → wix.msArch toy_tool = "x64")
     ∧ (∀ pre post, toy_opts = pre ++ wix.As32bit :: post →
          wix.As64bit ∉ post → wix.msArch toy_tool = "x86")
     ∧ (wix.As64bit ∉ toy_opts → wix.As32bit ∉ toy_opts →
          (wix.sys_GOARCH toy_sys = "386" ∧ wix.msArch toy_tool = "x86")
          ∨ (wix.sys_GOARCH toy_sys = "amd64" ∧ wix.msArch toy_tool = "x64"))).
Proof.
  split; [split; [apply toy_opts_provided|apply toy_tool_made]|].
  exact (New_msArch toy_sys "C:\root" [] toy_opts tt toy_tool
           toy_opts_provided toy_tool_made).
Defined.

Lemma New_writes_Installer_last_witness :
  let made := wix.New toy_sys "C:\root" [] toy_opts tt in
  (Forall wix.provided toy_opts
   ∧ wix.value_of made = Returns (Some toy_tool, nil))
  ∧ ∃ extras,
      wix.files_written (wix.calls_of made)
      = extras ++ [(wix.filepath_Join toy_sys (wix.buildDir toy_tool)
                      "Installer.wxs", [])]
      ∧ ∀ path content,
          (path, content) ∈ extras
          ↔ ∃ name, wix.WithFile name content ∈ toy_opts
                    ∧ path = wix.filepath_Join toy_sys (wix.buildDir toy_tool) name.
Proof.
  intros made. split; [split; [apply toy_opts_provided|apply toy_tool_made]|].
  exact (New_writes_Installer_last toy_sys "C:\root" [] toy_opts tt toy_tool
           toy_opts_provided toy_tool_made).
Defined.

Lemma New_light_flags_witness :
  (Forall wix.provided toy_opts
   ∧ wix.value_of (wix.New toy_sys "C:\root" [] toy_opts tt)
     = Returns (Some toy_tool, nil))
  ∧ (("-sval" ∈ wix.light_args toy_tool ↔ wix.SkipValidation ∈ toy_opts)
     ∧ ("WixUIExtension" ∈ wix.light_args toy_tool ↔ wix.WithUI ∈ toy_opts)).
Proof.
  split; [split; [apply toy_opts_provided|apply toy_tool_made]|].
  exact (New_light_flags toy_sys "C:\root" [] toy_opts tt toy_tool
           toy_opts_provided toy_tool_made).
Defined.



Lemma TidyLibrary_glob_failure_witness :
  let r := TidyLibrary glob_fails binaryLauncher "1.0.0" five_versions in
  Glob_err glob_fails (UpdatesDir binaryLauncher) = true
  ∧ (updatesDirectory binaryLauncher (disk_of r)
     = updatesDirectory binaryLauncher five_versions
     ∧ ∀ v ok, (EvRemoveAll (InLibrary binaryLauncher v) ok ∉ events_of r)
               ∧ (EvCheckExecutable (InLibrary binaryLauncher v) ok
                  ∉ events_of r)).
Proof.
  intros r.
  assert (Glob_err glob_fails (UpdatesDir binaryLauncher) = true) as H1
    by reflexivity.
  split; [done|].
  exact (TidyLibrary_glob_failure glob_fails binaryLauncher "1.0.0"
           five_versions H1).
Defined.

Lemma TidyLibrary_keeps_newest_valid_version_witness :
  let L := updatesDirectory binaryLauncher five_versions in
  let L' := updatesDirectory binaryLauncher
              (disk_of (TidyLibrary offline binaryLauncher "1.0.0" five_versions)) in
  (L !! "1.4.0" = Some ExeRunnable
   ∧ ∃ vn, NewVersion "1.4.0" = Some vn
           ∧ ∀ m vm, m ≠ "1.4.0" → L !! m = Some ExeRunnable →
                     NewVersion m = Some vm → LessThan vm vn = true)
  ∧ L' !! "1.4.0" = Some ExeRunnable.
Proof.
  intros L L'.
  assert (L !! "1.4.0" = Some ExeRunnable) as H1 by (by vm_compute).
  assert (∃ vn, NewVersion "1.4.0" = Some vn
                ∧ ∀ m vm, m ≠ "1.4.0" → L !! m = Some ExeRunnable →
                          NewVersion m = Some vm → LessThan vm vn = true) as H2.
  { assert (is_Some (NewVersion "1.4.0")) as [vn Hvn]
      by (eexists; vm_compute; reflexivity).
    pose proof Hvn as Hvn'. vm_compute in Hvn'. injection Hvn' as Hvn'.
    subst vn. eexists. split; [exact Hvn|].
    assert (map_Forall
              (λ m (_ : Executable), m ≠ "1.4.0" →
                 ∀ vm, NewVersion m = Some vm →
                       LessThan vm (plain.mkVersion 1 4 0 "1.4.0") = true) L)
      as HF.
    { apply map_Forall_to_list. vm_compute.
      repeat (constructor;
              [first [intros _ vm [= <-]; reflexivity
                     |intros Hne; by destruct Hne]|]).
      constructor. }
    intros m vm Hm HLm Hvm.
    exact (proj1 (map_Forall_lookup _ L) HF m ExeRunnable HLm Hm vm Hvm). }
  split; [done|].
  destruct H2 as (vn & Hvn & Hnewest).
  exact (TidyLibrary_keeps_newest_valid_version offline binaryLauncher "1.0.0"
           five_versions "1.4.0" vn H1 Hvn Hnewest).
Defined.

